(** * JSXGraph: line geometry and grid layout

    A shallow embedding of [src/Line.js] (the [JXG.Line] element, its
    ticks, its traces and its parametrization), of [src/base/text.js]
    ([updateRenderer], [hasPoint], [update] and the markup of subscripts
    and superscripts) and of the grid constructor [JXG.createGrid],
    followed by the properties of these functions.

    JavaScript numbers are IEEE 754 binary64 values.  They are modelled by
    [spec_float] with precision 53 and maximal exponent 1024, so every
    arithmetic operation below rounds exactly as the JavaScript operation
    does, and [NaN] and the two infinities behave as in the language. *)

From Stdlib Require Import ZArith List Bool Lia String Ascii.
From Stdlib Require Import SpecFloat.
From Stdlib Require Import Reals Lra.
From Stdlib Require Import DecimalString DecimalNat.
Import ListNotations.

Set Implicit Arguments.

(* ================================================================== *)
(** * JavaScript numbers *)
(* ================================================================== *)

Module JSNum.

Local Open Scope Z_scope.

Definition prec : Z := 53.
Definition emax : Z := 1024.

Definition num : Type := spec_float.

Definition NaN : num := S754_nan.
Definition Infinity : num := S754_infinity false.

(** The number denoted by an integer literal. *)
Definition of_Z (z : Z) : num := binary_normalize prec emax z 0 false.

Definition add : num -> num -> num := SFadd prec emax.
Definition sub : num -> num -> num := SFsub prec emax.
Definition mul : num -> num -> num := SFmul prec emax.
Definition div : num -> num -> num := SFdiv prec emax.
Definition neg : num -> num := SFopp.

(** The relational operators; every comparison with [NaN] is false. *)
Definition ltb (a b : num) : bool := SFltb a b.
Definition leb (a b : num) : bool := SFleb a b.
Definition gtb (a b : num) : bool := SFltb b a.
Definition geb (a b : num) : bool := SFleb b a.
Definition eqb (a b : num) : bool := SFeqb a b.

Definition isNaN (x : num) : bool :=
  match x with S754_nan => true | _ => false end.

Definition isFinite (x : num) : bool :=
  match x with
  | S754_zero _ | S754_finite _ _ _ => true
  | _ => false
  end.

Definition Math_abs : num -> num := SFabs.
Definition Math_sqrt : num -> num := SFsqrt prec emax.

(** The double nearest to pi, [Math.PI]. *)
Definition Math_PI : num := S754_finite false 7074237752028440 (-51).

(** A decimal literal [n / d] with integral [n] and [d]: the division of
    two exactly represented integers is correctly rounded, so the result
    is the double the literal denotes. *)
Definition ratio (n d : Z) : num := div (of_Z n) (of_Z d).

(** [Math.floor]: the largest integer not above the argument. *)
Definition Math_floor (x : num) : num :=
  match x with
  | S754_finite s m e =>
      if 0 <=? e then x
      else
        let n := Z.shiftr (cond_Zopp s (Zpos m)) (- e) in
        if n =? 0 then S754_zero false else of_Z n
  | _ => x
  end.

(** [Math.round]: the nearest integer, a tie going to the larger one;
    an argument in [[-0.5, 0)] gives the negative zero. *)
Definition Math_round (x : num) : num :=
  match x with
  | S754_finite s m e =>
      if 0 <=? e then x
      else
        let n := Z.shiftr (2 * cond_Zopp s (Zpos m) + 2 ^ (- e)) (1 - e) in
        if n =? 0 then S754_zero s else of_Z n
  | _ => x
  end.

(** The remainder operator [%]: exact, with the sign of the dividend. *)
Definition rem (x y : num) : num :=
  match x, y with
  | S754_nan, _ | _, S754_nan => S754_nan
  | S754_infinity _, _ => S754_nan
  | _, S754_zero _ => S754_nan
  | _, S754_infinity _ => x
  | S754_zero _, _ => x
  | S754_finite sx mx ex, S754_finite _ my ey =>
      let e := Z.min ex ey in
      let a := Z.shiftl (Zpos mx) (ex - e) in
      let b := Z.shiftl (Zpos my) (ey - e) in
      let r := Z.modulo a b in
      if r =? 0 then S754_zero sx
      else binary_normalize prec emax (cond_Zopp sx r) e false
  end.

End JSNum.

Import JSNum.

(* ================================================================== *)
(** * Homogeneous vectors *)
(* ================================================================== *)

(** A JavaScript array of three coordinates, [[z, x, y]] for a point and
    [[c, a, b]] for the standard form of a line. *)
Record Vec3 (T : Type) : Type := mkVec3 { v0 : T; v1 : T; v2 : T }.

(** The arithmetic the vector algebra needs, so that it can be read over
    the doubles the program computes with and over the real numbers the
    doubles approximate. *)
Record Arith (T : Type) : Type := mkArith {
  a_zero : T;
  a_add : T -> T -> T;
  a_sub : T -> T -> T;
  a_mul : T -> T -> T
}.

Definition num_arith : Arith num := mkArith (of_Z 0) add sub mul.
Definition R_arith : Arith R := mkArith 0%R Rplus Rminus Rmult.

(** Modelled from the spec: [board.algebra.crossProduct], which is not part
    of the sources at hand; the homogeneous cross product of two
    3-vectors. *)
Definition crossProduct {T} (A : Arith T) (c1 c2 : Vec3 T) : Vec3 T :=
  mkVec3
    (a_sub A (a_mul A (v1 c1) (v2 c2)) (a_mul A (v2 c1) (v1 c2)))
    (a_sub A (a_mul A (v2 c1) (v0 c2)) (a_mul A (v0 c1) (v2 c2)))
    (a_sub A (a_mul A (v0 c1) (v1 c2)) (a_mul A (v1 c1) (v0 c2))).

(** Modelled from the spec: [board.algebra.innerProduct(a, b, 3)], which is
    not part of the sources at hand; the sum of the products of the
    components, accumulated from zero. *)
Definition innerProduct {T} (A : Arith T) (a b : Vec3 T) : T :=
  a_add A
    (a_add A
       (a_add A (a_zero A) (a_mul A (v0 a) (v0 b)))
       (a_mul A (v1 a) (v1 b)))
    (a_mul A (v2 a) (v2 b)).

(** The array [stdform] of a line after [updateStdform]: three
    coefficients and the entry written at index 3. *)
Record StdForm (T : Type) : Type := mkStdForm {
  sf_coef : Vec3 T;
  sf_3 : T
}.

(** [updateStdform] on the user coordinates of the two defining points.
    [normalize] is [JXG.GeometryElement.prototype.normalize], which is not
    part of the sources at hand and is taken as a parameter. *)
Definition updateStdform_of {T} (A : Arith T)
    (normalize : StdForm T -> StdForm T) (p1 p2 : Vec3 T) : StdForm T :=
  let v := crossProduct A p1 p2 in
  normalize (mkStdForm (mkVec3 (v0 v) (v1 v) (v2 v)) (a_zero A)).

(** The value [k * v] of a standard form scaled by [k]. *)
Definition scale_coef {T} (A : Arith T) (k : T) (v : Vec3 T) : Vec3 T :=
  mkVec3 (a_mul A k (v0 v)) (a_mul A k (v1 v)) (a_mul A k (v2 v)).

(** The coefficients [c] that [hasPoint] computes from the array
    [stdform], the screen coordinates of the origin of the board, the two
    units and the two zoom factors, for a line drawn beyond both points
    ([src/Line.js], lines 179 to 184).  The division and the negation come
    with the arithmetic. *)
Definition screen_stdform_of {T} (A : Arith T) (dv : T -> T -> T)
    (ng : T -> T) (s o : Vec3 T) (unitX unitY zoomX zoomY : T) : Vec3 T :=
  mkVec3
    (a_add A
       (a_sub A (v0 s)
          (dv (a_mul A (v1 s) (v1 o)) (a_mul A unitX zoomX)))
       (dv (a_mul A (v2 s) (v2 o)) (a_mul A unitY zoomY)))
    (dv (v1 s) (a_mul A unitX zoomX))
    (dv (v2 s) (a_mul A (ng unitY) zoomY)).

(** Modelled from the spec: the position on the screen of the point with
    the user coordinates [(x, y)], as [JXG.Coords] computes it:
    [origin + [x * unitX * zoomX, - y * unitY * zoomY]]. *)
Definition screen_of_user {T} (A : Arith T) (o : Vec3 T)
    (unitX unitY zoomX zoomY x y : T) : T * T :=
  (a_add A (v1 o) (a_mul A (a_mul A x unitX) zoomX),
   a_sub A (v2 o) (a_mul A (a_mul A y unitY) zoomY)).

(** Two coordinate triples are proportional: they are not the homogeneous
    coordinates of two different points. *)
Definition proportional (p q : Vec3 R) : Prop :=
  exists k : R, q = scale_coef R_arith k p \/ p = scale_coef R_arith k q.

(* ================================================================== *)
(** * Lines ([src/Line.js]) *)
(* ================================================================== *)

(** The calls an element makes on the rendering backend. *)
Inductive RendererCall : Type :=
  | show
  | hide
  | updateLine
  | updateText.

Definition RendererCall_eq_dec (a b : RendererCall) : {a = b} + {a <> b}.
Proof. decide equality. Defined.

Module Line.

(** A [JXG.Coords] object: the same position in user and in screen
    coordinates. *)
Record Coords : Type := mkCoords {
  usrCoords : Vec3 num;
  scrCoords : Vec3 num
}.

Record Board : Type := mkBoard {
  origin : Coords;
  unitX : num;
  unitY : num;
  zoomX : num;
  zoomY : num
}.

Record Point : Type := mkPoint { coords : Coords }.

(** The entries of [visProp] that the functions below read. *)
Record VisProp : Type := mkVisProp {
  straightFirst : bool;
  straightLast : bool;
  visible : bool
}.

Record Line : Type := mkLine {
  board : Board;
  point1 : Point;
  point2 : Point;
  stdform : StdForm num;
  r : Z;                  (* board.options.precision.hasPoint, an int *)
  visProp : VisProp;
  needsUpdate : bool;
  isReal : bool
}.

(** What [getSlope] returns: a number, or the string ["INF"]. *)
Inductive Slope : Type :=
  | SlopeNum (s : num)
  | INF.

(** Modelled from the spec: the constructor
    [new JXG.Coords(JXG.COORDS_BY_SCREEN, [x, y], board)], which is not
    part of the sources at hand.  The screen coordinates are the given
    ones; the user coordinates are obtained by inverting
    [screen = origin + [x * unitX * zoomX, - y * unitY * zoomY]]. *)
Definition Coords_by_screen (b : Board) (x y : num) : Coords :=
  mkCoords
    (mkVec3 (of_Z 1)
       (div (sub x (v1 (scrCoords (origin b)))) (mul (unitX b) (zoomX b)))
       (div (sub (v2 (scrCoords (origin b))) y) (mul (unitY b) (zoomY b))))
    (mkVec3 (of_Z 1) x y).

(** Modelled from the spec: [Coords.distance(JXG.COORDS_BY_SCREEN, other)],
    which is not part of the sources at hand; the Euclidean distance of
    the screen positions. *)
Definition distance_scr (c d : Coords) : num :=
  let dx := sub (v1 (scrCoords c)) (v1 (scrCoords d)) in
  let dy := sub (v2 (scrCoords c)) (v2 (scrCoords d)) in
  Math_sqrt (add (mul dx dx) (mul dy dy)).

Section WithEps.

(** [JXG.Math.eps], defined outside the sources at hand. *)
Variable eps : num.

Definition getSlope (l : Line) : Slope :=
  let p1scr := scrCoords (coords (point1 l)) in
  let p2scr := scrCoords (coords (point2 l)) in
  let p1usr := usrCoords (coords (point1 l)) in
  let p2usr := usrCoords (coords (point2 l)) in
  let '(p1, p2) :=
    if leb (Math_abs (sub (v1 p2scr) (v1 p1scr)))
           (Math_abs (sub (v1 p2usr) (v1 p1usr)))
    then (p1usr, p2usr) else (p1scr, p2scr) in
  if geb (Math_abs (sub (v1 p2) (v1 p1))) eps
  then SlopeNum (div (sub (v2 p2) (v2 p1)) (sub (v1 p2) (v1 p1)))
  else INF.

Definition getRise (l : Line) : num :=
  let p1Scr := scrCoords (coords (point1 l)) in
  let p2Scr := scrCoords (coords (point2 l)) in
  Math_round
    (sub (v2 p1Scr)
       (div (mul (v1 p1Scr) (sub (v2 p2Scr) (v2 p1Scr)))
            (sub (v1 p2Scr) (v1 p1Scr)))).

(** The coefficients [c] that [hasPoint] computes for a line drawn
    beyond both points, on the doubles of the line and of its board. *)
Definition screen_stdform (l : Line) : Vec3 num :=
  let b := board l in
  screen_stdform_of num_arith div neg (sf_coef (stdform l))
    (scrCoords (origin b)) (unitX b) (unitY b) (zoomX b) (zoomY b).

(** The loop [for (i = -r; i < r; i++) has = has | (...)] with [n]
    iterations left and the counter at [i]. *)
Fixpoint band_loop (slope rise x y : num) (rr : Z) (n : nat) (i : Z)
    (has : bool) : bool :=
  match n with
  | O => has
  | S n' =>
      band_loop slope rise x y rr n' (i + 1)%Z
        (has ||
         ltb (Math_abs
                (sub y (add (mul slope (add x (of_Z i))) rise)))
             (of_Z rr))
  end.

(** The vertical case of [hasPoint], after [has] has been found true:
    the two tests on the order of the screen ordinates. *)
Definition clamp_vertical (vp : VisProp) (p1y p2y y : num) : bool :=
  let has1 :=
    if negb (straightFirst vp) then
      if ltb p1y p2y then (if ltb y p1y then false else true)
      else if gtb p1y p2y then (if gtb y p1y then false else true)
      else true
    else true in
  if negb (straightLast vp) then
    if ltb p1y p2y then (if gtb y p2y then false else has1)
    else if gtb p1y p2y then (if ltb y p2y then false else has1)
    else has1
  else has1.

(** [hasPoint(x, y)].  The result is the truth value of what the
    function returns (it returns [true], [false], [0] or [1]). *)
Definition hasPoint (l : Line) (x y : num) : bool :=
  let coords0 := Coords_by_screen (board l) x y in
  let slope := getSlope l in
  let rise := getRise l in
  if straightFirst (visProp l) && straightLast (visProp l) then
    let c := screen_stdform l in
    let s := innerProduct num_arith c (scrCoords coords0) in
    if ltb (Math_abs s) (ratio 1 2) then true else false
  else
    let p1Scr := scrCoords (coords (point1 l)) in
    let p2Scr := scrCoords (coords (point2 l)) in
    match slope with
    | SlopeNum sl =>
        let has :=
          band_loop sl rise x y (r l)
            (Z.to_nat (r l - (- r l))) (- r l)%Z false in
        if has then
          let distP1P := distance_scr coords0 (coords (point1 l)) in
          let distP2P := distance_scr coords0 (coords (point2 l)) in
          let distP1P2 :=
            distance_scr (coords (point1 l)) (coords (point2 l)) in
          if gtb distP1P distP1P2 || gtb distP2P distP1P2 then
            if ltb distP1P distP2P then
              if negb (straightFirst (visProp l)) then false else has
            else
              if negb (straightLast (visProp l)) then false else has
          else has
        else has
    | INF =>
        let has := ltb (Math_abs (sub x (v1 p1Scr))) (of_Z (r l)) in
        if has then clamp_vertical (visProp l) (v2 p1Scr) (v2 p2Scr) y
        else has
    end.

End WithEps.

(** [updateStdform], with [normalize] as in [updateStdform_of]. *)
Definition updateStdform (normalize : StdForm num -> StdForm num)
    (l : Line) : Line :=
  mkLine (board l) (point1 l) (point2 l)
    (updateStdform_of num_arith normalize
       (usrCoords (coords (point1 l))) (usrCoords (coords (point2 l))))
    (r l) (visProp l) (needsUpdate l) (isReal l).

(** The sum whose being [NaN] decides [isReal]. *)
Definition coordSum (l : Line) : num :=
  let u1 := usrCoords (coords (point1 l)) in
  let u2 := usrCoords (coords (point2 l)) in
  add (add (add (v1 u1) (v2 u1)) (v1 u2)) (v2 u2).

(** [updateRenderer]: the line afterwards and the calls made on the
    renderer, in order. *)
Definition updateRenderer (l : Line) : Line * list RendererCall :=
  if needsUpdate l && visible (visProp l) then
    let wasReal := isReal l in
    let isReal' := if isNaN (coordSum l) then false else true in
    let calls :=
      if isReal' then
        (if negb (Bool.eqb wasReal isReal') then [show] else [])
          ++ [updateLine]
      else
        (if negb (Bool.eqb wasReal isReal') then [hide] else []) in
    (mkLine (board l) (point1 l) (point2 l) (stdform l) (r l)
       (visProp l) false isReal', calls)
  else (l, []).

(** The line with another tolerance radius. *)
Definition set_r (l : Line) (r' : Z) : Line :=
  mkLine (board l) (point1 l) (point2 l) (stdform l) r' (visProp l)
    (needsUpdate l) (isReal l).

(** Modelled from the spec: the constructor
    [new JXG.Coords(JXG.COORDS_BY_USER, [x, y], board)], which is not part
    of the sources at hand:
    [screen = origin + [x * unitX * zoomX, - y * unitY * zoomY]]. *)
Definition Coords_by_user (b : Board) (x y : num) : Coords :=
  mkCoords
    (mkVec3 (of_Z 1) x y)
    (mkVec3 (of_Z 1)
       (add (v1 (scrCoords (origin b))) (mul (mul x (unitX b)) (zoomX b)))
       (sub (v2 (scrCoords (origin b))) (mul (mul y (unitY b)) (zoomY b)))).

(** All four user coordinates of the two defining points are finite. *)
Definition coords_finite (l : Line) : bool :=
  let u1 := usrCoords (coords (point1 l)) in
  let u2 := usrCoords (coords (point2 l)) in
  isFinite (v1 u1) && isFinite (v2 u1) && isFinite (v1 u2) && isFinite (v2 u2).

(** One of the four user coordinates is [NaN]. *)
Definition coords_have_NaN (l : Line) : bool :=
  let u1 := usrCoords (coords (point1 l)) in
  let u2 := usrCoords (coords (point2 l)) in
  isNaN (v1 u1) || isNaN (v2 u1) || isNaN (v1 u2) || isNaN (v2 u2).

(** The abscissae of the two points are equal, as [==] compares them, in
    user and in screen coordinates. *)
Definition same_abscissa (l : Line) : bool :=
  eqb (v1 (usrCoords (coords (point1 l)))) (v1 (usrCoords (coords (point2 l))))
  && eqb (v1 (scrCoords (coords (point1 l))))
         (v1 (scrCoords (coords (point2 l)))).

(** The screen point [(x, y)] is farther from one of the two defining
    points than these are from each other. *)
Definition beyond_endpoint (l : Line) (x y : num) : bool :=
  let c := Coords_by_screen (board l) x y in
  let distP1P2 := distance_scr (coords (point1 l)) (coords (point2 l)) in
  gtb (distance_scr c (coords (point1 l))) distP1P2
  || gtb (distance_scr c (coords (point2 l))) distP1P2.

(** The screen ordinate [y] lies strictly outside the ordinates of the two
    defining points, which differ. *)
Definition outside_ordinates (l : Line) (y : num) : bool :=
  let p1y := v2 (scrCoords (coords (point1 l))) in
  let p2y := v2 (scrCoords (coords (point2 l))) in
  (ltb p1y p2y && (ltb y p1y || gtb y p2y))
  || (gtb p1y p2y && (gtb y p1y || ltb y p2y)).

End Line.

(* ================================================================== *)
(** * Text elements ([src/base/text.js]) *)
(* ================================================================== *)

Module Text.

Record Text : Type := mkText { needsUpdate : bool }.

Definition updateRenderer (t : Text) : Text * list RendererCall :=
  if needsUpdate t then (mkText false, [updateText]) else (t, []).

End Text.

(* ================================================================== *)
(** * Grids ([JXG.createGrid]) *)
(* ================================================================== *)

(** How far a call has got when the model stops following it: it has
    returned, it has thrown an exception, or it is still inside one of its
    loops after the number of iterations the model was asked to follow. *)
Inductive Status : Type :=
  | Returned
  | Threw
  | Running.

Module Grid.

Local Open Scope string_scope.
Local Open Scope list_scope.

(** What [Type.evaluate] gives for an attribute that holds a size, a step
    or a count. *)
Inductive Value : Type :=
  | VUndefined             (* undefined or null *)
  | VNum (v : num)         (* a number, or a string that reads as one *)
  | VPercent (v : num)     (* a string such as '10%' *)
  | VPx (v : num)          (* a string such as '10px' *)
  | VAuto.                 (* the string 'auto' *)

(** A step or count attribute: one value, or an array of values.  An array
    is an object: the attribute and every variable it was assigned to name
    the same array. *)
Inductive Steps : Type :=
  | Scalar (v : Value)
  | Array (l : list Value).

Inductive ForceSquare : Type :=
  | FS_min                 (* 'min' *)
  | FS_max                 (* 'max' *)
  | FS_true                (* true *)
  | FS_other.              (* anything else *)

Record VisProp : Type := mkVisProp {
  majorstep : Steps;
  gridx : Value;
  gridy : Value;
  sizex : Value;
  sizey : Value;
  face : string;
  drawzero0 : bool;
  drawzerox : bool;
  drawzeroy : bool;
  includeboundaries : bool;
  forcesquare : ForceSquare;
  minorelements : Steps;
  polygonvertices : num;
  margin : num;
  linecap : string
}.

(** A grid is a curve element: its attributes and its two data arrays. *)
Record GridEl : Type := mkGridEl {
  visProp : VisProp;
  dataX : list num;
  dataY : list num;
  bezierDegree : Z
}.

(** The two data arrays of a grid are equally long. *)
Definition balanced (g : GridEl) : Prop :=
  List.length (dataX g) = List.length (dataY g).

(** The bounding box [[left, top, right, bottom]]. *)
Record BBox : Type := mkBBox { bb0 : num; bb1 : num; bb2 : num; bb3 : num }.

Record Board : Type := mkBoard {
  getBoundingBox : BBox;
  unitX : num;
  unitY : num
}.

(** What the grid reads of a parent axis: the result of
    [ticks[0].getDistanceMajorTicks()] and the attribute
    [ticks.minorticks].  The record describes an axis on which both can
    be read, one that has an entry [ticks[0]] and an attribute [ticks];
    on an axis without them the reads throw, which
    [majorGrid_updateDataArray_on] and [minorGrid_updateDataArray_on]
    below add to the two functions. *)
Record Axis : Type := mkAxis {
  getDistanceMajorTicks : num;
  minorticks : num
}.

(** The variables of one call of [JXG.createGrid] that its two
    [updateDataArray] functions share.  [majorStep] is [None] while the
    variable is still undefined; the radii are [NaN] until they are
    assigned, which is how [undefined] enters the arithmetic. *)
Record State : Type := mkState {
  board : Board;
  parentAxes0 : option Axis;
  parentAxes1 : option Axis;
  majorGrid : GridEl;
  minorGrid : GridEl;
  majorStep : option (list Value);
  majorRadiusX : num;
  majorRadiusY : num
}.

Definition maxLines : num := of_Z 5000.

Definition Type_exists (v : Value) : bool :=
  match v with VUndefined => false | _ => true end.

(** [Type.isNumber(v, true)]. *)
Definition Type_isNumber (v : Value) : bool :=
  match v with VNum _ => true | _ => false end.

(** [Type.isString(v) && v.indexOf('%') > -1]. *)
Definition isPercent (v : Value) : bool :=
  match v with VPercent _ => true | _ => false end.

Definition isAuto (v : Value) : bool :=
  match v with VAuto => true | _ => false end.

Definition parseFloat (v : Value) : num :=
  match v with
  | VNum x | VPercent x | VPx x => x
  | _ => NaN
  end.

(** A value used as an operand of an arithmetic operator. *)
Definition toNumber (v : Value) : num :=
  match v with VNum x => x | _ => NaN end.

(** Modelled from the spec: [Type.parseNumber(v, percentOfWhat, convertPx)],
    which is not part of the sources at hand: it parses a literal or a
    percentage of a length; a value in pixels is converted with the third
    argument. *)
Definition parseNumber (v : Value) (percentOfWhat convertPx : num) : num :=
  match v with
  | VNum x => x
  | VPercent x => mul (mul x percentOfWhat) (ratio 1 100)
  | VPx x => mul x convertPx
  | _ => NaN
  end.

(** Reading [a[i]]: [undefined] beyond the end. *)
Definition array_get (a : list Value) (i : nat) : Value := nth i a VUndefined.

(** The assignment [a[i] = v], which lengthens the array when [i] is
    beyond its end. *)
Fixpoint array_set (a : list Value) (i : nat) (v : Value) : list Value :=
  match i, a with
  | O, [] => [v]
  | O, _ :: t => v :: t
  | S i', [] => VUndefined :: array_set [] i' v
  | S i', h :: t => h :: array_set t i' v
  end.

(** The array that the first lines of both functions work on, and whether
    it is the array of the attribute itself ([true]) or a new one:
    [Type.evaluate] returns an array as it is, a value that is not an array
    is put twice into a new array, and so is the only entry of a shorter
    array. *)
Definition two_entries (s : Steps) : list Value * bool :=
  match s with
  | Scalar v => ([v; v], false)
  | Array l =>
      if (List.length l <? 2)%nat then ([array_get l 0; array_get l 0], false)
      else (l, true)
  end.

(** [String.prototype.toLowerCase] on the letters A to Z. *)
Definition lower_ascii (c : ascii) : ascii :=
  let n := nat_of_ascii c in
  if ((65 <=? n) && (n <=? 90))%nat then ascii_of_nat (n + 32) else c.

Fixpoint toLowerCase (s : string) : string :=
  match s with
  | EmptyString => EmptyString
  | String c t => String (lower_ascii c) (toLowerCase t)
  end.

Definition set_linecap (g : GridEl) (cap : string) : GridEl :=
  let p := visProp g in
  mkGridEl
    (mkVisProp (majorstep p) (gridx p) (gridy p) (sizex p) (sizey p)
       (face p) (drawzero0 p) (drawzerox p) (drawzeroy p)
       (includeboundaries p) (forcesquare p) (minorelements p)
       (polygonvertices p) (margin p) cap)
    (dataX g) (dataY g) (bezierDegree g).

Definition set_bezierDegree (g : GridEl) (d : Z) : GridEl :=
  mkGridEl (visProp g) (dataX g) (dataY g) d.

Definition set_majorstep (g : GridEl) (s : Steps) : GridEl :=
  let p := visProp g in
  mkGridEl
    (mkVisProp s (gridx p) (gridy p) (sizex p) (sizey p)
       (face p) (drawzero0 p) (drawzerox p) (drawzeroy p)
       (includeboundaries p) (forcesquare p) (minorelements p)
       (polygonvertices p) (margin p) (linecap p))
    (dataX g) (dataY g) (bezierDegree g).

Definition set_minorelements (g : GridEl) (s : Steps) : GridEl :=
  let p := visProp g in
  mkGridEl
    (mkVisProp (majorstep p) (gridx p) (gridy p) (sizex p) (sizey p)
       (face p) (drawzero0 p) (drawzerox p) (drawzeroy p)
       (includeboundaries p) (forcesquare p) s
       (polygonvertices p) (margin p) (linecap p))
    (dataX g) (dataY g) (bezierDegree g).

Definition set_data (g : GridEl) (dx dy : list num) : GridEl :=
  mkGridEl (visProp g) dx dy (bezierDegree g).

(** The functions of the library that the grid calls and that are defined
    outside the sources at hand: the constant [Mat.eps], [Mat.roundToStep]
    and the trigonometric functions, whose values the language leaves to
    the implementation. *)
Record Lib : Type := mkLib {
  Mat_eps : num;
  Mat_roundToStep : num -> num -> num;
  Math_sin : num -> num;
  Math_cos : num -> num;
  Math_tan : num -> num
}.

(** Modelled from the spec: [Mat.roundToStep(value, step)], which is not
    part of the sources at hand: round down to the nearest multiple of
    [step] below [value]. *)
Definition roundToStep_down (value step : num) : num :=
  mul (Math_floor (div value step)) step.

(** The names that [createDataArrayForFace] knows, in lower case. *)
Definition face_names : list string :=
  [ "."; "point"; "o"; "circle"; "regpol"; "regularpolygon"; "[]"; "square";
    "<>"; "diamond"; "<<>>"; "diamond2"; "x"; "cross"; "+"; "plus"; "-";
    "minus"; "|"; "divide"; "^"; "a"; "triangleup"; "v"; "triangledown";
    "<"; "triangleleft"; ">"; "triangleright"; "line" ].

(** The attributes without [linecap], the only one the grid functions
    write and never read. *)
Definition without_linecap (p : VisProp) : VisProp :=
  mkVisProp (majorstep p) (gridx p) (gridy p) (sizex p) (sizey p)
    (face p) (drawzero0 p) (drawzerox p) (drawzeroy p)
    (includeboundaries p) (forcesquare p) (minorelements p)
    (polygonvertices p) (margin p) EmptyString.

(** Two grids with the same attributes, but for [linecap], and the same
    data arrays. *)
Definition same_drawing (g g' : GridEl) : Prop :=
  without_linecap (visProp g) = without_linecap (visProp g')
  /\ dataX g = dataX g' /\ dataY g = dataY g'.

(** Two states in which [majorGrid.updateDataArray] reads the same bounding
    box, units, axes and attributes. *)
Definition same_major_inputs (st st' : State) : Prop :=
  board st = board st'
  /\ parentAxes0 st = parentAxes0 st'
  /\ parentAxes1 st = parentAxes1 st'
  /\ without_linecap (visProp (majorGrid st))
     = without_linecap (visProp (majorGrid st')).

(** Two states in which [minorGrid.updateDataArray] reads the same bounding
    box, units, axes, attributes and shared variables. *)
Definition same_minor_inputs (st st' : State) : Prop :=
  board st = board st'
  /\ parentAxes0 st = parentAxes0 st'
  /\ parentAxes1 st = parentAxes1 st'
  /\ majorGrid st = majorGrid st'
  /\ majorStep st = majorStep st'
  /\ majorRadiusX st = majorRadiusX st'
  /\ majorRadiusY st = majorRadiusY st'
  /\ without_linecap (visProp (minorGrid st))
     = without_linecap (visProp (minorGrid st')).

(** The state in which the attribute [minorElements] of the minor grid is
    [s]. *)
Definition with_minorelements (st : State) (s : Steps) : State :=
  mkState (board st) (parentAxes0 st) (parentAxes1 st) (majorGrid st)
    (set_minorelements (minorGrid st) s)
    (majorStep st) (majorRadiusX st) (majorRadiusY st).

(** The state in which the attribute [majorStep] of the major grid is
    [s]. *)
Definition with_majorstep (st : State) (s : Steps) : State :=
  mkState (board st) (parentAxes0 st) (parentAxes1 st)
    (set_majorstep (majorGrid st) s) (minorGrid st)
    (majorStep st) (majorRadiusX st) (majorRadiusY st).

Section WithLib.

Variable L : Lib.

(** The loop of the face 'regularPolygon',
    [for (t = 0; t <= 2 * Math.PI; t += (2 * Math.PI) / n)], followed for
    at most [fuel] iterations. *)
Fixpoint regpol_loop (x y radiusX radiusY n : num) (fuel : nat) (t : num)
    (ax ay : list num) : list num * list num * Status :=
  match fuel with
  | O => (ax, ay, Running)
  | S fuel' =>
      if leb t (mul (of_Z 2) Math_PI) then
        regpol_loop x y radiusX radiusY n fuel'
          (add t (div (mul (of_Z 2) Math_PI) n))
          (ax ++ [sub x (mul radiusX (Math_sin L t))])
          (ay ++ [sub y (mul radiusY (Math_cos L t))])
      else (ax, ay, Returned)
  end.

(** [createDataArrayForFace(face, grid, x, y, radiusX, radiusY, bbox)]:
    the grid with the attributes the function has set, the two arrays it
    returns (or has built so far), and how far it has got. *)
Definition createDataArrayForFace (fuel : nat) (fc : string) (b : Board)
    (grid : GridEl) (x y radiusX radiusY : num) (bbox : BBox)
    : GridEl * (list num * list num) * Status :=
  let f := toLowerCase fc in
  if (f =? ".") || (f =? "point") then
    (set_linecap grid "round", ([x; x; NaN], [y; y; NaN]), Returned)
  else if (f =? "o") || (f =? "circle") then
    let q := div (mul (of_Z 4) (Math_tan L (div Math_PI (of_Z 8)))) (of_Z 3) in
    (set_bezierDegree (set_linecap grid "square") 3,
     ([ add x radiusX; add x radiusX; add x (mul q radiusX); x;
        sub x (mul q radiusX); sub x radiusX; sub x radiusX; sub x radiusX;
        sub x (mul q radiusX); x; add x (mul q radiusX); add x radiusX;
        add x radiusX; NaN ],
      [ y; add y (mul q radiusY); add y radiusY; add y radiusY;
        add y radiusY; add y (mul q radiusY); y; sub y (mul q radiusY);
        sub y radiusY; sub y radiusY; sub y radiusY; sub y (mul q radiusY);
        y; NaN ]),
     Returned)
  else if (f =? "regpol") || (f =? "regularpolygon") then
    let grid1 := set_linecap grid "round" in
    let n := polygonvertices (visProp grid1) in
    match regpol_loop x y radiusX radiusY n fuel (of_Z 0) [] [] with
    | (ax, ay, Returned) => (grid1, (ax ++ [NaN], ay ++ [NaN]), Returned)
    | (ax, ay, s) => (grid1, (ax, ay), s)
    end
  else if (f =? "[]") || (f =? "square") then
    (set_linecap grid "square",
     ([ sub x radiusX; add x radiusX; add x radiusX; sub x radiusX;
        sub x radiusX; NaN ],
      [ add y radiusY; add y radiusY; sub y radiusY; sub y radiusY;
        add y radiusY; NaN ]),
     Returned)
  else if (f =? "<>") || (f =? "diamond") then
    (set_linecap grid "square",
     ([ x; add x radiusX; x; sub x radiusX; x; NaN ],
      [ add y radiusY; y; sub y radiusY; y; add y radiusY; NaN ]),
     Returned)
  else if (f =? "<<>>") || (f =? "diamond2") then
    let rx2 := mul radiusX (Math_sqrt (of_Z 2)) in
    let ry2 := mul radiusY (Math_sqrt (of_Z 2)) in
    (set_linecap grid "square",
     ([ x; add x rx2; x; sub x rx2; x; NaN ],
      [ add y ry2; y; sub y ry2; y; add y ry2; NaN ]),
     Returned)
  else if (f =? "x") || (f =? "cross") then
    (grid,
     ([ sub x radiusX; add x radiusX; NaN;
        sub x radiusX; add x radiusX; NaN ],
      [ add y radiusY; sub y radiusY; NaN;
        sub y radiusY; add y radiusY; NaN ]),
     Returned)
  else if (f =? "+") || (f =? "plus") then
    (grid,
     ([ sub x radiusX; add x radiusX; NaN; x; x; NaN ],
      [ y; y; NaN; sub y radiusY; add y radiusY; NaN ]),
     Returned)
  else if (f =? "-") || (f =? "minus") then
    (grid, ([ sub x radiusX; add x radiusX; NaN ], [ y; y; NaN ]), Returned)
  else if (f =? "|") || (f =? "divide") then
    (grid, ([ x; x; NaN ], [ sub y radiusY; add y radiusY; NaN ]), Returned)
  else if (f =? "^") || (f =? "a") || (f =? "A") || (f =? "triangleup") then
    (grid,
     ([ sub x radiusX; x; add x radiusX; NaN ],
      [ sub y radiusY; y; sub y radiusY; NaN ]),
     Returned)
  else if (f =? "v") || (f =? "triangledown") then
    (grid,
     ([ sub x radiusX; x; add x radiusX; NaN ],
      [ add y radiusY; y; add y radiusY; NaN ]),
     Returned)
  else if (f =? "<") || (f =? "triangleleft") then
    (grid,
     ([ add x radiusX; x; add x radiusX; NaN ],
      [ add y radiusY; y; sub y radiusY; NaN ]),
     Returned)
  else if (f =? ">") || (f =? "triangleright") then
    (grid,
     ([ sub x radiusX; x; sub x radiusX; NaN ],
      [ add y radiusY; y; sub y radiusY; NaN ]),
     Returned)
  else if (f =? "line") then
    let m := margin (visProp grid) in
    (grid,
     ([ x; x; NaN;
        sub (bb0 bbox) (div m (unitX b)); add (bb2 bbox) (div m (unitX b));
        NaN ],
      [ add (bb1 bbox) (div m (unitY b)); sub (bb3 bbox) (div m (unitY b));
        NaN; y; y; NaN ]),
     Returned)
  else (grid, ([], []), Returned).

(** [majorGrid.hasPoint] and [minorGrid.hasPoint]. *)
Definition majorGrid_hasPoint (st : State) (x y : num) : bool := false.
Definition minorGrid_hasPoint (st : State) (x y : num) : bool := false.

(** ** The major grid *)

Section MajorLoops.

Variables (fuel0 : nat) (b : Board) (bbox : BBox) (fc : string).
Variables (drawZero0 drawZeroX drawZeroY includeBoundaries finite : bool).
Variables (step0 step1 radiusX radiusY startX : num).

(** The condition under which the inner loop goes on to the next point
    without drawing. *)
Definition major_skip (x y : num) : bool :=
  let eps := Mat_eps L in
  (negb drawZero0 && ltb (Math_abs y) eps && ltb (Math_abs x) eps)
  || (negb drawZeroX && ltb (Math_abs y) eps && geb (Math_abs x) eps)
  || (negb drawZeroY && ltb (Math_abs x) eps && geb (Math_abs y) eps)
  || (negb includeBoundaries
      && (leb x (add (bb0 bbox) radiusX)
          || geb x (sub (bb2 bbox) radiusX)
          || leb y (add (bb3 bbox) radiusY)
          || geb y (sub (bb1 bbox) radiusY))).

(** The inner loop [for (x = startX; finite && x <= bbox[2]; x += step0)]
    of the row at [y], followed for at most [n] iterations. *)
Fixpoint major_row (n : nat) (y x : num) (g : GridEl) : GridEl * Status :=
  match n with
  | O => (g, Running)
  | S n' =>
      if finite && leb x (bb2 bbox) then
        if major_skip x y then major_row n' y (add x step0) g
        else
          match createDataArrayForFace fuel0 fc b g x y radiusX radiusY bbox
          with
          | (g1, (ax, ay), Returned) =>
              major_row n' y (add x step0)
                (set_data g1 (dataX g1 ++ ax) (dataY g1 ++ ay))
          | (g1, _, s) => (g1, s)
          end
      else (g, Returned)
  end.

(** The outer loop [for (y = startY; finite && y >= bbox[3]; y -= step1)]. *)
Fixpoint major_rows (n : nat) (y : num) (g : GridEl) : GridEl * Status :=
  match n with
  | O => (g, Running)
  | S n' =>
      if finite && geb y (bb3 bbox) then
        match major_row fuel0 y startX g with
        | (g1, Returned) => major_rows n' (sub y step1) g1
        | r => r
        end
      else (g, Returned)
  end.

End MajorLoops.

(** The step an entry of [majorStep] resolves to. *)
Definition resolve_step (v : Value) (axis : option Axis)
    (percentOfWhat convertPx : num) : num :=
  if isAuto v then
    match axis with
    | Some a => getDistanceMajorTicks a
    | None => of_Z 1
    end
  else parseNumber v percentOfWhat convertPx.

(** The two steps after [forceSquare] has been applied. *)
Definition force_square (fs : ForceSquare) (b : Board) (m0 m1 : num)
    : num * num :=
  match fs with
  | FS_min =>
      if leb (mul m0 (unitX b)) (mul m1 (unitY b))
      then (m0, mul (div m0 (unitY b)) (unitX b))
      else (mul (div m1 (unitX b)) (unitY b), m1)
  | FS_max | FS_true =>
      if leb (mul m0 (unitX b)) (mul m1 (unitY b))
      then (mul (div m1 (unitX b)) (unitY b), m1)
      else (m0, mul (div m0 (unitY b)) (unitX b))
  | FS_other => (m0, m1)
  end.

(** [majorRadiusX] and [majorRadiusY] from a size, a step and a unit. *)
Definition major_radius (size : Value) (step unit : num) : num :=
  if isPercent size
  then div (mul (div (parseFloat size) (of_Z 100)) step) (of_Z 2)
  else div (div (parseFloat size) unit) (of_Z 2).

(** [majorGrid.updateDataArray()], its loops followed for at most [fuel]
    iterations each. *)
Definition majorGrid_updateDataArray (fuel : nat) (st : State)
    : State * Status :=
  let this := majorGrid st in
  let vp := visProp this in
  let b := board st in
  let bbox := getBoundingBox b in
  let '(arr0, shared) := two_entries (majorstep vp) in
  let arr1 :=
    if Type_exists (gridx vp) then array_set arr0 0 (gridx vp) else arr0 in
  let arr2 :=
    if Type_exists (gridy vp) then array_set arr1 1 (gridy vp) else arr1 in
  let m0 :=
    resolve_step (array_get arr2 0) (parentAxes0 st)
      (Math_abs (sub (bb1 bbox) (bb3 bbox))) (div (of_Z 1) (unitX b)) in
  let m1 :=
    resolve_step (array_get arr2 1) (parentAxes1 st)
      (Math_abs (sub (bb0 bbox) (bb2 bbox))) (div (of_Z 1) (unitY b)) in
  let '(s0, s1) := force_square (forcesquare vp) b m0 m1 in
  let arr3 := array_set (array_set arr2 0 (VNum s0)) 1 (VNum s1) in
  let sizeX :=
    if Type_exists (sizex vp) then sizex vp
    else if Type_exists (sizey vp) then sizey vp else VNum (of_Z 5) in
  let sizeY :=
    if Type_exists (sizey vp) then sizey vp
    else if Type_exists sizeX then sizeX else VNum (of_Z 5) in
  let rX := major_radius sizeX s0 (unitX b) in
  let rY := major_radius sizeY s1 (unitY b) in
  let startX := Mat_roundToStep L (bb0 bbox) s0 in
  let startY := Mat_roundToStep L (bb1 bbox) s1 in
  let finite :=
    isFinite startX && isFinite startY
    && isFinite (bb2 bbox) && isFinite (bb3 bbox)
    && ltb (Math_abs (bb2 bbox)) (Math_abs (mul s0 maxLines))
    && ltb (Math_abs (bb3 bbox)) (Math_abs (mul s1 maxLines)) in
  let this1 :=
    set_data (if shared then set_majorstep this (Array arr3) else this)
      [] [] in
  let '(this2, status) :=
    major_rows fuel b bbox (face vp)
      (drawzero0 vp) (drawzerox vp) (drawzeroy vp) (includeboundaries vp)
      finite s0 s1 rX rY startX fuel startY this1 in
  (mkState b (parentAxes0 st) (parentAxes1 st) this2 (minorGrid st)
     (Some arr3) rX rY,
   status).

(** ** The minor grid *)

Section MinorLoops.

Variables (fuel0 : nat) (b : Board) (bbox : BBox).
Variables (minorFace majorFace : string).
Variables (minorDrawZeroX minorDrawZeroY : bool).
Variables (majorDrawZero0 majorDrawZeroX majorDrawZeroY : bool).
Variables (includeBoundaries finite : bool).
Variables (M0 M1 MRX MRY : num).     (* majorStep[0], majorStep[1], radii *)
Variables (minorStep0 minorStep1 minorRadius0 minorRadius1 startX : num).

(** A minor grid point that a major grid element covers. *)
Definition minor_covered (x y : num) : bool :=
  let eps := Mat_eps L in
  let XdisTo0 :=
    Math_abs (sub (Mat_roundToStep L (Math_abs x) M0) (Math_abs x)) in
  let XdisFrom0 := sub M0 XdisTo0 in
  let YdisTo0 :=
    Math_abs (sub (Mat_roundToStep L (Math_abs y) M1) (Math_abs y)) in
  let YdisFrom0 := sub M1 YdisTo0 in
  let nearX :=
    ltb (sub (sub XdisTo0 minorRadius0) MRX) eps
    || ltb (sub (sub XdisFrom0 minorRadius0) MRX) eps in
  let nearY :=
    ltb (sub (sub YdisTo0 minorRadius1) MRY) eps
    || ltb (sub (sub YdisFrom0 minorRadius1) MRY) eps in
  if (majorFace =? "line")%string then nearX || nearY
  else if nearX && nearY then
    (majorDrawZero0
     || ltb (add (sub MRY (Math_abs y)) minorRadius1) eps
     || ltb (add (sub MRX (Math_abs x)) minorRadius0) eps)
    && (majorDrawZeroX
        || ltb (add (sub MRY (Math_abs y)) minorRadius1) eps
        || ltb (sub (add MRX (Math_abs x)) minorRadius0) eps)
    && (majorDrawZeroY
        || ltb (add (sub MRX (Math_abs x)) minorRadius0) eps
        || ltb (sub (add MRY (Math_abs y)) minorRadius1) eps)
  else false.

(** A minor grid point on an axis that is not to be drawn. *)
Definition minor_on_axis (x y : num) : bool :=
  let eps := Mat_eps L in
  (negb minorDrawZeroY && ltb (Math_abs x) eps)
  || (negb minorDrawZeroX && ltb (Math_abs y) eps).

(** A minor grid point too close to the border of the bounding box. *)
Definition minor_on_boundary (x y : num) : bool :=
  let eps := Mat_eps L in
  let dis0To := Math_abs (rem (bb0 bbox) M0) in
  let dis1To := Math_abs (rem (bb1 bbox) M1) in
  let dis2To := Math_abs (rem (bb2 bbox) M0) in
  let dis3To := Math_abs (rem (bb3 bbox) M1) in
  let dis0From := sub M0 dis0To in
  let dis1From := sub M1 dis1To in
  let dis2From := sub M0 dis2To in
  let dis3From := sub M1 dis3To in
  let left := sub (sub (sub x minorRadius0) (bb0 bbox)) MRX in
  let right := sub (add (sub (neg x) minorRadius0) (bb2 bbox)) MRX in
  let top := sub (add (sub (neg y) minorRadius1) (bb1 bbox)) MRY in
  let bottom := sub (sub (sub y minorRadius1) (bb3 bbox)) MRY in
  negb includeBoundaries
  && ((ltb (add left dis0From) eps && ltb (sub dis0From MRX) eps)
      || (ltb (sub left dis0To) eps && ltb (sub dis0To MRX) eps)
      || (ltb (add right dis2From) eps && ltb (sub dis2From MRX) eps)
      || (ltb (sub right dis2To) eps && ltb (sub dis2To MRX) eps)
      || (ltb (add top dis1From) eps && ltb (sub dis1From MRY) eps)
      || (ltb (sub top dis1To) eps && ltb (sub dis1To MRY) eps)
      || (ltb (add bottom dis3From) eps && ltb (sub dis3From MRY) eps)
      || (ltb (sub bottom dis3To) eps && ltb (sub dis3To MRY) eps)
      || ltb (add (sub (neg y) minorRadius1) (bb1 bbox)) eps
      || ltb (sub (sub x minorRadius0) (bb0 bbox)) eps
      || ltb (sub (sub y minorRadius1) (bb3 bbox)) eps
      || ltb (add (sub (neg x) minorRadius0) (bb2 bbox)) eps).

Fixpoint minor_row (n : nat) (y x : num) (g : GridEl) : GridEl * Status :=
  match n with
  | O => (g, Running)
  | S n' =>
      if finite && leb x (bb2 bbox) then
        if minor_covered x y || minor_on_axis x y || minor_on_boundary x y
        then minor_row n' y (add x minorStep0) g
        else
          match
            createDataArrayForFace fuel0 minorFace b g x y
              minorRadius0 minorRadius1 bbox
          with
          | (g1, (ax, ay), Returned) =>
              minor_row n' y (add x minorStep0)
                (set_data g1 (dataX g1 ++ ax) (dataY g1 ++ ay))
          | (g1, _, s) => (g1, s)
          end
      else (g, Returned)
  end.

Fixpoint minor_rows (n : nat) (y : num) (g : GridEl) : GridEl * Status :=
  match n with
  | O => (g, Running)
  | S n' =>
      if finite && geb y (bb3 bbox) then
        match minor_row fuel0 y startX g with
        | (g1, Returned) => minor_rows n' (sub y minorStep1) g1
        | r => r
        end
      else (g, Returned)
  end.

End MinorLoops.

(** The number of minor elements an entry of [minorElements] stands for. *)
Definition resolve_count (v : Value) (axis : option Axis) : num :=
  if Type_isNumber v then parseFloat v
  else
    match axis with
    | Some a => minorticks a
    | None => of_Z 0
    end.

(** [minorGrid.updateDataArray()], its loops followed for at most [fuel]
    iterations each.  Reading [majorStep[0]] while [majorStep] is still
    undefined throws. *)
Definition minorGrid_updateDataArray (fuel : nat) (st : State)
    : State * Status :=
  let this := minorGrid st in
  let vp := visProp this in
  let mvp := visProp (majorGrid st) in
  let b := board st in
  let bbox := getBoundingBox b in
  let '(me0, shared) := two_entries (minorelements vp) in
  let n0 := resolve_count (array_get me0 0) (parentAxes0 st) in
  let me1 := array_set me0 0 (VNum n0) in
  match majorStep st with
  | None =>
      (mkState b (parentAxes0 st) (parentAxes1 st) (majorGrid st)
         (set_data
            (if shared then set_minorelements this (Array me1) else this)
            [] [])
         None (majorRadiusX st) (majorRadiusY st),
       Threw)
  | Some ms =>
      let M0 := toNumber (array_get ms 0) in
      let M1 := toNumber (array_get ms 1) in
      let minorStep0 := div M0 (add n0 (of_Z 1)) in
      let n1 := resolve_count (array_get me1 1) (parentAxes1 st) in
      let me2 := array_set me1 1 (VNum n1) in
      let minorStep1 := div M1 (add n1 (of_Z 1)) in
      let minorSizeX :=
        if Type_exists (sizex vp) then sizex vp
        else if Type_exists (sizey vp) then sizey vp else VNum (of_Z 3) in
      let minorSizeY :=
        if Type_exists (sizey vp) then sizey vp
        else if Type_exists minorSizeX then minorSizeX else VNum (of_Z 3) in
      let minorRadius0 :=
        parseNumber minorSizeX (div minorStep0 (of_Z 2))
          (div (of_Z 1) (unitX b)) in
      let minorRadius1 :=
        parseNumber minorSizeY (div minorStep1 (of_Z 2))
          (div (of_Z 1) (unitY b)) in
      let startX := Mat_roundToStep L (bb0 bbox) minorStep0 in
      let startY := Mat_roundToStep L (bb1 bbox) minorStep1 in
      let finite :=
        isFinite startX && isFinite startY
        && isFinite (bb2 bbox) && isFinite (bb3 bbox)
        && leb (Math_abs (bb2 bbox)) (Math_abs (mul minorStep0 maxLines))
        && ltb (Math_abs (bb3 bbox)) (Math_abs (mul minorStep1 maxLines)) in
      let this1 :=
        set_data
          (if shared then set_minorelements this (Array me2) else this)
          [] [] in
      let '(this2, status) :=
        minor_rows fuel b bbox (face vp) (face mvp)
          (drawzerox vp) (drawzeroy vp)
          (drawzero0 mvp) (drawzerox mvp) (drawzeroy mvp)
          (includeboundaries vp) finite
          M0 M1 (majorRadiusX st) (majorRadiusY st)
          minorStep0 minorStep1 minorRadius0 minorRadius1 startX
          fuel startY this1 in
      (mkState b (parentAxes0 st) (parentAxes1 st) (majorGrid st) this2
         (Some ms) (majorRadiusX st) (majorRadiusY st),
       status)
  end.

(** ** Parent axes on which a read fails *)

(** Whether the two reads of a parent axis can be made: the axis has an
    entry [ticks[0]], and it has an attribute [ticks]. *)
Record AxisReads : Type := mkAxisReads {
  has_ticks0 : bool;
  has_ticks_attribute : bool
}.

Definition axis_exists (a : option Axis) : bool :=
  match a with Some _ => true | None => false end.

(** The array [majorStep] when the function comes to resolve ['auto'],
    and whether it is the array of the attribute itself. *)
Definition majorStep_given (st : State) : list Value * bool :=
  let vp := visProp (majorGrid st) in
  let '(arr0, shared) := two_entries (majorstep vp) in
  let arr1 :=
    if Type_exists (gridx vp) then array_set arr0 0 (gridx vp) else arr0 in
  let arr2 :=
    if Type_exists (gridy vp) then array_set arr1 1 (gridy vp) else arr1 in
  (arr2, shared).

(** The state in which [majorGrid.updateDataArray] throws on the read of
    an axis: the data arrays are empty, [majorStep] is the array [arr]
    with what has been assigned to its entries, and so is the attribute
    when it is the same array. *)
Definition major_thrown (st : State) (arr : list Value) (shared : bool)
    : State :=
  let this := majorGrid st in
  mkState (board st) (parentAxes0 st) (parentAxes1 st)
    (set_data (if shared then set_majorstep this (Array arr) else this)
       [] [])
    (minorGrid st) (Some arr) (majorRadiusX st) (majorRadiusY st).

(** [majorGrid.updateDataArray()] with parent axes that may lack the
    entry [ticks[0]]: for a step ['auto'] the function assigns 1 to the
    entry of [majorStep] and then, when the axis exists, reads
    [parentAxes[i].ticks[0].getDistanceMajorTicks()], which throws when
    [ticks[0]] is undefined. *)
Definition majorGrid_updateDataArray_on (a0 a1 : AxisReads) (fuel : nat)
    (st : State) : State * Status :=
  let b := board st in
  let bbox := getBoundingBox b in
  let '(arr2, shared) := majorStep_given st in
  if isAuto (array_get arr2 0) && axis_exists (parentAxes0 st)
     && negb (has_ticks0 a0)
  then (major_thrown st (array_set arr2 0 (VNum (of_Z 1))) shared, Threw)
  else
    let m0 :=
      resolve_step (array_get arr2 0) (parentAxes0 st)
        (Math_abs (sub (bb1 bbox) (bb3 bbox))) (div (of_Z 1) (unitX b)) in
    if isAuto (array_get arr2 1) && axis_exists (parentAxes1 st)
       && negb (has_ticks0 a1)
    then
      (major_thrown st
         (array_set (array_set arr2 0 (VNum m0)) 1 (VNum (of_Z 1))) shared,
       Threw)
    else majorGrid_updateDataArray fuel st.

(** The state in which [minorGrid.updateDataArray] throws on the read of
    an axis, with [me] for the array [minorElements]. *)
Definition minor_thrown (st : State) (me : list Value) (shared : bool)
    : State :=
  let this := minorGrid st in
  mkState (board st) (parentAxes0 st) (parentAxes1 st) (majorGrid st)
    (set_data (if shared then set_minorelements this (Array me) else this)
       [] [])
    (majorStep st) (majorRadiusX st) (majorRadiusY st).

(** [minorGrid.updateDataArray()] with parent axes that may lack the
    attribute [ticks]: for an entry of [minorElements] that is not a
    number the function assigns 0 to it and then, when the axis exists,
    reads [parentAxes[i].getAttribute('ticks').minorticks], which throws
    when the attribute is undefined.  Between the two reads it reads
    [majorStep[0]]. *)
Definition minorGrid_updateDataArray_on (a0 a1 : AxisReads) (fuel : nat)
    (st : State) : State * Status :=
  let '(me0, shared) :=
    two_entries (minorelements (visProp (minorGrid st))) in
  if negb (Type_isNumber (array_get me0 0)) && axis_exists (parentAxes0 st)
     && negb (has_ticks_attribute a0)
  then (minor_thrown st (array_set me0 0 (VNum (of_Z 0))) shared, Threw)
  else
    match majorStep st with
    | None => minorGrid_updateDataArray fuel st
    | Some _ =>
        let n0 := resolve_count (array_get me0 0) (parentAxes0 st) in
        let me1 := array_set me0 0 (VNum n0) in
        if negb (Type_isNumber (array_get me1 1))
           && axis_exists (parentAxes1 st)
           && negb (has_ticks_attribute a1)
        then
          (minor_thrown st (array_set me1 1 (VNum (of_Z 0))) shared, Threw)
        else minorGrid_updateDataArray fuel st
    end.

End WithLib.

(** The library used to run the functions on examples: [Mat.eps] is
    0.000001 and [Mat.roundToStep] rounds down; the trigonometric
    functions are arguments, since the examples do not call them. *)
Definition example_lib (f : num -> num) : Lib :=
  mkLib (ratio 1 1000000) roundToStep_down f f f.

End Grid.

(* ================================================================== *)
(** * Boards, lines and grids used as examples *)
(* ================================================================== *)

(** 0.000001, the value the examples take for [JXG.Math.eps] and
    [Mat.eps]. *)
Definition eps6 : num := ratio 1 1000000.

(** A board whose origin is at the pixel (250, 250), with 50 pixels to the
    unit and no zoom. *)
Definition board50 : Line.Board :=
  Line.mkBoard
    (Line.mkCoords (mkVec3 (of_Z 1) (of_Z 0) (of_Z 0))
                   (mkVec3 (of_Z 1) (of_Z 250) (of_Z 250)))
    (of_Z 50) (of_Z 50) (of_Z 1) (of_Z 1).

(** The line on [board50] through two points given in user coordinates,
    with the standard form of the cross product and tolerance radius 5. *)
Definition line50 (x1 y1 x2 y2 : num) (first last vis upd real : bool)
    : Line.Line :=
  let c1 := Line.Coords_by_user board50 x1 y1 in
  let c2 := Line.Coords_by_user board50 x2 y2 in
  Line.mkLine board50 (Line.mkPoint c1) (Line.mkPoint c2)
    (updateStdform_of num_arith (fun s => s)
       (Line.usrCoords c1) (Line.usrCoords c2))
    5 (Line.mkVisProp first last vis) upd real.

(** The horizontal line through (0, 0) and (1, 0), drawn beyond both
    points. *)
Definition straight_line : Line.Line :=
  line50 (of_Z 0) (of_Z 0) (of_Z 1) (of_Z 0) true true true true true.

(** A line that is not visible and is due for an update. *)
Definition hidden_line : Line.Line :=
  line50 (of_Z 0) (of_Z 0) (of_Z 1) (of_Z 0) true true false true true.

(** A line whose first point has the abscissa [Infinity]. *)
Definition line_to_infinity : Line.Line :=
  line50 Infinity (of_Z 0) (of_Z 1) (of_Z 0) true true true true true.

(** A line whose second point has the ordinate [NaN], whose [isReal] is
    [real] and which is due for an update. *)
Definition line_to_NaN (real : bool) : Line.Line :=
  line50 (of_Z 0) (of_Z 0) (of_Z 1) NaN true true true true real.

(** The segment from (0, 0) to (0.00000001, 1): its points are half a
    millionth of a pixel apart horizontally. *)
Definition steep_segment : Line.Line :=
  line50 (of_Z 0) (of_Z 0) (ratio 1 100000000) (of_Z 1)
    false false true true true.

(** The vertical segment from (0, 0) to (0, -2): on the screen, from
    (250, 250) down to (250, 350). *)
Definition vertical_segment : Line.Line :=
  line50 (of_Z 0) (of_Z 0) (of_Z 0) (of_Z (-2)) false false true true true.

(** The segment from (0, 0) to (2, 1): on the screen, from (250, 250) to
    (350, 200). *)
Definition slanted_segment : Line.Line :=
  line50 (of_Z 0) (of_Z 0) (of_Z 2) (of_Z 1) false false true true true.

(** A normalization of the kind the spec describes, over the real
    numbers: the coefficients are divided by [sqrt (a * a + b * b)]. *)
Definition normalize_unit (s : StdForm R) : StdForm R :=
  let a := v1 (sf_coef s) in
  let b := v2 (sf_coef s) in
  mkStdForm (scale_coef R_arith (/ sqrt (a * a + b * b))%R (sf_coef s))
    (sf_3 s).

(** A normalization on doubles that multiplies the three coefficients by
    [k]. *)
Definition rescale (k : num) (s : StdForm num) : StdForm num :=
  mkStdForm (scale_coef num_arith k (sf_coef s)) (sf_3 s).

(** The line through the points (1e200, 0) and (0, 1e200). *)
Definition far_line : Line.Line :=
  line50 (of_Z (10 ^ 200)) (of_Z 0) (of_Z 0) (of_Z (10 ^ 200))
    true true true true true.

(** The attributes of a grid of points with the default sizes: the
    major step, [forceSquare], [drawZeroX] and [includeBoundaries] are
    given, [drawZero0] and [drawZeroY] are true. *)
Definition point_grid (ms : Grid.Steps) (fs : Grid.ForceSquare)
    (drawZeroX includeBoundaries : bool) : Grid.GridEl :=
  Grid.mkGridEl
    (Grid.mkVisProp ms Grid.VUndefined Grid.VUndefined
       Grid.VUndefined Grid.VUndefined "point" true drawZeroX true
       includeBoundaries fs (Grid.Scalar (Grid.VNum (of_Z 0)))
       (of_Z 6) (of_Z 0) "butt")
    [] [] 1.

(** A number that is zero or negative, [-Infinity] included. *)
Definition not_positive (t : num) : bool :=
  match t with
  | S754_zero _ => true
  | S754_infinity s => s
  | S754_finite s _ _ => s
  | S754_nan => false
  end.

(** A grid of regular polygons with [n] vertices. *)
Definition polygon_grid (n : num) : Grid.GridEl :=
  Grid.mkGridEl
    (Grid.mkVisProp (Grid.Scalar (Grid.VNum (of_Z 1))) Grid.VUndefined
       Grid.VUndefined Grid.VUndefined Grid.VUndefined "regularPolygon"
       true true true true Grid.FS_other (Grid.Scalar (Grid.VNum (of_Z 0)))
       n (of_Z 0) "butt")
    [] [] 1.

(** A grid without parent axes, as [JXG.createGrid] leaves it. *)
Definition new_grid (bbox : Grid.BBox) (unit : num) (g : Grid.GridEl)
    : Grid.State :=
  Grid.mkState (Grid.mkBoard bbox unit unit) None None g g None NaN NaN.

(** The bounding box [[-5001, 1, 1, -1]] at 50 pixels to the unit, with
    a major step of 1: 5003 columns of grid points. *)
Definition wide_grid : Grid.State :=
  new_grid (Grid.mkBBox (of_Z (-5001)) (of_Z 1) (of_Z 1) (of_Z (-1)))
    (of_Z 50)
    (point_grid (Grid.Scalar (Grid.VNum (of_Z 1))) Grid.FS_other
       false false).

(** The bounding box [[-5, 5, 5, -5]] at 49 pixels to the unit, with
    [majorStep: [1, 1]] and [forceSquare: 'min']. *)
Definition square_grid : Grid.State :=
  new_grid (Grid.mkBBox (of_Z (-5)) (of_Z 5) (of_Z 5) (of_Z (-5)))
    (of_Z 49)
    (point_grid (Grid.Array [Grid.VNum (of_Z 1); Grid.VNum (of_Z 1)])
       Grid.FS_min true true).

(** The bounding box [[-5001, 1, 5001, -1]] with the attributes of
    [wide_grid]: the right border is 5001 steps from the origin. *)
Definition wide_grid_capped : Grid.State :=
  new_grid (Grid.mkBBox (of_Z (-5001)) (of_Z 1) (of_Z 5001) (of_Z (-1)))
    (of_Z 50)
    (point_grid (Grid.Scalar (Grid.VNum (of_Z 1))) Grid.FS_other
       false false).

(** Another reading of [Mat.roundToStep]: the nearest multiple of the
    step. *)
Definition roundToStep_nearest (value step : num) : num :=
  mul (Math_round (div value step)) step.

(** The same with [majorStep: 1]. *)
Definition square_grid_scalar : Grid.State :=
  new_grid (Grid.mkBBox (of_Z (-5)) (of_Z 5) (of_Z 5) (of_Z (-5)))
    (of_Z 49)
    (point_grid (Grid.Scalar (Grid.VNum (of_Z 1))) Grid.FS_min true true).

(** A grid with the steps and the numbers of minor elements ['auto'],
    each given as an array of two entries, and one parent axis. *)
Definition auto_grid : Grid.State :=
  Grid.mkState
    (Grid.mkBoard (Grid.mkBBox (of_Z (-5)) (of_Z 5) (of_Z 5) (of_Z (-5)))
       (of_Z 50) (of_Z 50))
    (Some (Grid.mkAxis (of_Z 1) (of_Z 0))) None
    (point_grid (Grid.Array [Grid.VAuto; Grid.VAuto]) Grid.FS_other
       true true)
    (Grid.set_minorelements
       (point_grid (Grid.Scalar (Grid.VNum (of_Z 1))) Grid.FS_other
          true true)
       (Grid.Array [Grid.VAuto; Grid.VAuto]))
    None NaN NaN.

(* ================================================================== *)
(** * JavaScript strings *)
(* ================================================================== *)

Module JSString.

Local Open Scope string_scope.

(** [s] starts with [pat]. *)
Fixpoint starts_with (pat s : string) : bool :=
  match pat, s with
  | EmptyString, _ => true
  | String a p, String b t => Ascii.eqb a b && starts_with p t
  | String _ _, EmptyString => false
  end.

(** The position of the first occurrence of [pat] in [s], if any. *)
Fixpoint find (pat s : string) : option nat :=
  if starts_with pat s then Some O
  else
    match s with
    | EmptyString => None
    | String _ t => option_map S (find pat t)
    end.

(** [s.indexOf(pat)]: the position of the first occurrence, or -1. *)
Definition indexOf (s pat : string) : Z :=
  match find pat s with
  | Some n => Z.of_nat n
  | None => (-1)%Z
  end.

Fixpoint take (n : nat) (s : string) : string :=
  match n, s with
  | S n', String c t => String c (take n' t)
  | _, _ => EmptyString
  end.

Fixpoint drop (n : nat) (s : string) : string :=
  match n, s with
  | S n', String _ t => drop n' t
  | _, _ => s
  end.

(** [s.substr(0, i)] and [s.substr(i)] for an index [i] that is not
    negative. *)
Definition substr_to (s : string) (i : Z) : string := take (Z.to_nat i) s.
Definition substr (s : string) (i : Z) : string := drop (Z.to_nat i) s.

(** [s.replace(/pat/, rep)] for a pattern that matches the text [pat] only
    and a replacement without [$]: the first occurrence is replaced. *)
Fixpoint replace (pat rep s : string) : string :=
  if starts_with pat s then rep ++ drop (String.length pat) s
  else
    match s with
    | EmptyString => EmptyString
    | String c t => String c (replace pat rep t)
    end.

(** The characters that [.] does not match, among those of one byte. *)
Definition lineTerminator (c : ascii) : bool :=
  Ascii.eqb c "010"%char || Ascii.eqb c "013"%char.

(** [s.replace(/m(.?)/, open + '$1' + close)] for a character [m]: the
    first [m] and the character after it, unless that ends a line. *)
Fixpoint replace_with_next (m : ascii) (open close s : string) : string :=
  match s with
  | EmptyString => EmptyString
  | String c t =>
      if Ascii.eqb c m then
        match t with
        | String d t' =>
            if lineTerminator d then open ++ close ++ t
            else open ++ String d (close ++ t')
        | EmptyString => open ++ close
        end
      else String c (replace_with_next m open close t)
  end.

(** [s.replace(/pat/g, rep)] for a pattern that matches the text [pat]
    only, [pat] not empty, and a replacement without [$]: every occurrence
    found from left to right is replaced, and the search goes on behind
    the occurrence.  [skip] counts the characters of the occurrence that
    are still to be passed over. *)
Fixpoint replace_all_from (skip : nat) (pat rep s : string) : string :=
  match s with
  | EmptyString => EmptyString
  | String c t =>
      match skip with
      | S k => replace_all_from k pat rep t
      | O =>
          if starts_with pat (String c t)
          then rep ++ replace_all_from (String.length pat - 1) pat rep t
          else String c (replace_all_from O pat rep t)
      end
  end.

Definition replace_all (pat rep s : string) : string :=
  replace_all_from O pat rep s.

(** The number of occurrences of a character. *)
Fixpoint count (c : ascii) (s : string) : nat :=
  match s with
  | EmptyString => O
  | String d t => (if Ascii.eqb d c then 1 else 0) + count c t
  end.

End JSString.

(* ================================================================== *)
(** * The markup of a text: [replaceSub], [replaceSup], GEONExT tags *)
(* ================================================================== *)

Module TextMarkup.

Import JSString.
Local Open Scope string_scope.

Section Script.

(** The marker ([_] or [^]) and the two tags. *)
Variable m : ascii.
Variables open close : string.

Definition marker : string := String m EmptyString.
Definition marker_brace : string := String m "{".

(** The first loop, [while (i >= 0)] on the position of the marker
    followed by a brace, for at most [n] iterations. *)
Fixpoint braces_loop (n : nat) (te : string) : option string :=
  let i := indexOf te marker_brace in
  if (0 <=? i)%Z then
    match n with
    | O => None
    | S n' =>
        let te1 :=
          substr_to te i ++ replace marker_brace open (substr te i) in
        let j := indexOf (substr te1 i) "}" in
        let te2 :=
          if (0 <=? j)%Z
          then substr_to te1 j ++ replace "}" close (substr te1 j)
          else te1 in
        braces_loop n' te2
    end
  else Some te.

(** The second loop, on the position of the marker alone. *)
Fixpoint marker_loop (n : nat) (te : string) : option string :=
  let i := indexOf te marker in
  if (0 <=? i)%Z then
    match n with
    | O => None
    | S n' =>
        marker_loop n'
          (substr_to te i ++ replace_with_next m open close (substr te i))
    end
  else Some te.

Definition replaceScript (n : nat) (te : string) : option string :=
  match braces_loop n te with
  | Some te' => marker_loop n te'
  | None => None
  end.

(** The characters that neither loop adds or removes: all but the marker,
    the braces and the characters of the two tags. *)
Definition kept (c : ascii) : Prop :=
  c <> m /\ c <> "{"%char /\ c <> "}"%char
  /\ count c open = O /\ count c close = O.

End Script.

(** [replaceSub(te)] and [replaceSup(te)] on a string, each loop followed
    for at most [n] iterations; [None] when a loop has not ended by
    then. *)
Definition replaceSub : nat -> string -> option string :=
  replaceScript "_" "<sub>" "</sub>".
Definition replaceSup : nat -> string -> option string :=
  replaceScript "^" "<sup>" "</sup>".

(** [convertGeonext2CSS(s)] on a string; a value that is not a string is
    returned as it is. *)
Definition convertGeonext2CSS (s : string) : string :=
  let s :=
    replace_all "<overline>" "<span style=text-decoration:overline>" s in
  let s :=
    replace_all "&lt;overline&gt;" "<span style=text-decoration:overline>"
      s in
  let s := replace_all "</overline>" "</span>" s in
  let s := replace_all "&lt;/overline&gt;" "</span>" s in
  let s :=
    replace_all "<arrow>" "<span style=text-decoration:overline>" s in
  let s :=
    replace_all "&lt;arrow&gt;" "<span style=text-decoration:overline>" s in
  let s := replace_all "</arrow>" "</span>" s in
  let s := replace_all "&lt;/arrow&gt;" "</span>" s in
  s.

(** The GEONExT tags that [convertGeonext2CSS] looks for. *)
Definition geonext_tags : list string :=
  ["<overline>"; "&lt;overline&gt;"; "</overline>"; "&lt;/overline&gt;";
   "<arrow>"; "&lt;arrow&gt;"; "</arrow>"; "&lt;/arrow&gt;"].

End TextMarkup.

(* ================================================================== *)
(** * The ticks of a line and its traces *)
(* ================================================================== *)

(** The decimal numeral of a count, as [+] writes a number into a
    string. *)
Definition decimal (n : nat) : string :=
  NilEmpty.string_of_uint (Nat.to_uint n).

Module LineTicks.

Local Open Scope string_scope.
Local Open Scope list_scope.

(** A label of a tick. *)
Record Label : Type := mkLabel {
  label_show : bool;
  label_rendNode : nat
}.

(** A [JXG.Ticks] object.  [ref] tells one object from another, as [==]
    does; [id] is [None] while the property is undefined; [ticks_length]
    is the length of its own array [ticks]; an entry of [labels] is
    [None] when it is [null]. *)
Record Ticks : Type := mkTicks {
  ref : nat;
  id : option string;
  rendNode : nat;
  ticks_length : nat;
  labels : list (option Label)
}.

(** A line with what the functions below read besides the geometry: its
    id, the array [ticks], in which [None] is a hole that [delete] has
    left, [defaultTicks] ([None] for [null]), and the trace. *)
Record TLine : Type := mkTLine {
  line : Line.Line;
  line_id : string;
  ticks : list (option Ticks);
  defaultTicks : option Ticks;
  traced : bool;
  numTraces : nat;
  traces : list string
}.

(** The calls made on the renderer and on the ticks. *)
Inductive Call : Type :=
  | drawTicks (t : nat)
  | ticks_updateRenderer (t : nat)
  | calculateTicksCoordinates (t : nat)
  | remove (node : nat)
  | drawLine (copy_id : string).

Definition same_object (a b : Ticks) : bool := Nat.eqb (ref a) (ref b).

Definition set_ticks (l : TLine) (ts : list (option Ticks)) : TLine :=
  mkTLine (line l) (line_id l) ts (defaultTicks l) (traced l) (numTraces l)
    (traces l).

(** The id of the ticks is the empty string or undefined. *)
Definition no_id (t : Ticks) : bool :=
  match id t with
  | None => true
  | Some s => (s =? EmptyString)%string
  end.

(** The object [t] after the assignment [t.id = s]. *)
Definition set_id (t : Ticks) (s : string) : Ticks :=
  mkTicks (ref t) (Some s) (rendNode t) (ticks_length t) (labels t).

(** An entry of an array after the assignment [t.id = s]: the id is
    written into the object, so that every entry that is the object [t]
    shows it. *)
Definition id_written (t : Ticks) (s : string) (e : option Ticks)
    : option Ticks :=
  match e with
  | Some k => if same_object k t then Some (set_id k s) else Some k
  | None => None
  end.

(** [addTicks(ticks)]: the line, the calls and the id returned.  When the
    id of [ticks] is empty or undefined, the function assigns one to the
    object that was passed: the entry it pushes is that object as the call
    leaves it, and the entries and [defaultTicks] that are the same object
    show the id as well. *)
Definition addTicks (l : TLine) (t : Ticks)
    : TLine * list Call * string :=
  let calls := [drawTicks (ref t); ticks_updateRenderer (ref t)] in
  let fresh :=
    (line_id l ++ "_ticks_" ++ decimal (List.length (ticks l) + 1))%string in
  let assigned :=
    (mkTLine (line l) (line_id l)
       (map (id_written t fresh) (ticks l) ++ [Some (set_id t fresh)])
       (id_written t fresh (defaultTicks l)) (traced l) (numTraces l)
       (traces l),
     calls, fresh) in
  match id t with
  | None => assigned
  | Some s =>
      if (s =? EmptyString)%string then assigned
      else (set_ticks l (ticks l ++ [Some t]), calls, s)
  end.

(** The loop [for (t = this.ticks.length; t > 0; t--)] of
    [removeAllTicks], with the counter at [t]: reading [rendNode] of a
    hole throws. *)
Fixpoint removeAllTicks_loop (ts : list (option Ticks)) (t : nat)
    (calls : list Call) : list Call * Status :=
  match t with
  | O => (calls, Returned)
  | S t' =>
      match nth t' ts None with
      | Some k => removeAllTicks_loop ts t' (calls ++ [remove (rendNode k)])
      | None => (calls, Threw)
      end
  end.

Definition removeAllTicks (l : TLine) : TLine * list Call * Status :=
  match removeAllTicks_loop (ticks l) (List.length (ticks l)) [] with
  | (calls, Returned) => (set_ticks l [], calls, Returned)
  | (calls, s) => (l, calls, s)
  end.

(** The loop over the labels of a tick that is removed. *)
Fixpoint remove_labels (k : Ticks) (n j : nat) : list Call :=
  match n with
  | O => []
  | S n' =>
      match nth j (labels k) None with
      | Some lb =>
          (if label_show lb then [remove (label_rendNode lb)] else [])
            ++ remove_labels k n' (S j)
      | None => remove_labels k n' (S j)
      end
  end.

(** [delete a[i]]. *)
Fixpoint delete_at (ts : list (option Ticks)) (i : nat)
    : list (option Ticks) :=
  match ts, i with
  | [], _ => []
  | _ :: r, O => None :: r
  | e :: r, S i' => e :: delete_at r i'
  end.

(** The loop of [removeTicks], with the counter at [t]. *)
Fixpoint removeTicks_loop (tick : Ticks) (ts : list (option Ticks))
    (t : nat) (calls : list Call) : list (option Ticks) * list Call :=
  match t with
  | O => (ts, calls)
  | S t' =>
      match nth t' ts None with
      | Some k =>
          if same_object k tick then
            removeTicks_loop tick (delete_at ts t') t'
              (calls ++ [remove (rendNode k)]
                 ++ remove_labels k (ticks_length k) 0)
          else removeTicks_loop tick ts t' calls
      | None => removeTicks_loop tick ts t' calls
      end
  end.

Definition removeTicks (l : TLine) (tick : Ticks) : TLine * list Call :=
  let dt :=
    match defaultTicks l with
    | Some d => if same_object d tick then None else Some d
    | None => None
    end in
  let '(ts, calls) :=
    removeTicks_loop tick (ticks l) (List.length (ticks l)) [] in
  (mkTLine (line l) (line_id l) ts dt (traced l) (numTraces l) (traces l),
   calls).

(** [cloneToBackground(addToTrace)]. *)
Definition cloneToBackground (l : TLine) : TLine * list Call :=
  let copy_id := (line_id l ++ "T" ++ decimal (numTraces l))%string in
  (mkTLine (line l) (line_id l) (ticks l) (defaultTicks l) (traced l)
     (numTraces l + 1) (copy_id :: traces l),
   [drawLine copy_id]).

(** The loop of [update] over the ticks: a hole is passed over. *)
Definition update_ticks (ts : list (option Ticks)) : list Call :=
  flat_map
    (fun e =>
       match e with
       | Some k => [calculateTicksCoordinates (ref k)]
       | None => []
       end)
    ts.

(** [update()], with [normalize] as in [Line.updateStdform]. *)
Definition update (normalize : StdForm num -> StdForm num) (l : TLine)
    : TLine * list Call :=
  let '(ln, calls) :=
    if Line.needsUpdate (line l)
    then (Line.updateStdform normalize (line l), update_ticks (ticks l))
    else (line l, []) in
  let l1 :=
    mkTLine ln (line_id l) (ticks l) (defaultTicks l) (traced l)
      (numTraces l) (traces l) in
  if traced l then
    let '(l2, calls2) := cloneToBackground l1 in (l2, calls ++ calls2)
  else (l1, calls).

(** The array without the entries that are the object [tick]. *)
Definition without (tick : Ticks) (ts : list (option Ticks))
    : list (option Ticks) :=
  map
    (fun e =>
       match e with
       | Some k => if same_object k tick then None else Some k
       | None => None
       end)
    ts.

(** The array has no hole. *)
Definition dense (ts : list (option Ticks)) : bool :=
  forallb (fun e => match e with Some _ => true | None => false end) ts.

(** The calls that remove the node of each entry of an array. *)
Definition node_removals (ts : list (option Ticks)) : list Call :=
  flat_map
    (fun e =>
       match e with
       | Some k => [remove (rendNode k)]
       | None => []
       end)
    ts.

(** The calls that remove the node of each entry that is the object
    [tick], and the nodes of those of its labels that are shown. *)
Definition tick_removals (tick : Ticks) (ts : list (option Ticks))
    : list Call :=
  flat_map
    (fun e =>
       match e with
       | Some k =>
           if same_object k tick
           then remove (rendNode k) :: remove_labels k (ticks_length k) 0
           else []
       | None => []
       end)
    ts.

End LineTicks.

(** A line without ticks, a ticks object without an id that has two
    ticks, the first with a label that is shown, and the line after the
    ticks have been added to it. *)
Definition bare_line : LineTicks.TLine :=
  LineTicks.mkTLine straight_line "L1" [] None false 0 [].

Definition two_ticks : LineTicks.Ticks :=
  LineTicks.mkTicks 1 None 10 2 [Some (LineTicks.mkLabel true 11); None].

Definition ticked_line : LineTicks.TLine :=
  fst (fst (LineTicks.addTicks bare_line two_ticks)).

(** Another ticks object without an id. *)
Definition more_ticks : LineTicks.Ticks :=
  LineTicks.mkTicks 2 None 20 1 [None].

(* ================================================================== *)
(** * More of a line: [hasPointOld], parametrization, anchor, axis ticks *)
(* ================================================================== *)

(** The arithmetic of the parametrization of a line: the vector
    arithmetic and the operations and constants that [X], [Y], [Z] and
    [JXG.createLine] use besides. *)
Record Field (T : Type) : Type := mkField {
  f_arith : Arith T;
  f_neg : T -> T;
  f_div : T -> T -> T;
  f_sqrt : T -> T;
  f_abs : T -> T;
  f_ltb : T -> T -> bool;
  f_geb : T -> T -> bool;
  f_one : T;
  f_PI : T;
  f_cos : T -> T;
  f_sin : T -> T
}.

(** Doubles; [Math.cos] and [Math.sin], whose values the language leaves
    to the implementation, are arguments. *)
Definition num_field (cos sin : num -> num) : Field num :=
  mkField num_arith neg div Math_sqrt Math_abs ltb geb (of_Z 1) Math_PI
    cos sin.

Definition R_field : Field R :=
  mkField R_arith Ropp Rdiv sqrt Rabs
    (fun x y => if Rlt_dec x y then true else false)
    (fun x y => if Rge_dec x y then true else false)
    1%R PI cos sin.

Module LineMore.

(** [hasPointOld(x, y)]. *)
Definition hasPointOld (eps : num) (l : Line.Line) (x y : num) : bool :=
  let p1Scr := Line.scrCoords (Line.coords (Line.point1 l)) in
  let p2Scr := Line.scrCoords (Line.coords (Line.point2 l)) in
  let coords0 := Line.Coords_by_screen (Line.board l) x y in
  let slope := Line.getSlope eps l in
  let rise := Line.getRise l in
  let r := Line.r l in
  let vp := Line.visProp l in
  if Line.straightFirst vp && Line.straightLast vp then
    match slope with
    | Line.SlopeNum sl =>
        Line.band_loop sl rise x y r (Z.to_nat (r - (- r))) (- r)%Z false
    | Line.INF => ltb (Math_abs (sub x (v1 p1Scr))) (of_Z r)
    end
  else
    match slope with
    | Line.SlopeNum sl =>
        let has :=
          Line.band_loop sl rise x y r (Z.to_nat (r - (- r))) (- r)%Z false in
        if has then
          let distP1P :=
            Line.distance_scr coords0 (Line.coords (Line.point1 l)) in
          let distP2P :=
            Line.distance_scr coords0 (Line.coords (Line.point2 l)) in
          let distP1P2 :=
            Line.distance_scr (Line.coords (Line.point1 l))
              (Line.coords (Line.point2 l)) in
          if gtb distP1P distP1P2 || gtb distP2P distP1P2 then
            if ltb distP1P distP2P then
              if negb (Line.straightFirst vp) then false else has
            else
              if negb (Line.straightLast vp) then false else has
          else has
        else has
    | Line.INF =>
        let has := ltb (Math_abs (sub x (v1 p1Scr))) (of_Z r) in
        if has then Line.clamp_vertical vp (v2 p1Scr) (v2 p2Scr) y
        else has
    end.

Section Parametric.

Variable T : Type.
Variable F : Field T.

(** [this.board.algebra.eps], defined outside the sources at hand. *)
Variable eps : T.

Let add := a_add (f_arith F).
Let mul := a_mul (f_arith F).

(** [X(phi)], [Y(phi)] and [Z(phi)] on the array [stdform]. *)
Definition X (s : Vec3 T) (phi : T) : T :=
  let phi := mul phi (f_PI F) in
  let a := v1 s in
  let b := v2 s in
  let c := v0 s in
  let A := add (mul a (f_cos F phi)) (mul b (f_sin F phi)) in
  let B := c in
  let sq := f_sqrt F (add (mul A A) (mul B B)) in
  let sinTheta := f_div F (f_neg F B) sq in
  let cosTheta := f_div F A sq in
  let cosTheta :=
    if f_ltb F (f_abs F cosTheta) eps then f_one F else cosTheta in
  f_div F (mul sinTheta (f_cos F phi)) cosTheta.

Definition Y (s : Vec3 T) (phi : T) : T :=
  let phi := mul phi (f_PI F) in
  let a := v1 s in
  let b := v2 s in
  let c := v0 s in
  let A := add (mul a (f_cos F phi)) (mul b (f_sin F phi)) in
  let B := c in
  let sq := f_sqrt F (add (mul A A) (mul B B)) in
  let sinTheta := f_div F (f_neg F B) sq in
  let cosTheta := f_div F A sq in
  let cosTheta :=
    if f_ltb F (f_abs F cosTheta) eps then f_one F else cosTheta in
  f_div F (mul sinTheta (f_sin F phi)) cosTheta.

Definition Z (s : Vec3 T) (phi : T) : T :=
  let phi := mul phi (f_PI F) in
  let a := v1 s in
  let b := v2 s in
  let c := v0 s in
  let A := add (mul a (f_cos F phi)) (mul b (f_sin F phi)) in
  let B := c in
  let sq := f_sqrt F (add (mul A A) (mul B B)) in
  let cosTheta := f_div F A sq in
  if f_geb F (f_abs F cosTheta) eps then f_one F else a_zero (f_arith F).

Definition minX : T := a_zero (f_arith F).
Definition maxX : T := f_one F.

(** The coordinates that [JXG.createLine] gives the two invisible points
    of a free line with the coefficients [c]. *)
Definition createLine_point1 (c : Vec3 T) : Vec3 T :=
  mkVec3 (a_zero (f_arith F)) (v2 c) (f_neg F (v1 c)).

Definition createLine_point2 (c : Vec3 T) : Vec3 T :=
  mkVec3
    (add (mul (v2 c) (v2 c)) (mul (v1 c) (v1 c)))
    (add (mul (f_neg F (v1 c)) (v0 c)) (v2 c))
    (a_sub (f_arith F) (mul (f_neg F (v2 c)) (v0 c)) (v1 c)).

End Parametric.

(** The loop [while (4 * dist > len) { dist *= 0.5; }] of
    [JXG.createAxis], for at most [fuel] iterations. *)
Fixpoint halve_loop (fuel : nat) (len dist : num) : option num :=
  if gtb (JSNum.mul (of_Z 4) dist) len then
    match fuel with
    | O => None
    | S fuel' => halve_loop fuel' len (JSNum.mul dist (ratio 1 2))
    end
  else Some dist.

(** The distance [dist] of the default ticks that [JXG.createAxis]
    derives from the length [len] of the visible part of the axis when the
    attribute [ticksDistance] is not given. *)
Definition createAxis_dist (fuel : nat) (len : num) : option num :=
  let len := JSNum.mul len (ratio 1 4) in
  if geb len (of_Z 1) then
    Some (JSNum.mul (Math_round (JSNum.mul len (ratio 1 5))) (of_Z 5))
  else halve_loop fuel len (ratio 1 4).

(** The value of [dist] after [n] more passes through the loop. *)
Fixpoint halvings (n : nat) (dist : num) : num :=
  match n with
  | O => dist
  | S n' => halvings n' (JSNum.mul dist (ratio 1 2))
  end.

Section TextAnchor.

Variable T : Type.
Variable A : Arith T.

(** The literal [0.5]. *)
Variable half : T.

(** [getTextAnchor()]: the user coordinates given to [JXG.Coords], from
    the user coordinates [(X(), Y())] of the two points. *)
Definition getTextAnchor (p1 p2 : T * T) : T * T :=
  (a_mul A half (a_sub A (fst p2) (fst p1)),
   a_mul A half (a_sub A (snd p2) (snd p1))).

End TextAnchor.

End LineMore.

(* ================================================================== *)
(** * A text element: [hasPoint] and [update] *)
(* ================================================================== *)

Module TextMore.

Local Open Scope string_scope.
Local Open Scope list_scope.

(** What [hasPoint], [update] and [checkForSizeUpdate] read of a text
    element.  [size] is the array [[width, height]]; [plaintextOld] is
    [None] while it is [null]; [is_infobox] says that the board has an
    infobox and that this element is it; a transformation is known by a
    number. *)
Record TextEl : Type := mkTextEl {
  scrCoords : Vec3 num;
  size0 : num;
  size1 : num;
  anchorx : string;
  anchory : string;
  dragarea : string;
  precision_hasPoint : num;
  transformations : list nat;
  needsUpdate : bool;
  frozen : bool;
  display : string;
  plaintext : string;
  plaintextOld : option string;
  needsSizeUpdate : bool;
  is_infobox : bool
}.

(** [hasPoint(x, y)].  [untransform] is the product of the inverse of the
    joined transformations with [[1, x, y]], computed by functions that
    are not part of the sources at hand. *)
Definition hasPoint (untransform : list nat -> num -> num -> num * num)
    (t : TextEl) (x y : num) : bool :=
  let r := precision_hasPoint t in
  let '(x, y) :=
    if (0 <? List.length (transformations t))%nat
    then untransform (transformations t) x y
    else (x, y) in
  let lft :=
    if anchorx t =? "right" then sub (v1 (scrCoords t)) (size0 t)
    else if anchorx t =? "middle"
         then sub (v1 (scrCoords t)) (mul (ratio 1 2) (size0 t))
         else v1 (scrCoords t) in
  let rt := add lft (size0 t) in
  let bot :=
    if anchory t =? "top" then add (v2 (scrCoords t)) (size1 t)
    else if anchory t =? "middle"
         then add (v2 (scrCoords t)) (mul (ratio 1 2) (size1 t))
         else v2 (scrCoords t) in
  let top := sub bot (size1 t) in
  if dragarea t =? "all" then
    geb x (sub lft r) && ltb x (add rt r)
    && geb y (sub top r) && leb y (add bot r)
  else
    (geb y (sub top r) && leb y (add bot r))
    && ((geb x (sub lft r) && leb x (add lft (mul (of_Z 2) r)))
        || (geb x (sub rt (mul (of_Z 2) r)) && leb x (add rt r))).

(** The calls that [update] makes on the element itself and on its
    transformations. *)
Inductive Call : Type :=
  | updateCoords
  | updateSize
  | transformation_update (i : nat).

Definition set_text (t : TextEl) (s : string) (old : option string)
    (nsu : bool) : TextEl :=
  mkTextEl (scrCoords t) (size0 t) (size1 t) (anchorx t) (anchory t)
    (dragarea t) (precision_hasPoint t) (transformations t) (needsUpdate t)
    (frozen t) (display t) s old nsu (is_infobox t).

(** [checkForSizeUpdate()]. *)
Definition checkForSizeUpdate (t : TextEl) : TextEl :=
  if is_infobox t then set_text t (plaintext t) (plaintextOld t) false
  else
    let changed :=
      match plaintextOld t with
      | Some s => negb (s =? plaintext t)
      | None => true
      end in
    if changed then set_text t (plaintext t) (Some (plaintext t)) true
    else set_text t (plaintext t) (plaintextOld t) false.

(** [update()].  [text] is what [updateText] assigns to [plaintext] in
    this call and [utf8_decode] the function of that name, whose regular
    expression is left out. *)
Definition update (utf8_decode : string -> string) (text : string)
    (t : TextEl) : TextEl * list Call :=
  if negb (needsUpdate t) then (t, [])
  else
    let calls1 := if negb (frozen t) then [updateCoords] else [] in
    let t1 := set_text t text (plaintextOld t) (needsSizeUpdate t) in
    let t2 :=
      if display t1 =? "internal"
      then set_text t1 (utf8_decode (plaintext t1)) (plaintextOld t1)
             (needsSizeUpdate t1)
      else t1 in
    let t3 := checkForSizeUpdate t2 in
    let calls2 := if needsSizeUpdate t3 then [updateSize] else [] in
    (t3, calls1 ++ calls2 ++ map transformation_update (transformations t3)).

End TextMore.

(** A text of 40 by 10 pixels with its lower left corner at the screen
    point (100, 100), that can be dragged everywhere. *)
Definition label_text : TextMore.TextEl :=
  TextMore.mkTextEl (mkVec3 (of_Z 1) (of_Z 100) (of_Z 100)) (of_Z 40)
    (of_Z 10) "left" "bottom" "all" (of_Z 5) [] true false "html" "abc" None
    false false.

(* ================================================================== *)
(** * Grids: closed paths, faces and degenerate steps *)
(* ================================================================== *)

(** An array of coordinates is empty or ends with the [NaN] that closes
    the last element drawn. *)
Definition closed_path (a : list num) : Prop :=
  a = [] \/ last a (of_Z 0) = NaN.

(** A step with which no grid can be drawn: zero, or [NaN]. *)
Definition no_step (s : num) : bool :=
  match s with
  | S754_zero _ | S754_nan => true
  | _ => false
  end.

(** The grid with another attribute [face]. *)
Definition set_face (g : Grid.GridEl) (fc : string) : Grid.GridEl :=
  let p := Grid.visProp g in
  Grid.mkGridEl
    (Grid.mkVisProp (Grid.majorstep p) (Grid.gridx p) (Grid.gridy p)
       (Grid.sizex p) (Grid.sizey p) fc (Grid.drawzero0 p)
       (Grid.drawzerox p) (Grid.drawzeroy p) (Grid.includeboundaries p)
       (Grid.forcesquare p) (Grid.minorelements p) (Grid.polygonvertices p)
       (Grid.margin p) (Grid.linecap p))
    (Grid.dataX g) (Grid.dataY g) (Grid.bezierDegree g).

(** The state in which the attribute [face] of the major grid, or of the
    minor grid, is [fc]. *)
Definition with_major_face (st : Grid.State) (fc : string) : Grid.State :=
  Grid.mkState (Grid.board st) (Grid.parentAxes0 st) (Grid.parentAxes1 st)
    (set_face (Grid.majorGrid st) fc) (Grid.minorGrid st)
    (Grid.majorStep st) (Grid.majorRadiusX st) (Grid.majorRadiusY st).

Definition with_minor_face (st : Grid.State) (fc : string) : Grid.State :=
  Grid.mkState (Grid.board st) (Grid.parentAxes0 st) (Grid.parentAxes1 st)
    (Grid.majorGrid st) (set_face (Grid.minorGrid st) fc)
    (Grid.majorStep st) (Grid.majorRadiusX st) (Grid.majorRadiusY st).

(** Two grids with the same data arrays and the same two attributes that
    [createDataArrayForFace] reads. *)
Definition same_shape (g g' : Grid.GridEl) : Prop :=
  Grid.polygonvertices (Grid.visProp g)
  = Grid.polygonvertices (Grid.visProp g')
  /\ Grid.margin (Grid.visProp g) = Grid.margin (Grid.visProp g')
  /\ Grid.dataX g = Grid.dataX g' /\ Grid.dataY g = Grid.dataY g'.

(** The bounding box [[-5, 5, Infinity, -5]] at 50 pixels to the unit,
    with a major step of 1. *)
Definition unbounded_grid : Grid.State :=
  new_grid (Grid.mkBBox (of_Z (-5)) (of_Z 5) Infinity (of_Z (-5)))
    (of_Z 50)
    (point_grid (Grid.Scalar (Grid.VNum (of_Z 1))) Grid.FS_other
       true true).

(** The parents of a grid. *)

Module GridParents.

Local Open Scope string_scope.
Local Open Scope list_scope.

(** A parent of a grid: its [elType] and what the grid reads of it when
    it is an axis. *)
Record Parent : Type := mkParent {
  elType : string;
  as_axis : Grid.Axis
}.

Definition is_axis (p : Parent) : bool := elType p =? "axis".

(** The message of the error that [JXG.createGrid] throws. *)
Definition parent_error (first : Parent) : string :=
  "JSXGraph: Can't create 'grid' with parent type '" ++ elType first
  ++ "'. Possible parent types: [axis,axis]".

(** What [board.defaultAxes.x] or [.y] adds to an entry of [parentAxes]
    that does not exist. *)
Definition or_default (given dflt : option Parent) : option Parent :=
  match given with
  | Some p => Some p
  | None => dflt
  end.

(** The start of [JXG.createGrid]: the test of the parents, then the
    default axes of the board for the entries 0 and 1 that do not exist.
    The result is the message of the error thrown, or the entries 0 and 1
    of the array [parentAxes], which is the array [parents] itself.
    [defaultAxes] is [None] when [board.defaultAxes] does not exist; its
    axes [x] and [y] are taken to exist when it does.  The test is false
    on an empty array. *)
Definition createGrid_parents (parents : list Parent)
    (defaultAxes : option (Parent * Parent))
    : string + (option Parent * option Parent) :=
  let refused :=
    (2 <? List.length parents)%nat
    || match nth_error parents 0 with
       | Some p => negb (is_axis p)
       | None => false
       end
    || match nth_error parents 1 with
       | Some p => negb (is_axis p)
       | None => false
       end in
  match refused, parents with
  | true, first :: _ => inl (parent_error first)
  | _, _ =>
      inr (or_default (nth_error parents 0) (option_map fst defaultAxes),
           or_default (nth_error parents 1) (option_map snd defaultAxes))
  end.

End GridParents.

(* ================================================================== *)
(** * Facts about JavaScript numbers *)
(* ================================================================== *)

Section NumFacts.

Local Open Scope Z_scope.

Lemma shr_1_nonneg (mrs : shr_record) :
  0 <= shr_m mrs -> 0 <= shr_m (shr_1 mrs).
Proof.
  destruct mrs as [m r s]; simpl.
  destruct m as [|p|p]; simpl; try lia; destruct p; simpl; lia.
Qed.

Lemma iter_pos_invariant (A : Type) (P : A -> Prop) (f : A -> A) :
  (forall a, P a -> P (f a)) -> forall p a, P a -> P (SpecFloat.iter_pos f p a).
Proof.
  intros Hf p; induction p as [p IH|p IH|]; intros a Ha; simpl; auto.
Qed.

Lemma shr_fexp_nonneg (m e : Z) (l : location) :
  0 <= m -> 0 <= shr_m (fst (shr_fexp prec emax m e l)).
Proof.
  intros Hm. unfold shr_fexp, shr.
  assert (H0 : 0 <= shr_m (shr_record_of_loc m l))
    by (destruct l as [|[| |]]; simpl; exact Hm).
  destruct (fexp prec emax (Zdigits2 m + e) - e); simpl; auto.
  apply iter_pos_invariant with (P := fun mrs => 0 <= shr_m mrs);
    auto using shr_1_nonneg.
Qed.

Lemma round_nearest_even_nonneg (m : Z) (l : location) :
  0 <= m -> 0 <= round_nearest_even m l.
Proof.
  intros Hm; destruct l as [|[| |]]; simpl; try lia.
  destruct (Z.even m); lia.
Qed.

(** Rounding a non-negative mantissa never gives [NaN]. *)
Lemma binary_round_aux_not_nan (s : bool) (m e : Z) (l : location) :
  0 <= m -> isNaN (binary_round_aux prec emax s m e l) = false.
Proof.
  intros Hm. unfold binary_round_aux.
  pose proof (@shr_fexp_nonneg m e l Hm) as H1.
  destruct (shr_fexp prec emax m e l) as [mrs' e']; simpl in H1.
  pose proof (@round_nearest_even_nonneg _ (loc_of_shr_record mrs') H1) as H2.
  pose proof (@shr_fexp_nonneg _ e' loc_Exact H2) as H3.
  destruct (shr_fexp prec emax _ e' loc_Exact) as [mrs'' e'']; simpl in H3.
  destruct (shr_m mrs''); try lia; simpl; auto.
  match goal with |- context [if ?c then _ else _] => destruct c end;
    reflexivity.
Qed.

Lemma binary_normalize_not_nan (m e : Z) (sz : bool) :
  isNaN (binary_normalize prec emax m e sz) = false.
Proof.
  destruct m; simpl; auto; unfold binary_round;
    destruct (shl_align _ _ _); apply binary_round_aux_not_nan; lia.
Qed.

(** Adding a finite number to a number never gives [NaN]. *)
Lemma add_finite_not_nan (a b : num) :
  isNaN a = false -> isFinite b = true -> isNaN (add a b) = false.
Proof.
  destruct a as [sa|sa| |sa ma ea]; destruct b as [sb|sb| |sb mb eb];
    simpl; try discriminate; intros _ _; auto.
  - destruct sa, sb; reflexivity.
  - apply binary_normalize_not_nan.
Qed.

Lemma isFinite_not_nan (a : num) : isFinite a = true -> isNaN a = false.
Proof. destruct a; simpl; intros H; try discriminate H; reflexivity. Qed.

Lemma add_nan_l (a : num) : add NaN a = NaN.
Proof. reflexivity. Qed.

Lemma add_nan_r (a : num) : add a NaN = NaN.
Proof. destruct a; reflexivity. Qed.

Lemma isNaN_true (a : num) : isNaN a = true -> a = NaN.
Proof. destruct a; simpl; intros H; try discriminate H; reflexivity. Qed.

(** The order of the numbers: [SFcompare] is antisymmetric, total and
    reflexive on the numbers that are not [NaN], and transitive. *)

Ltac compare_cases :=
  repeat match goal with
  | H : context [Z.compare ?a ?b] |- _ =>
      destruct (Z.compare_spec a b); try discriminate H
  | |- context [Z.compare ?a ?b] => destruct (Z.compare_spec a b)
  | H : context [Pos.compare_cont Eq ?a ?b] |- _ =>
      change (Pos.compare_cont Eq a b) with (Pos.compare a b) in H;
      destruct (Pos.compare_spec a b); try discriminate H
  | |- context [Pos.compare_cont Eq ?a ?b] =>
      change (Pos.compare_cont Eq a b) with (Pos.compare a b);
      destruct (Pos.compare_spec a b)
  end; subst; try reflexivity; try lia.

Lemma SFcompare_antisym (a b : num) :
  SFcompare a b = Some Gt -> SFcompare b a = Some Lt.
Proof.
  destruct a as [sa|sa| |sa ma ea], b as [sb|sb| |sb mb eb];
    try destruct sa; try destruct sb; simpl; intros H;
    try discriminate H; try reflexivity; f_equal; injection H as H;
    compare_cases.
Qed.

Lemma SFcompare_total (a b : num) :
  isNaN a = false -> isNaN b = false ->
  SFcompare a b = Some Lt \/ SFcompare a b = Some Eq
  \/ SFcompare a b = Some Gt.
Proof.
  destruct a as [sa|sa| |sa ma ea], b as [sb|sb| |sb mb eb];
    try destruct sa; try destruct sb; simpl; intros Ha Hb;
    try discriminate; auto;
    match goal with |- context [Some ?c] => destruct c end; auto.
Qed.

Lemma SFcompare_refl (a : num) : isNaN a = false -> SFcompare a a = Some Eq.
Proof.
  destruct a as [sa|sa| |sa ma ea]; try destruct sa; simpl; intros H;
    try discriminate H; try reflexivity;
    rewrite Z.compare_refl;
    change (Pos.compare_cont Eq ma ma) with (Pos.compare ma ma);
    rewrite Pos.compare_refl; reflexivity.
Qed.

Lemma SFcompare_trans (a b c : num) (x y : comparison) :
  SFcompare a b = Some x -> SFcompare b c = Some y ->
  x <> Gt -> y <> Gt -> (x = Lt \/ y = Lt) ->
  SFcompare a c = Some Lt.
Proof.
  destruct a as [sa|sa| |sa ma ea], b as [sb|sb| |sb mb eb],
    c as [sc|sc| |sc mc ec];
    try destruct sa; try destruct sb; try destruct sc; simpl;
    intros H1 H2 Hx Hy Hxy;
    try discriminate H1; try discriminate H2;
    injection H1 as H1; injection H2 as H2; subst x y;
    try reflexivity; try (exfalso; tauto);
    try (exfalso; intuition congruence);
    f_equal.
  all: compare_cases.
  all: simpl in *; try reflexivity; exfalso; intuition congruence.
Qed.

Lemma ltb_compare (a b : num) : ltb a b = true <-> SFcompare a b = Some Lt.
Proof.
  unfold ltb, SFltb. destruct (SFcompare a b) as [[| |]|];
    split; intros H; try discriminate H; reflexivity.
Qed.

Lemma leb_compare (a b : num) :
  leb a b = true <-> SFcompare a b = Some Lt \/ SFcompare a b = Some Eq.
Proof.
  unfold leb, SFleb. destruct (SFcompare a b) as [[| |]|];
    split; intros H; try discriminate H; auto;
    destruct H as [H|H]; discriminate H.
Qed.

Lemma compare_some_not_nan (a b : num) (c : comparison) :
  SFcompare a b = Some c -> isNaN a = false /\ isNaN b = false.
Proof. destruct a, b; simpl; intros H; try discriminate H; auto. Qed.

Lemma leb_false_ltb (a b : num) :
  isNaN a = false -> isNaN b = false -> leb a b = false -> ltb b a = true.
Proof.
  intros Ha Hb H. apply ltb_compare, SFcompare_antisym.
  destruct (SFcompare_total a b Ha Hb) as [E|[E|E]]; auto;
    assert (T : leb a b = true) by (apply leb_compare; auto); congruence.
Qed.

Lemma ltb_leb_false (a b : num) : ltb a b = true -> leb b a = false.
Proof.
  intros H. apply ltb_compare in H.
  destruct (leb b a) eqn:E; auto. apply leb_compare in E.
  destruct (compare_some_not_nan _ _ H) as [Ha _].
  pose proof (SFcompare_refl a Ha) as R.
  assert (T : SFcompare a a = Some Lt).
  { destruct E as [E|E];
      apply (@SFcompare_trans a b a _ _ H E);
      try discriminate; left; reflexivity. }
  congruence.
Qed.

Lemma leb_ltb_trans (a b c : num) :
  leb a b = true -> ltb b c = true -> ltb a c = true.
Proof.
  intros H1 H2. apply leb_compare in H1. apply ltb_compare in H2.
  apply ltb_compare.
  destruct H1 as [H1|H1];
    apply (@SFcompare_trans a b c _ _ H1 H2);
    try discriminate; right; reflexivity.
Qed.

Lemma ltb_trans (a b c : num) :
  ltb a b = true -> ltb b c = true -> ltb a c = true.
Proof.
  intros H1 H2. apply ltb_compare in H1. apply ltb_compare in H2.
  apply ltb_compare.
  apply (@SFcompare_trans a b c _ _ H1 H2);
    try discriminate; left; reflexivity.
Qed.

Lemma ltb_asym (a b : num) : ltb a b = true -> ltb b a = false.
Proof.
  intros H. destruct (ltb b a) eqn:E; auto.
  pose proof (ltb_trans _ _ _ H E) as T. apply ltb_compare in T.
  apply ltb_compare in H. destruct (compare_some_not_nan _ _ H) as [Ha _].
  rewrite (SFcompare_refl a Ha) in T. discriminate T.
Qed.

End NumFacts.

(* ================================================================== *)
(** * Properties of lines *)
(* ================================================================== *)

(** ** [updateRenderer] and the flag [needsUpdate] *)

(** C1, as the code has it.  [updateRenderer] of a line clears
    [needsUpdate] when the line is visible and leaves the flag as it was
    when the line is not visible; [updateRenderer] of a text element
    always clears it. *)
Theorem updateRenderer_needsUpdate :
  (forall l : Line.Line,
      Line.needsUpdate (fst (Line.updateRenderer l))
      = Line.needsUpdate l && negb (Line.visible (Line.visProp l)))
  /\ (forall t : Text.Text,
         Text.needsUpdate (fst (Text.updateRenderer t)) = false).
Proof.
  split.
  - intros l. unfold Line.updateRenderer.
    destruct (Line.needsUpdate l) eqn:Hn, (Line.visible (Line.visProp l));
      simpl; rewrite ?Hn; reflexivity.
  - intros t. unfold Text.updateRenderer.
    destruct (Text.needsUpdate t) eqn:Hn; simpl; auto.
Qed.

(** C1 as stated fails: a line that is not visible keeps [needsUpdate]
    set across [updateRenderer]. *)
Lemma updateRenderer_hidden_line_stays_dirty :
  Line.visible (Line.visProp hidden_line) = false
  /\ Line.needsUpdate (fst (Line.updateRenderer hidden_line)) = true.
Proof. split; reflexivity. Qed.

(** ** [updateRenderer] and the flag [isReal] *)

Lemma coordSum_nan (l : Line.Line) :
  Line.coords_have_NaN l = true -> isNaN (Line.coordSum l) = true.
Proof.
  unfold Line.coords_have_NaN, Line.coordSum. intros H.
  repeat (apply orb_prop in H; destruct H as [H|H]);
    apply isNaN_true in H; rewrite H;
    rewrite ?add_nan_l, ?add_nan_r; reflexivity.
Qed.

Lemma coordSum_finite (l : Line.Line) :
  Line.coords_finite l = true -> isNaN (Line.coordSum l) = false.
Proof.
  unfold Line.coords_finite, Line.coordSum. intros H.
  apply andb_prop in H; destruct H as [H H4].
  apply andb_prop in H; destruct H as [H H3].
  apply andb_prop in H; destruct H as [H1 H2].
  auto using add_finite_not_nan, isFinite_not_nan.
Qed.

(** C2, as the code has it.  A call of [updateRenderer] on a line that is
    due for an update and visible sets [isReal] to true exactly when the
    sum of the four user coordinates of the two points is not [NaN]; any
    other call leaves [isReal] as it was and calls nothing.  The sum is
    [NaN] when one of the coordinates is, and is not when all four are
    finite.  A call that leaves [isReal] false does not call [show], and
    a call calls [show], once, exactly when it turns [isReal] from false
    to true. *)
Theorem updateRenderer_isReal (l : Line.Line) :
  let l' := fst (Line.updateRenderer l) in
  let calls := snd (Line.updateRenderer l) in
  let due := Line.needsUpdate l && Line.visible (Line.visProp l) in
  (due = true -> Line.isReal l' = negb (isNaN (Line.coordSum l)))
  /\ (due = false -> Line.isReal l' = Line.isReal l /\ calls = [])
  /\ (Line.coords_have_NaN l = true -> isNaN (Line.coordSum l) = true)
  /\ (Line.coords_finite l = true -> isNaN (Line.coordSum l) = false)
  /\ (Line.isReal l' = false -> ~ In show calls)
  /\ (In show calls
      <-> due = true /\ Line.isReal l = false /\ Line.isReal l' = true)
  /\ (count_occ RendererCall_eq_dec calls show <= 1)%nat.
Proof.
  cbv zeta. unfold Line.updateRenderer.
  pose proof (@coordSum_nan l) as Hnan.
  pose proof (@coordSum_finite l) as Hfin.
  destruct (Line.needsUpdate l && Line.visible (Line.visProp l));
    destruct (isNaN (Line.coordSum l)); destruct (Line.isReal l) eqn:Hr;
    simpl; rewrite ?Hr; intuition (try congruence; try lia).
Qed.

Lemma updateRenderer_isReal_witness :
  let l := line_to_NaN true in
  Line.needsUpdate l && Line.visible (Line.visProp l) = true
  /\ Line.coords_have_NaN l = true
  /\ Line.isReal (fst (Line.updateRenderer l))
     = negb (isNaN (Line.coordSum l))
  /\ isNaN (Line.coordSum l) = true.
Proof.
  intros l.
  assert (D : Line.needsUpdate l && Line.visible (Line.visProp l) = true)
    by reflexivity.
  assert (N : Line.coords_have_NaN l = true) by reflexivity.
  destruct (updateRenderer_isReal l) as [H1 [_ [H3 _]]].
  split; [exact D | split; [exact N | split; [exact (H1 D) | exact (H3 N)]]].
Defined.

(** C2 as stated fails: with the abscissa [Infinity] for the first point
    the coordinates are not all finite, and [updateRenderer] sets [isReal]
    to true. *)
Lemma updateRenderer_real_at_infinity :
  Line.coords_finite line_to_infinity = false
  /\ Line.needsUpdate line_to_infinity
     && Line.visible (Line.visProp line_to_infinity) = true
  /\ Line.isReal (fst (Line.updateRenderer line_to_infinity)) = true.
Proof.
  cbv zeta. split; [vm_compute; reflexivity|].
  split; [vm_compute; reflexivity|].
  vm_compute; reflexivity.
Qed.

(** A line with a [NaN] coordinate is hidden once; when its coordinates
    are numbers again it is shown once, and then only updated. *)
Example updateRenderer_hide_then_show :
  snd (Line.updateRenderer (line_to_NaN true)) = [hide]
  /\ snd (Line.updateRenderer (line_to_NaN false)) = []
  /\ snd (Line.updateRenderer
            (line50 (of_Z 0) (of_Z 0) (of_Z 1) (of_Z 0)
               true true true true false))
     = [show; updateLine]
  /\ snd (Line.updateRenderer straight_line) = [updateLine].
Proof.
  split; [vm_compute; reflexivity|].
  split; [vm_compute; reflexivity|].
  split; vm_compute; reflexivity.
Qed.

(** ** [hasPoint] on a line drawn beyond both points *)

(** C3.  On a line with [straightFirst] and [straightLast] both true,
    [hasPoint(x, y)] is true exactly when the absolute value of the inner
    product of [c] with [[1, x, y]] is below 0.5, whatever the tolerance
    radius [r] of the line is.  Here [c] is computed from the standard
    form, the origin, the units and the zoom factors as in lines 179 to
    184, and it is the standard form in screen coordinates: read over the
    real numbers, with units and zoom factors that are not zero, the value
    of [c] at the screen position of a point is the value of the standard
    form at its user coordinates, so that [c] vanishes exactly on the
    screen positions of the points of the line.  The screen position is
    the one that the board gives a point in user coordinates. *)
Theorem hasPoint_straight (eps : num) (l : Line.Line) (x y : num) :
  Line.straightFirst (Line.visProp l) = true ->
  Line.straightLast (Line.visProp l) = true ->
  let b := Line.board l in
  let o := Line.scrCoords (Line.origin b) in
  let c :=
    screen_stdform_of num_arith div neg (sf_coef (Line.stdform l)) o
      (Line.unitX b) (Line.unitY b) (Line.zoomX b) (Line.zoomY b) in
  (Line.hasPoint eps l x y = true
   <-> ltb (Math_abs (innerProduct num_arith c (mkVec3 (of_Z 1) x y)))
           (ratio 1 2) = true)
  /\ (forall r' : Z,
         Line.hasPoint eps (Line.set_r l r') x y = Line.hasPoint eps l x y)
  /\ (forall (s p : Vec3 R) (ux uy zx zy xu yu : R),
         (ux * zx <> 0)%R -> (uy * zy <> 0)%R ->
         let q := screen_of_user R_arith p ux uy zx zy xu yu in
         innerProduct R_arith
           (screen_stdform_of R_arith Rdiv Ropp s p ux uy zx zy)
           (mkVec3 1%R (fst q) (snd q))
         = innerProduct R_arith s (mkVec3 1%R xu yu))
  /\ (forall xu yu : num,
         let q :=
           screen_of_user num_arith o (Line.unitX b) (Line.unitY b)
             (Line.zoomX b) (Line.zoomY b) xu yu in
         Line.scrCoords (Line.Coords_by_user b xu yu)
         = mkVec3 (of_Z 1) (fst q) (snd q)).
Proof.
  intros H1 H2 b o c. split; [|split; [|split]].
  - unfold Line.hasPoint. rewrite H1, H2. cbn [andb].
    unfold Line.screen_stdform, Line.Coords_by_screen.
    cbn [Line.scrCoords]. fold b. fold o. fold c.
    destruct (ltb _ _); tauto.
  - intros r'. unfold Line.hasPoint, Line.set_r.
    cbn [Line.visProp Line.board Line.stdform]. rewrite H1, H2.
    reflexivity.
  - intros s p ux uy zx zy xu yu Hx Hy q. subst q.
    unfold innerProduct, screen_stdform_of, screen_of_user.
    cbn [a_add a_sub a_mul a_zero R_arith v0 v1 v2 fst snd].
    field. repeat split.
    all: intro E;
      first [apply Hy; rewrite E; ring | apply Hx; rewrite E; ring].
  - intros xu yu q. reflexivity.
Qed.

Lemma hasPoint_straight_witness :
  let l := straight_line in
  let b := Line.board l in
  let o := Line.scrCoords (Line.origin b) in
  let c :=
    screen_stdform_of num_arith div neg (sf_coef (Line.stdform l)) o
      (Line.unitX b) (Line.unitY b) (Line.zoomX b) (Line.zoomY b) in
  Line.straightFirst (Line.visProp l) = true
  /\ Line.straightLast (Line.visProp l) = true
  /\ c = mkVec3 (of_Z 5) (of_Z 0) (neg (ratio 1 50))
  /\ Line.hasPoint eps6 l (of_Z 300) (of_Z 250) = true
  /\ (Line.hasPoint eps6 l (of_Z 300) (of_Z 250) = true
      <-> ltb (Math_abs
                 (innerProduct num_arith c
                    (mkVec3 (of_Z 1) (of_Z 300) (of_Z 250))))
              (ratio 1 2) = true).
Proof.
  intros l b o c.
  split; [reflexivity | split; [reflexivity |]].
  split; [vm_compute; reflexivity |].
  split; [vm_compute; reflexivity |].
  exact (proj1 (@hasPoint_straight eps6 straight_line (of_Z 300) (of_Z 250)
                  eq_refl eq_refl)).
Defined.

(** ** The standard form *)

Section StandardForm.

Local Open Scope R_scope.

(** What is assumed of [normalize]: it multiplies the three coefficients
    of a line whose [a] and [b] are not both zero by a number that is not
    zero. *)
Variable normalize : StdForm R -> StdForm R.
Hypothesis normalize_scales :
  forall s : StdForm R,
    v1 (sf_coef s) <> 0 \/ v2 (sf_coef s) <> 0 ->
    exists k : R,
      k <> 0 /\ sf_coef (normalize s) = scale_coef R_arith k (sf_coef s).

(** The cross product of two points that are different and not both at
    infinity is a line that is not the line at infinity. *)
Lemma crossProduct_proper (p1 p2 : Vec3 R) :
  v0 p1 <> 0 \/ v0 p2 <> 0 ->
  ~ proportional p1 p2 ->
  v1 (crossProduct R_arith p1 p2) <> 0
  \/ v2 (crossProduct R_arith p1 p2) <> 0.
Proof.
  intros Hz Hd. destruct p1 as [z1 x1 y1], p2 as [z2 x2 y2].
  unfold crossProduct. cbn [v0 v1 v2 a_sub a_mul R_arith] in *.
  destruct (Req_dec (y1 * z2 - z1 * y2) 0) as [Ea|Ea]; [|left; exact Ea].
  destruct (Req_dec (z1 * x2 - x1 * z2) 0) as [Eb|Eb]; [|right; exact Eb].
  exfalso. apply Hd. destruct Hz as [Hz|Hz].
  - exists (z2 / z1). left. unfold scale_coef.
    cbn [v0 v1 v2 a_mul R_arith]. f_equal; field_simplify_eq; try lra.
  - exists (z1 / z2). right. unfold scale_coef.
    cbn [v0 v1 v2 a_mul R_arith]. f_equal; field_simplify_eq; try lra.
Qed.


End StandardForm.

Lemma normalize_unit_scales (s : StdForm R) :
  (v1 (sf_coef s) <> 0 \/ v2 (sf_coef s) <> 0)%R ->
  exists k : R,
    k <> 0%R
    /\ sf_coef (normalize_unit s) = scale_coef R_arith k (sf_coef s).
Proof.
  intros H. unfold normalize_unit. simpl.
  eexists; split; [|reflexivity].
  apply Rinv_neq_0_compat.
  assert (P : (0 < v1 (sf_coef s) * v1 (sf_coef s)
                   + v2 (sf_coef s) * v2 (sf_coef s))%R)
    by (destruct H; nra).
  pose proof (sqrt_lt_R0 _ P). lra.
Qed.

(** Two points with [z = 1] that differ in [x] or in [y] are different
    points. *)
Lemma affine_not_proportional (x1 y1 x2 y2 : R) :
  (x1 <> x2 \/ y1 <> y2)%R ->
  ~ proportional (mkVec3 1 x1 y1)%R (mkVec3 1 x2 y2)%R.
Proof.
  intros H [k [E|E]]; unfold scale_coef in E;
    cbn [v0 v1 v2 a_mul R_arith] in E; injection E as E0 E1 E2;
    assert (k = 1%R) by lra; subst k; destruct H as [H|H]; apply H; lra.
Qed.


(** On doubles, for the points (1, 2) and (3, 5) and without
    normalization, both sums evaluate to zero. *)
Example updateStdform_on_doubles :
  let p1 := mkVec3 (of_Z 1) (of_Z 1) (of_Z 2) in
  let p2 := mkVec3 (of_Z 1) (of_Z 3) (of_Z 5) in
  let s := sf_coef (updateStdform_of num_arith (fun t => t) p1 p2) in
  add (add (mul (v1 s) (of_Z 1)) (mul (v2 s) (of_Z 2))) (v0 s) = of_Z 0
  /\ add (add (mul (v1 s) (of_Z 3)) (mul (v2 s) (of_Z 5))) (v0 s) = of_Z 0.
Proof. split; vm_compute; reflexivity. Qed.

Section Overflow.

Lemma isFinite_add_l (u w : num) :
  isFinite u = false -> isFinite (add u w) = false.
Proof.
  destruct u as [s| s | |s m e]; intros H; try discriminate H;
    destruct w as [s'| s' | |s' m' e']; try reflexivity;
    destruct s, s'; reflexivity.
Qed.

Lemma isFinite_add_r (u w : num) :
  isFinite u = false -> isFinite (add w u) = false.
Proof.
  destruct u as [s| s | |s m e]; intros H; try discriminate H;
    destruct w as [s'| s' | |s' m' e']; try reflexivity;
    destruct s, s'; reflexivity.
Qed.

Lemma isFinite_mul_infinity (k : num) :
  isFinite (mul (mul k Infinity) (of_Z 1)) = false.
Proof.
  destruct k as [s| s | |s m e]; try destruct s; reflexivity.
Qed.

End Overflow.


(** ** [getSlope] *)

(** C5, as the code has it.  [getSlope] works in user coordinates when the
    horizontal distance of the two points on the screen is not larger than
    their horizontal distance in user coordinates, and in screen
    coordinates otherwise.  It returns ["INF"] exactly when the horizontal
    distance in the representation it works in is not at least
    [JXG.Math.eps], and otherwise the quotient of the differences in that
    representation.  When neither distance nor [eps] is [NaN], it returns
    ["INF"] exactly when both horizontal distances are below [eps]. *)
Theorem getSlope_INF (eps : num) (l : Line.Line) :
  let p1scr := Line.scrCoords (Line.coords (Line.point1 l)) in
  let p2scr := Line.scrCoords (Line.coords (Line.point2 l)) in
  let p1usr := Line.usrCoords (Line.coords (Line.point1 l)) in
  let p2usr := Line.usrCoords (Line.coords (Line.point2 l)) in
  let spanS := Math_abs (sub (v1 p2scr) (v1 p1scr)) in
  let spanU := Math_abs (sub (v1 p2usr) (v1 p1usr)) in
  let p1 := if leb spanS spanU then p1usr else p1scr in
  let p2 := if leb spanS spanU then p2usr else p2scr in
  (Line.getSlope eps l = Line.INF
   <-> geb (Math_abs (sub (v1 p2) (v1 p1))) eps = false)
  /\ (Line.getSlope eps l <> Line.INF ->
      Line.getSlope eps l
      = Line.SlopeNum (div (sub (v2 p2) (v2 p1)) (sub (v1 p2) (v1 p1))))
  /\ (isNaN spanS = false -> isNaN spanU = false -> isNaN eps = false ->
      (Line.getSlope eps l = Line.INF
       <-> ltb spanU eps = true /\ ltb spanS eps = true)).
Proof.
  cbv zeta. unfold Line.getSlope.
  set (spanS := Math_abs (sub _ _)). set (spanU := Math_abs (sub _ _)).
  destruct (leb spanS spanU) eqn:Hsel; fold spanS; fold spanU.
  - fold spanU.
    split; [|split].
    + destruct (geb spanU eps); split; intros H; congruence.
    + destruct (geb spanU eps); intros H; congruence.
    + intros HS HU He. unfold geb. fold (leb eps spanU).
      destruct (leb eps spanU) eqn:Hle; split.
      * intros H; discriminate H.
      * intros [H _]. apply ltb_leb_false in H. congruence.
      * intros _. assert (T : ltb spanU eps = true)
          by (apply leb_false_ltb; auto).
        split; [exact T | exact (leb_ltb_trans _ _ _ Hsel T)].
      * reflexivity.
  - split; [|split].
    + destruct (geb spanS eps); split; intros H; congruence.
    + destruct (geb spanS eps); intros H; congruence.
    + intros HS HU He. unfold geb. fold (leb eps spanS).
      assert (U : ltb spanU spanS = true) by (apply leb_false_ltb; auto).
      destruct (leb eps spanS) eqn:Hle; split.
      * intros H; discriminate H.
      * intros [_ H]. apply ltb_leb_false in H. congruence.
      * intros _. assert (T : ltb spanS eps = true)
          by (apply leb_false_ltb; auto).
        split; [exact (ltb_trans _ _ _ U T) | exact T].
      * reflexivity.
Qed.

Lemma getSlope_INF_witness :
  let l := steep_segment in
  let spanS :=
    Math_abs (sub (v1 (Line.scrCoords (Line.coords (Line.point2 l))))
                  (v1 (Line.scrCoords (Line.coords (Line.point1 l))))) in
  let spanU :=
    Math_abs (sub (v1 (Line.usrCoords (Line.coords (Line.point2 l))))
                  (v1 (Line.usrCoords (Line.coords (Line.point1 l))))) in
  isNaN spanS = false /\ isNaN spanU = false /\ isNaN eps6 = false
  /\ (Line.getSlope eps6 l = Line.INF
      <-> ltb spanU eps6 = true /\ ltb spanS eps6 = true).
Proof.
  intros l spanS spanU.
  assert (HS : isNaN spanS = false) by reflexivity.
  assert (HU : isNaN spanU = false) by reflexivity.
  assert (HE : isNaN eps6 = false) by reflexivity.
  split; [exact HS | split; [exact HU | split; [exact HE |]]].
  exact (proj2 (proj2 (getSlope_INF eps6 l)) HS HU HE).
Defined.

(** C5 as stated fails: with [eps] at 0.000001, the two points of
    [steep_segment] have different abscissae in user coordinates and on
    the screen, and [getSlope] returns ["INF"]. *)
Lemma getSlope_distinct_abscissae_INF :
  Line.same_abscissa steep_segment = false
  /\ Line.getSlope eps6 steep_segment = Line.INF.
Proof. split; vm_compute; reflexivity. Qed.

(** ** [hasPoint] on a segment *)

(** C6, as the code has it.  On a segment ([straightFirst] and
    [straightLast] both false) for which [getSlope] returns a number,
    [hasPoint] rejects every screen point that is farther from one of the
    two defining points than these are from each other.  On a segment for
    which [getSlope] returns ["INF"], it rejects every screen point whose
    ordinate lies strictly outside the ordinates of the two defining
    points, when these differ. *)
Theorem hasPoint_segment (eps : num) (l : Line.Line) (x y : num) :
  Line.straightFirst (Line.visProp l) = false ->
  Line.straightLast (Line.visProp l) = false ->
  (Line.getSlope eps l <> Line.INF ->
   Line.beyond_endpoint l x y = true -> Line.hasPoint eps l x y = false)
  /\ (Line.getSlope eps l = Line.INF ->
      Line.outside_ordinates l y = true -> Line.hasPoint eps l x y = false).
Proof.
  intros H1 H2. unfold Line.hasPoint. rewrite H1, H2. simpl.
  split.
  - intros Hs Hb. destruct (Line.getSlope eps l) as [sl|]; [|congruence].
    unfold Line.beyond_endpoint in Hb.
    destruct (Line.band_loop _ _ _ _ _ _ _ _); [|reflexivity].
    rewrite Hb. destruct (ltb _ _); reflexivity.
  - intros Hs Ho. rewrite Hs.
    destruct (ltb (Math_abs _) _); [|reflexivity].
    unfold Line.clamp_vertical. rewrite H1, H2. simpl.
    unfold Line.outside_ordinates in Ho.
    set (p1y := v2 (Line.scrCoords (Line.coords (Line.point1 l)))) in *.
    set (p2y := v2 (Line.scrCoords (Line.coords (Line.point2 l)))) in *.
    destruct (ltb p1y p2y) eqn:E.
    + assert (G : gtb p1y p2y = false) by (apply ltb_asym; exact E).
      rewrite G in Ho.
      destruct (ltb y p1y), (gtb y p2y); simpl in Ho;
        try discriminate Ho; reflexivity.
    + destruct (gtb p1y p2y), (gtb y p1y), (ltb y p2y); simpl in Ho;
        try discriminate Ho; reflexivity.
Qed.

Lemma hasPoint_segment_witness :
  Line.straightFirst (Line.visProp slanted_segment) = false
  /\ Line.straightLast (Line.visProp slanted_segment) = false
  /\ Line.beyond_endpoint slanted_segment (of_Z 400) (of_Z 175) = true
  /\ Line.hasPoint eps6 slanted_segment (of_Z 400) (of_Z 175) = false
  /\ Line.hasPoint eps6 slanted_segment (of_Z 300) (of_Z 225) = true.
Proof.
  split; [reflexivity | split; [reflexivity |]].
  assert (B : Line.beyond_endpoint slanted_segment (of_Z 400) (of_Z 175)
              = true) by (vm_compute; reflexivity).
  split; [exact B | split; [| vm_compute; reflexivity]].
  refine (proj1 (@hasPoint_segment eps6 slanted_segment
                   (of_Z 400) (of_Z 175) eq_refl eq_refl) _ B).
  vm_compute. discriminate.
Defined.

(** C6 as stated fails on a vertical segment: the screen point (254, 350)
    is farther from the first point of [vertical_segment] than the two
    points are from each other, and [hasPoint] accepts it. *)
Lemma hasPoint_accepts_beyond_vertical_segment :
  Line.straightFirst (Line.visProp vertical_segment) = false
  /\ Line.straightLast (Line.visProp vertical_segment) = false
  /\ Line.beyond_endpoint vertical_segment (of_Z 254) (of_Z 350) = true
  /\ Line.hasPoint eps6 vertical_segment (of_Z 254) (of_Z 350) = true.
Proof.
  cbv zeta. split; [vm_compute; reflexivity|].
  split; [vm_compute; reflexivity|].
  split; [vm_compute; reflexivity|].
  vm_compute; reflexivity.
Qed.

(* ================================================================== *)
(** * Properties of grids *)
(* ================================================================== *)

(** ** Hit testing *)

(** C10.  [hasPoint] of the major grid and of the minor grid is false at
    every screen point, whatever the state of the grid. *)
Theorem grid_hasPoint_false (st : Grid.State) (x y : num) :
  Grid.majorGrid_hasPoint st x y = false
  /\ Grid.minorGrid_hasPoint st x y = false.
Proof. split; reflexivity. Qed.

(** ** The lengths of the data arrays *)

Section GridLengths.

Variable L : Grid.Lib.
Variable fuel0 : nat.

Lemma regpol_loop_length (x y rx ry n : num) (fuel : nat) :
  forall (t : num) (ax ay : list num),
    List.length ax = List.length ay ->
    let r := Grid.regpol_loop L x y rx ry n fuel t ax ay in
    List.length (fst (fst r)) = List.length (snd (fst r)).
Proof.
  induction fuel as [|fuel IH]; intros t ax ay H; simpl; auto.
  destruct (leb t _); simpl; auto.
  apply IH. rewrite !length_app. simpl. lia.
Qed.

Lemma createDataArrayForFace_length (fc : string) (b : Grid.Board)
    (grid : Grid.GridEl) (x y rx ry : num) (bbox : Grid.BBox) :
  let r := Grid.createDataArrayForFace L fuel0 fc b grid x y rx ry bbox in
  List.length (fst (snd (fst r))) = List.length (snd (snd (fst r))).
Proof.
  unfold Grid.createDataArrayForFace.
  repeat match goal with
  | |- context [if ?c then _ else _] =>
      destruct c; [cbv beta iota; try reflexivity|]
  end; try reflexivity.
  pose proof (@regpol_loop_length x y rx ry
                (Grid.polygonvertices
                   (Grid.visProp (Grid.set_linecap grid "round")))
                fuel0 (of_Z 0) [] [] eq_refl) as H.
  simpl in H.
  destruct (Grid.regpol_loop _ _ _ _ _ _ _ _ _ _) as [[ax ay] [| |]];
    simpl in *; rewrite ?length_app; simpl; lia.
Qed.

(** The function leaves the data arrays of the grid alone. *)
Lemma createDataArrayForFace_data (fc : string) (b : Grid.Board)
    (grid : Grid.GridEl) (x y rx ry : num) (bbox : Grid.BBox) :
  let r := Grid.createDataArrayForFace L fuel0 fc b grid x y rx ry bbox in
  Grid.dataX (fst (fst r)) = Grid.dataX grid
  /\ Grid.dataY (fst (fst r)) = Grid.dataY grid.
Proof.
  unfold Grid.createDataArrayForFace.
  repeat match goal with
  | |- context [if ?c then _ else _] =>
      destruct c; [cbv beta iota; try (split; reflexivity)|]
  end; try (split; reflexivity).
  destruct (Grid.regpol_loop _ _ _ _ _ _ _ _ _ _) as [[ax ay] [| |]];
    simpl; split; reflexivity.
Qed.

(** A face that is not regularPolygon is drawn without a loop. *)
Lemma createDataArrayForFace_returns (fc : string) (b : Grid.Board)
    (grid : Grid.GridEl) (x y rx ry : num) (bbox : Grid.BBox) :
  Grid.toLowerCase fc <> "regpol"%string ->
  Grid.toLowerCase fc <> "regularpolygon"%string ->
  snd (Grid.createDataArrayForFace L fuel0 fc b grid x y rx ry bbox)
  = Returned.
Proof.
  intros H1 H2. unfold Grid.createDataArrayForFace.
  apply String.eqb_neq in H1. apply String.eqb_neq in H2.
  rewrite H1, H2. change (false || false) with false. cbv beta iota.
  repeat match goal with
  | |- context [if ?c then _ else _] => destruct c; [reflexivity|]
  end; reflexivity.
Qed.

(** No string in lower case is the name ["A"]. *)
Lemma toLowerCase_not_A (fc : string) : Grid.toLowerCase fc <> "A"%string.
Proof.
  destruct fc as [|c t]; simpl; [discriminate|].
  intros H. injection H as H _. revert H.
  destruct c as [[] [] [] [] [] [] [] []]; vm_compute; discriminate.
Qed.

Lemma createDataArrayForFace_unknown (fc : string) (b : Grid.Board)
    (grid : Grid.GridEl) (x y rx ry : num) (bbox : Grid.BBox) :
  ~ In (Grid.toLowerCase fc) Grid.face_names ->
  Grid.createDataArrayForFace L fuel0 fc b grid x y rx ry bbox
  = (grid, ([], []), Returned).
Proof.
  intros H. unfold Grid.createDataArrayForFace.
  pose proof (toLowerCase_not_A fc) as HA. apply String.eqb_neq in HA.
  rewrite HA.
  assert (F : Forall (fun n => (Grid.toLowerCase fc =? n)%string = false)
                Grid.face_names).
  { apply Forall_forall. intros n Hn. apply String.eqb_neq.
    intros E. apply H. rewrite E. exact Hn. }
  unfold Grid.face_names in F.
  repeat match goal with
  | F : Forall _ (_ :: _) |- _ =>
      let E := fresh "E" in
      apply Forall_cons_iff in F; destruct F as [E F]; rewrite E; clear E
  end.
  reflexivity.
Qed.

(** Both loops of both grids keep the two data arrays equally long. *)

Lemma major_row_balanced (b : Grid.Board) (bbox : Grid.BBox) (fc : string)
    (d0 dx dy ib fin : bool) (s0 rx ry : num) (n : nat) :
  forall (y x : num) (g : Grid.GridEl),
    Grid.balanced g ->
    Grid.balanced
      (fst (Grid.major_row L fuel0 b bbox fc d0 dx dy ib fin s0 rx ry
              n y x g)).
Proof.
  induction n as [|n IH]; intros y x g H; simpl; auto.
  destruct (fin && leb x _); [|exact H].
  destruct (Grid.major_skip _ _ _ _ _ _ _ _ _ _); [apply IH; exact H|].
  pose proof (createDataArrayForFace_length fc b g x y rx ry bbox) as HL.
  destruct (createDataArrayForFace_data fc b g x y rx ry bbox) as [HX HY].
  destruct (Grid.createDataArrayForFace _ _ _ _ _ _ _ _ _ _)
    as [[g1 [ax ay]] s]; simpl in HL, HX, HY.
  unfold Grid.balanced in *.
  destruct s; simpl; try (rewrite HX, HY; exact H).
  apply IH. simpl. rewrite !length_app, HX, HY. lia.
Qed.

Lemma major_rows_balanced (b : Grid.Board) (bbox : Grid.BBox) (fc : string)
    (d0 dx dy ib fin : bool) (s0 s1 rx ry sx : num) (n : nat) :
  forall (y : num) (g : Grid.GridEl),
    Grid.balanced g ->
    Grid.balanced
      (fst (Grid.major_rows L fuel0 b bbox fc d0 dx dy ib fin s0 s1 rx ry sx
              n y g)).
Proof.
  induction n as [|n IH]; intros y g H; simpl; auto.
  destruct (fin && geb y _); [|exact H].
  pose proof (@major_row_balanced b bbox fc d0 dx dy ib fin s0 rx ry
                fuel0 y sx g H) as HR.
  destruct (Grid.major_row _ _ _ _ _ _ _ _ _ _ _ _ _ _ _ _ _) as [g1 s];
    simpl in HR.
  destruct s; simpl; auto.
Qed.

Lemma minor_row_balanced (b : Grid.Board) (bbox : Grid.BBox)
    (fc mfc : string) (mdx mdy d0 dx dy ib fin : bool)
    (M0 M1 MRX MRY ms0 mr0 mr1 : num) (n : nat) :
  forall (y x : num) (g : Grid.GridEl),
    Grid.balanced g ->
    Grid.balanced
      (fst (Grid.minor_row L fuel0 b bbox fc mfc mdx mdy d0 dx dy ib fin
              M0 M1 MRX MRY ms0 mr0 mr1 n y x g)).
Proof.
  induction n as [|n IH]; intros y x g H; simpl; auto.
  destruct (fin && leb x _); [|exact H].
  destruct (_ || _); [apply IH; exact H|].
  pose proof (createDataArrayForFace_length fc b g x y mr0 mr1 bbox) as HL.
  destruct (createDataArrayForFace_data fc b g x y mr0 mr1 bbox) as [HX HY].
  destruct (Grid.createDataArrayForFace _ _ _ _ _ _ _ _ _ _)
    as [[g1 [ax ay]] s]; simpl in HL, HX, HY.
  unfold Grid.balanced in *.
  destruct s; simpl; try (rewrite HX, HY; exact H).
  apply IH. simpl. rewrite !length_app, HX, HY. lia.
Qed.

Lemma minor_rows_balanced (b : Grid.Board) (bbox : Grid.BBox)
    (fc mfc : string) (mdx mdy d0 dx dy ib fin : bool)
    (M0 M1 MRX MRY ms0 ms1 mr0 mr1 sx : num) (n : nat) :
  forall (y : num) (g : Grid.GridEl),
    Grid.balanced g ->
    Grid.balanced
      (fst (Grid.minor_rows L fuel0 b bbox fc mfc mdx mdy d0 dx dy ib fin
              M0 M1 MRX MRY ms0 ms1 mr0 mr1 sx n y g)).
Proof.
  induction n as [|n IH]; intros y g H; simpl; auto.
  destruct (fin && geb y _); [|exact H].
  pose proof (@minor_row_balanced b bbox fc mfc mdx mdy d0 dx dy ib fin
                M0 M1 MRX MRY ms0 mr0 mr1 fuel0 y sx g H) as HR.
  destruct (Grid.minor_row _ _ _ _ _ _ _ _ _ _ _ _ _ _ _ _ _ _ _ _ _ _ _ _)
    as [g1 s]; simpl in HR.
  destruct s; simpl; auto.
Qed.

End GridLengths.

(** ** The loop of the face regularPolygon *)

Section RegularPolygon.

Local Open Scope Z_scope.

Lemma binary_round_aux_negative (m e : Z) (l : location) :
  0 <= m ->
  not_positive (binary_round_aux prec emax true m e l) = true.
Proof.
  intros Hm. unfold binary_round_aux.
  pose proof (@shr_fexp_nonneg m e l Hm) as H1.
  destruct (shr_fexp prec emax m e l) as [mrs' e']; simpl in H1.
  pose proof (@round_nearest_even_nonneg _ (loc_of_shr_record mrs') H1) as H2.
  pose proof (@shr_fexp_nonneg _ e' loc_Exact H2) as H3.
  destruct (shr_fexp prec emax _ e' loc_Exact) as [mrs'' e'']; simpl in H3.
  destruct (shr_m mrs'') as [|q|q]; try reflexivity; [|lia].
  match goal with |- context [if ?c then _ else _] => destruct c end;
    reflexivity.
Qed.

(** The sum of two numbers that are not positive is not positive. *)
Lemma add_not_positive (t s : num) :
  not_positive t = true -> not_positive s = true ->
  not_positive (add t s) = true.
Proof.
  destruct t as [a|a| |a ma ea]; destruct s as [b|b| |b mb eb];
    cbn [not_positive]; intros Ht Hs; try discriminate; subst;
    try reflexivity.
  - destruct a, b; reflexivity.
  - unfold add, SFadd.
    remember (fst (shl_align ma ea (IntDef.Z.min ea eb))) as m1.
    remember (fst (shl_align mb eb (IntDef.Z.min ea eb))) as m2.
    cbn [cond_Zopp Z.opp].
    change (Z.neg m1 + Z.neg m2) with (Z.neg (m1 + m2)).
    unfold binary_normalize, binary_round.
    match goal with
    | |- context [let '(_, _) := ?X in _] => destruct X as [mz ez]
    end.
    apply binary_round_aux_negative. lia.
Qed.

Lemma leb_not_positive (t : num) :
  not_positive t = true -> leb t (mul (of_Z 2) Math_PI) = true.
Proof.
  destruct t as [a|a| |a ma ea]; cbn [not_positive]; intros H;
    try discriminate H; subst; reflexivity.
Qed.

Variable L : Grid.Lib.

(** With a step that is not positive the counter of the loop of the face
    regularPolygon never gets beyond [2 * Math.PI]. *)
Lemma regpol_loop_running (x y rx ry n : num) :
  not_positive (div (mul (of_Z 2) Math_PI) n) = true ->
  forall (fuel : nat) (t : num) (ax ay : list num),
    not_positive t = true ->
    snd (Grid.regpol_loop L x y rx ry n fuel t ax ay) = Running.
Proof.
  intros Hn. induction fuel as [|fuel IH]; intros t ax ay Ht;
    [reflexivity|].
  cbn [Grid.regpol_loop]. rewrite (leb_not_positive _ Ht).
  apply IH. apply add_not_positive; assumption.
Qed.

Lemma regpol_never_returns (n : num) (fuel : nat) (b : Grid.Board)
    (x y rx ry : num) (bbox : Grid.BBox) :
  not_positive (div (mul (of_Z 2) Math_PI) n) = true ->
  snd (Grid.createDataArrayForFace L fuel "regularPolygon" b
         (polygon_grid n) x y rx ry bbox) = Running.
Proof.
  intros Hn. unfold Grid.createDataArrayForFace.
  change (Grid.toLowerCase "regularPolygon") with "regularpolygon"%string.
  cbv beta iota zeta.
  change (("regularpolygon" =? ".")%string) with false.
  change (("regularpolygon" =? "point")%string) with false.
  change (("regularpolygon" =? "o")%string) with false.
  change (("regularpolygon" =? "circle")%string) with false.
  change (("regularpolygon" =? "regpol")%string) with false.
  change (("regularpolygon" =? "regularpolygon")%string) with true.
  cbn [orb].
  change (Grid.polygonvertices
            (Grid.visProp (Grid.set_linecap (polygon_grid n) "round")))
    with n.
  pose proof (@regpol_loop_running x y rx ry n Hn fuel (of_Z 0) [] []
                eq_refl) as R.
  destruct (Grid.regpol_loop _ _ _ _ _ _ _ _ _ _) as [[ax ay] s].
  cbn [snd] in R. subst s. reflexivity.
Qed.

(** Whether the loop returns does not depend on what is drawn. *)
Lemma regpol_loop_status (L' : Grid.Lib) (x y rx ry x' y' rx' ry' n : num) :
  forall (fuel : nat) (t : num) (ax ay ax' ay' : list num),
    snd (Grid.regpol_loop L x y rx ry n fuel t ax ay)
    = snd (Grid.regpol_loop L' x' y' rx' ry' n fuel t ax' ay').
Proof.
  induction fuel as [|fuel IH]; intros t ax ay ax' ay'; [reflexivity|].
  cbn [Grid.regpol_loop].
  destruct (leb t _); [apply IH | reflexivity].
Qed.

End RegularPolygon.

Section PolygonReturns.

Variable L : Grid.Lib.

(** With 1 to 64 vertices the loop of the face regularPolygon ends: the
    function returns for every face after at most 66 iterations. *)
Lemma createDataArrayForFace_polygon (fc : string) (b : Grid.Board)
    (grid : Grid.GridEl) (x y rx ry : num) (bbox : Grid.BBox) (n : nat) :
  (1 <= n <= 64)%nat ->
  Grid.polygonvertices (Grid.visProp grid) = of_Z (Z.of_nat n) ->
  snd (Grid.createDataArrayForFace L 67 fc b grid x y rx ry bbox)
  = Returned.
Proof.
  intros Hn Hp. unfold Grid.createDataArrayForFace.
  repeat match goal with
  | |- context [if ?c then _ else _] =>
      destruct c; [cbv beta iota; try reflexivity|]
  end; try reflexivity.
  change (Grid.polygonvertices
            (Grid.visProp (Grid.set_linecap grid "round")))
    with (Grid.polygonvertices (Grid.visProp grid)).
  rewrite Hp.
  assert (R : snd (Grid.regpol_loop L x y rx ry (of_Z (Z.of_nat n)) 67
                     (of_Z 0) [] []) = Returned).
  { rewrite (@regpol_loop_status L (Grid.example_lib (fun t : num => t))
               x y rx ry (of_Z 0) (of_Z 0) (of_Z 1) (of_Z 1)
               (of_Z (Z.of_nat n)) 67 (of_Z 0) [] [] [] []).
    assert (F : forallb
                  (fun k =>
                     match
                       snd (Grid.regpol_loop
                              (Grid.example_lib (fun t : num => t))
                              (of_Z 0) (of_Z 0) (of_Z 1) (of_Z 1)
                              (of_Z (Z.of_nat k)) 67 (of_Z 0) [] [])
                     with
                     | Returned => true
                     | _ => false
                     end)
                  (seq 1 64) = true) by (vm_compute; reflexivity).
    rewrite forallb_forall in F.
    specialize (F n). rewrite in_seq in F.
    assert (I : (1 <= n < 1 + 64)%nat) by lia. specialize (F I).
    destruct (snd (Grid.regpol_loop _ _ _ _ _ _ _ _ _ _));
      [reflexivity | discriminate F | discriminate F]. }
  destruct (Grid.regpol_loop _ _ _ _ _ _ _ _ _ _) as [[ax ay] s].
  cbn [snd] in R. subst s. reflexivity.
Qed.

End PolygonReturns.




(** The loop of the face regularPolygon returns for 1 to 64 vertices: at
    centre (0, 0) with radii 1, after at most 66 iterations. *)
Example regularPolygon_returns (f : num -> num) :
  forallb
    (fun n =>
       match
         Grid.regpol_loop (Grid.example_lib f) (of_Z 0) (of_Z 0)
           (of_Z 1) (of_Z 1) (of_Z (Z.of_nat n)) 67 (of_Z 0) [] []
       with
       | (_, _, Returned) => true
       | _ => false
       end)
    (seq 1 64)
  = true.
Proof. vm_compute. reflexivity. Qed.

(** ** Calling [updateDataArray] twice *)

Section GridRepeat.

Variable L : Grid.Lib.
Variable fuel0 : nat.

Lemma same_drawing_refl (g : Grid.GridEl) : Grid.same_drawing g g.
Proof. repeat split. Qed.

(** [createDataArrayForFace] changes no attribute but [linecap]. *)
Lemma createDataArrayForFace_attributes (fc : string) (b : Grid.Board)
    (grid : Grid.GridEl) (x y rx ry : num) (bbox : Grid.BBox) :
  Grid.without_linecap
    (Grid.visProp
       (fst (fst (Grid.createDataArrayForFace L fuel0 fc b grid x y rx ry
                    bbox))))
  = Grid.without_linecap (Grid.visProp grid).
Proof.
  unfold Grid.createDataArrayForFace.
  repeat match goal with
  | |- context [if ?c then _ else _] =>
      destruct c; [cbv beta iota; try reflexivity|]
  end; try reflexivity.
  destruct (Grid.regpol_loop _ _ _ _ _ _ _ _ _ _) as [[ax ay] [| |]];
    reflexivity.
Qed.

(** What it returns depends on the grid only through the attributes
    other than [linecap]. *)
Lemma createDataArrayForFace_respects (fc : string) (b : Grid.Board)
    (g g' : Grid.GridEl) (x y rx ry : num) (bbox : Grid.BBox) :
  Grid.same_drawing g g' ->
  let r := Grid.createDataArrayForFace L fuel0 fc b g x y rx ry bbox in
  let r' := Grid.createDataArrayForFace L fuel0 fc b g' x y rx ry bbox in
  Grid.same_drawing (fst (fst r)) (fst (fst r'))
  /\ snd (fst r) = snd (fst r') /\ snd r = snd r'.
Proof.
  intros [H [HX HY]].
  assert (Hn : Grid.polygonvertices (Grid.visProp g)
               = Grid.polygonvertices (Grid.visProp g'))
    by exact (f_equal Grid.polygonvertices H).
  assert (Hm : Grid.margin (Grid.visProp g) = Grid.margin (Grid.visProp g'))
    by exact (f_equal Grid.margin H).
  unfold Grid.createDataArrayForFace.
  repeat match goal with
  | |- context [if ?c then _ else _] =>
      destruct c;
      [cbv beta iota; rewrite ?Hm;
       try (split; [split; [exact H | split; assumption]
                   | split; reflexivity])|]
  end; try (split; [split; [exact H | split; assumption]
                   | split; reflexivity]).
  change (Grid.polygonvertices
            (Grid.visProp (Grid.set_linecap g "round")))
    with (Grid.polygonvertices (Grid.visProp g)).
  change (Grid.polygonvertices
            (Grid.visProp (Grid.set_linecap g' "round")))
    with (Grid.polygonvertices (Grid.visProp g')).
  rewrite Hn.
  destruct (Grid.regpol_loop _ _ _ _ _ _ _ _ _ _) as [[ax ay] [| |]];
    (split; [split; [exact H | split; assumption]
            | split; reflexivity]).
Qed.

Lemma major_row_respects (b : Grid.Board) (bbox : Grid.BBox) (fc : string)
    (d0 dx dy ib fin : bool) (s0 rx ry : num) (n : nat) :
  forall (y x : num) (g g' : Grid.GridEl),
    Grid.same_drawing g g' ->
    let r := Grid.major_row L fuel0 b bbox fc d0 dx dy ib fin s0 rx ry
               n y x g in
    let r' := Grid.major_row L fuel0 b bbox fc d0 dx dy ib fin s0 rx ry
                n y x g' in
    Grid.same_drawing (fst r) (fst r') /\ snd r = snd r'.
Proof.
  induction n as [|n IH]; intros y x g g' H; simpl; [split; auto|].
  destruct (fin && leb x _); [|split; auto].
  destruct (Grid.major_skip _ _ _ _ _ _ _ _ _ _); [apply IH; exact H|].
  destruct (@createDataArrayForFace_respects fc b g g' x y rx ry bbox H)
    as [[HA [HX HY]] [HR HS]].
  destruct (Grid.createDataArrayForFace L fuel0 fc b g _ _ _ _ _)
    as [[g1 [ax ay]] s];
  destruct (Grid.createDataArrayForFace L fuel0 fc b g' _ _ _ _ _)
    as [[g1' [ax' ay']] s'].
  simpl in HA, HX, HY, HR, HS. injection HR as -> ->. subst s'.
  destruct s; simpl; try (split; [repeat split; assumption | reflexivity]).
  apply IH. repeat split; simpl; congruence.
Qed.

Lemma major_rows_respects (b : Grid.Board) (bbox : Grid.BBox) (fc : string)
    (d0 dx dy ib fin : bool) (s0 s1 rx ry sx : num) (n : nat) :
  forall (y : num) (g g' : Grid.GridEl),
    Grid.same_drawing g g' ->
    let r := Grid.major_rows L fuel0 b bbox fc d0 dx dy ib fin s0 s1 rx ry
               sx n y g in
    let r' := Grid.major_rows L fuel0 b bbox fc d0 dx dy ib fin s0 s1 rx ry
                sx n y g' in
    Grid.same_drawing (fst r) (fst r') /\ snd r = snd r'.
Proof.
  induction n as [|n IH]; intros y g g' H; simpl; [split; auto|].
  destruct (fin && geb y _); [|split; auto].
  destruct (@major_row_respects b bbox fc d0 dx dy ib fin s0 rx ry fuel0
              y sx g g' H) as [HA HS].
  destruct (Grid.major_row _ _ _ _ _ _ _ _ _ _ _ _ _ _ _ _ g) as [g1 s];
  destruct (Grid.major_row _ _ _ _ _ _ _ _ _ _ _ _ _ _ _ _ g') as [g1' s'].
  simpl in HA, HS. subst s'.
  destruct s; simpl; auto.
Qed.

Lemma major_row_attributes (b : Grid.Board) (bbox : Grid.BBox) (fc : string)
    (d0 dx dy ib fin : bool) (s0 rx ry : num) (n : nat) :
  forall (y x : num) (g : Grid.GridEl),
    Grid.without_linecap
      (Grid.visProp
         (fst (Grid.major_row L fuel0 b bbox fc d0 dx dy ib fin s0 rx ry
                 n y x g)))
    = Grid.without_linecap (Grid.visProp g).
Proof.
  induction n as [|n IH]; intros y x g; simpl; auto.
  destruct (fin && leb x _); [|reflexivity].
  destruct (Grid.major_skip _ _ _ _ _ _ _ _ _ _); [apply IH|].
  pose proof (createDataArrayForFace_attributes fc b g x y rx ry bbox) as HA.
  destruct (Grid.createDataArrayForFace _ _ _ _ _ _ _ _ _ _)
    as [[g1 [ax ay]] s]; simpl in HA.
  destruct s; simpl; auto. rewrite IH. exact HA.
Qed.

Lemma major_rows_attributes (b : Grid.Board) (bbox : Grid.BBox) (fc : string)
    (d0 dx dy ib fin : bool) (s0 s1 rx ry sx : num) (n : nat) :
  forall (y : num) (g : Grid.GridEl),
    Grid.without_linecap
      (Grid.visProp
         (fst (Grid.major_rows L fuel0 b bbox fc d0 dx dy ib fin s0 s1 rx ry
                 sx n y g)))
    = Grid.without_linecap (Grid.visProp g).
Proof.
  induction n as [|n IH]; intros y g; simpl; auto.
  destruct (fin && geb y _); [|reflexivity].
  pose proof (@major_row_attributes b bbox fc d0 dx dy ib fin s0 rx ry fuel0
                y sx g) as HA.
  destruct (Grid.major_row _ _ _ _ _ _ _ _ _ _ _ _ _ _ _ _ g) as [g1 s].
  simpl in HA.
  destruct s; simpl; auto. rewrite IH. exact HA.
Qed.

Lemma start_same_drawing (g g' : Grid.GridEl) (shared : bool)
    (s : Grid.Steps) :
  Grid.without_linecap (Grid.visProp g)
  = Grid.without_linecap (Grid.visProp g') ->
  Grid.same_drawing
    (Grid.set_data (if shared then Grid.set_majorstep g s else g) [] [])
    (Grid.set_data (if shared then Grid.set_majorstep g' s else g') [] []).
Proof.
  intros H. split; [|split; reflexivity].
  destruct shared; simpl; [|exact H].
  unfold Grid.without_linecap in *. simpl.
  injection H as _ H1 H2 H3 H4 H5 H6 H7 H8 H9 H10 H11 H12 H13.
  rewrite H1, H2, H3, H4, H5, H6, H7, H8, H9, H10, H11, H12, H13.
  reflexivity.
Qed.

(** What [majorGrid.updateDataArray] computes depends on the state only
    through the bounding box, the units, the axes and the attributes of
    the major grid other than [linecap]. *)
Lemma majorGrid_updateDataArray_respects (st st' : Grid.State) :
  Grid.same_major_inputs st st' ->
  let r := Grid.majorGrid_updateDataArray L fuel0 st in
  let r' := Grid.majorGrid_updateDataArray L fuel0 st' in
  Grid.dataX (Grid.majorGrid (fst r)) = Grid.dataX (Grid.majorGrid (fst r'))
  /\ Grid.dataY (Grid.majorGrid (fst r))
     = Grid.dataY (Grid.majorGrid (fst r'))
  /\ snd r = snd r'.
Proof.
  intros [Hb [H0 [H1 Hv]]].
  unfold Grid.majorGrid_updateDataArray.
  rewrite Hb, H0, H1.
  repeat match goal with
  | |- context [?f (Grid.visProp (Grid.majorGrid st))] =>
      rewrite (f_equal f Hv
               : f (Grid.visProp (Grid.majorGrid st))
                 = f (Grid.visProp (Grid.majorGrid st')))
  end.
  destruct (Grid.two_entries _) as [arr0 shared].
  destruct (Grid.force_square _ _ _ _) as [s0 s1].
  match goal with
  | |- context [Grid.major_rows ?a ?b ?c ?d ?e ?f ?g ?h ?i ?j ?k ?l ?m ?n ?o
                  ?p ?q (Grid.set_data
                           (if _ then Grid.set_majorstep _ ?w else _) _ _)] =>
      destruct (@major_rows_respects c d e f g h i j k l m n o p q _ _
                  (@start_same_drawing (Grid.majorGrid st)
                     (Grid.majorGrid st') shared w Hv))
        as [[_ [HX HY]] HS]
  end.
  destruct (Grid.major_rows _ _ _ _ _ _ _ _ _ _ _ _ _ _ _ _ _
              (Grid.set_data
                 (if shared then Grid.set_majorstep (Grid.majorGrid st) _
                  else Grid.majorGrid st) _ _)) as [g1 t1];
  destruct (Grid.major_rows _ _ _ _ _ _ _ _ _ _ _ _ _ _ _ _ _
              (Grid.set_data
                 (if shared then Grid.set_majorstep (Grid.majorGrid st') _
                  else Grid.majorGrid st') _ _)) as [g2 t2].
  simpl in *. auto.
Qed.

(** When the attribute [majorStep] is not an array of two or more entries,
    a second call of [majorGrid.updateDataArray] reads what the first one
    read. *)
Lemma majorGrid_updateDataArray_keeps_inputs (st : Grid.State) :
  snd (Grid.two_entries
         (Grid.majorstep (Grid.visProp (Grid.majorGrid st)))) = false ->
  Grid.same_major_inputs
    (fst (Grid.majorGrid_updateDataArray L fuel0 st)) st.
Proof.
  intros Hs. unfold Grid.majorGrid_updateDataArray.
  destruct (Grid.two_entries _) as [arr0 shared]. simpl in Hs. subst shared.
  destruct (Grid.force_square _ _ _ _) as [s0 s1].
  match goal with
  | |- context [Grid.major_rows ?a ?b ?c ?d ?e ?f ?g ?h ?i ?j ?k ?l ?m ?n ?o
                  ?p ?q ?r] =>
      pose proof (@major_rows_attributes c d e f g h i j k l m n o p q r)
        as HA;
      destruct (Grid.major_rows a b c d e f g h i j k l m n o p q r)
        as [g1 t1]
  end.
  simpl in *. repeat split; auto.
Qed.

End GridRepeat.

Section GridRepeatShared.

Variable L : Grid.Lib.
Variable fuel0 : nat.

(** When the attribute [majorStep] is an array of two or more entries,
    the first call leaves the two steps it has used in it; without
    [forceSquare] these are the steps the entries resolve to. *)
Lemma majorGrid_updateDataArray_keeps_shared (st : Grid.State)
    (a b : Grid.Value) (rest : list Grid.Value) :
  Grid.majorstep (Grid.visProp (Grid.majorGrid st))
  = Grid.Array (a :: b :: rest) ->
  exists s0 s1 : num,
    Grid.same_major_inputs
      (fst (Grid.majorGrid_updateDataArray L fuel0 st))
      (Grid.with_majorstep st
         (Grid.Array (Grid.VNum s0 :: Grid.VNum s1 :: rest)))
    /\ (Grid.forcesquare (Grid.visProp (Grid.majorGrid st)) = Grid.FS_other ->
        let bbox := Grid.getBoundingBox (Grid.board st) in
        let vp := Grid.visProp (Grid.majorGrid st) in
        s0 = Grid.resolve_step
               (if Grid.Type_exists (Grid.gridx vp) then Grid.gridx vp else a)
               (Grid.parentAxes0 st)
               (Math_abs (sub (Grid.bb1 bbox) (Grid.bb3 bbox)))
               (div (of_Z 1) (Grid.unitX (Grid.board st)))
        /\ s1 = Grid.resolve_step
                  (if Grid.Type_exists (Grid.gridy vp) then Grid.gridy vp
                   else b)
                  (Grid.parentAxes1 st)
                  (Math_abs (sub (Grid.bb0 bbox) (Grid.bb2 bbox)))
                  (div (of_Z 1) (Grid.unitY (Grid.board st)))).
Proof.
  intros E. unfold Grid.majorGrid_updateDataArray. rewrite E.
  cbn [Grid.two_entries List.length Nat.ltb Nat.leb].
  destruct (Grid.force_square _ _ _ _) as [s0 s1] eqn:F.
  exists s0, s1.
  match goal with
  | |- context [Grid.major_rows ?a ?b ?c ?d ?e ?f ?g ?h ?i ?j ?k ?l ?m ?n ?o
                  ?p ?q ?r] =>
      pose proof (@major_rows_attributes a b c d e f g h i j k l m n o p q r)
        as HA;
      destruct (Grid.major_rows a b c d e f g h i j k l m n o p q r)
        as [g1 t1]
  end.
  split.
  - unfold Grid.same_major_inputs. simpl in *. repeat split; auto.
    rewrite HA.
    destruct (Grid.Type_exists (Grid.gridx _)),
      (Grid.Type_exists (Grid.gridy _)); reflexivity.
  - intros Hf. rewrite Hf in F. simpl in F. injection F as <- <-.
    destruct (Grid.Type_exists (Grid.gridx _)),
      (Grid.Type_exists (Grid.gridy _)); split; reflexivity.
Qed.

(** Without [forceSquare], once the steps have been written into a shared
    array, the function reads from it what it had computed. *)
Lemma majorGrid_updateDataArray_settled (st : Grid.State)
    (a b : Grid.Value) (rest : list Grid.Value) :
  Grid.majorstep (Grid.visProp (Grid.majorGrid st))
  = Grid.Array (a :: b :: rest) ->
  Grid.forcesquare (Grid.visProp (Grid.majorGrid st)) = Grid.FS_other ->
  let bbox := Grid.getBoundingBox (Grid.board st) in
  let vp := Grid.visProp (Grid.majorGrid st) in
  let s0 :=
    Grid.resolve_step
      (if Grid.Type_exists (Grid.gridx vp) then Grid.gridx vp else a)
      (Grid.parentAxes0 st)
      (Math_abs (sub (Grid.bb1 bbox) (Grid.bb3 bbox)))
      (div (of_Z 1) (Grid.unitX (Grid.board st))) in
  let s1 :=
    Grid.resolve_step
      (if Grid.Type_exists (Grid.gridy vp) then Grid.gridy vp else b)
      (Grid.parentAxes1 st)
      (Math_abs (sub (Grid.bb0 bbox) (Grid.bb2 bbox)))
      (div (of_Z 1) (Grid.unitY (Grid.board st))) in
  let st' :=
    Grid.with_majorstep st
      (Grid.Array (Grid.VNum s0 :: Grid.VNum s1 :: rest)) in
  let r := Grid.majorGrid_updateDataArray L fuel0 st' in
  let r' := Grid.majorGrid_updateDataArray L fuel0 st in
  Grid.dataX (Grid.majorGrid (fst r)) = Grid.dataX (Grid.majorGrid (fst r'))
  /\ Grid.dataY (Grid.majorGrid (fst r))
     = Grid.dataY (Grid.majorGrid (fst r'))
  /\ snd r = snd r'.
Proof.
  intros E Hf bbox vp s0 s1 st' r r'. subst r r' st' s0 s1 vp bbox.
  unfold Grid.majorGrid_updateDataArray, Grid.with_majorstep.
  cbn [Grid.minorGrid Grid.majorGrid Grid.board Grid.parentAxes0
       Grid.parentAxes1 Grid.set_majorstep Grid.visProp Grid.majorstep
       Grid.gridx Grid.gridy Grid.sizex Grid.sizey Grid.face Grid.drawzero0
       Grid.drawzerox Grid.drawzeroy Grid.includeboundaries
       Grid.forcesquare].
  rewrite E, Hf.
  destruct (Grid.Type_exists (Grid.gridx _)),
    (Grid.Type_exists (Grid.gridy _));
    cbn [Grid.two_entries List.length Nat.ltb Nat.leb Grid.force_square
         Grid.array_get Grid.array_set nth Grid.resolve_step Grid.isAuto
         Grid.parseNumber].
  all:
    match goal with
    | |- context [Grid.major_rows ?a ?b ?c ?d ?e ?f ?g ?h ?i ?j ?k ?l ?m ?n
                    ?o ?p ?q ?G1] =>
        match goal with
        | |- context [Grid.major_rows a b c d e f g h i j k l m n o p q
                        ?G2] =>
            tryif constr_eq G1 G2 then fail
            else
              (destruct (@major_rows_respects a b c d e f g h i j k l m n o
                           p q G1 G2) as [[_ [HX HY]] HS];
               [repeat split|];
               destruct (Grid.major_rows a b c d e f g h i j k l m n o p q
                           G1) as [g1 t1];
               destruct (Grid.major_rows a b c d e f g h i j k l m n o p q
                           G2) as [g2 t2])
        end
    end.
  all: simpl in *; auto.
Qed.


(** The loops of the minor grid. *)

Lemma minor_row_respects (b : Grid.Board) (bbox : Grid.BBox)
    (fc mfc : string) (mdx mdy d0 dx dy ib fin : bool)
    (M0 M1 MRX MRY ms0 mr0 mr1 : num) (n : nat) :
  forall (y x : num) (g g' : Grid.GridEl),
    Grid.same_drawing g g' ->
    let r := Grid.minor_row L fuel0 b bbox fc mfc mdx mdy d0 dx dy ib fin
               M0 M1 MRX MRY ms0 mr0 mr1 n y x g in
    let r' := Grid.minor_row L fuel0 b bbox fc mfc mdx mdy d0 dx dy ib fin
                M0 M1 MRX MRY ms0 mr0 mr1 n y x g' in
    Grid.same_drawing (fst r) (fst r') /\ snd r = snd r'.
Proof.
  induction n as [|n IH]; intros y x g g' H; simpl; [split; auto|].
  destruct (fin && leb x _); [|split; auto].
  destruct (_ || _); [apply IH; exact H|].
  destruct (@createDataArrayForFace_respects L fuel0 fc b g g' x y mr0 mr1
              bbox H) as [[HA [HX HY]] [HR HS]].
  destruct (Grid.createDataArrayForFace L fuel0 fc b g _ _ _ _ _)
    as [[g1 [ax ay]] s];
  destruct (Grid.createDataArrayForFace L fuel0 fc b g' _ _ _ _ _)
    as [[g1' [ax' ay']] s'].
  simpl in HA, HX, HY, HR, HS. injection HR as -> ->. subst s'.
  destruct s; simpl; try (split; [repeat split; assumption | reflexivity]).
  apply IH. repeat split; simpl; congruence.
Qed.

Lemma minor_rows_respects (b : Grid.Board) (bbox : Grid.BBox)
    (fc mfc : string) (mdx mdy d0 dx dy ib fin : bool)
    (M0 M1 MRX MRY ms0 ms1 mr0 mr1 sx : num) (n : nat) :
  forall (y : num) (g g' : Grid.GridEl),
    Grid.same_drawing g g' ->
    let r := Grid.minor_rows L fuel0 b bbox fc mfc mdx mdy d0 dx dy ib fin
               M0 M1 MRX MRY ms0 ms1 mr0 mr1 sx n y g in
    let r' := Grid.minor_rows L fuel0 b bbox fc mfc mdx mdy d0 dx dy ib fin
                M0 M1 MRX MRY ms0 ms1 mr0 mr1 sx n y g' in
    Grid.same_drawing (fst r) (fst r') /\ snd r = snd r'.
Proof.
  induction n as [|n IH]; intros y g g' H; simpl; [split; auto|].
  destruct (fin && geb y _); [|split; auto].
  destruct (@minor_row_respects b bbox fc mfc mdx mdy d0 dx dy ib fin
              M0 M1 MRX MRY ms0 mr0 mr1 fuel0 y sx g g' H) as [HA HS].
  destruct (Grid.minor_row _ _ _ _ _ _ _ _ _ _ _ _ _ _ _ _ _ _ _ _ _ _ _ g)
    as [g1 s];
  destruct (Grid.minor_row _ _ _ _ _ _ _ _ _ _ _ _ _ _ _ _ _ _ _ _ _ _ _ g')
    as [g1' s'].
  simpl in HA, HS. subst s'.
  destruct s; simpl; auto.
Qed.

Lemma minor_row_attributes (b : Grid.Board) (bbox : Grid.BBox)
    (fc mfc : string) (mdx mdy d0 dx dy ib fin : bool)
    (M0 M1 MRX MRY ms0 mr0 mr1 : num) (n : nat) :
  forall (y x : num) (g : Grid.GridEl),
    Grid.without_linecap
      (Grid.visProp
         (fst (Grid.minor_row L fuel0 b bbox fc mfc mdx mdy d0 dx dy ib fin
                 M0 M1 MRX MRY ms0 mr0 mr1 n y x g)))
    = Grid.without_linecap (Grid.visProp g).
Proof.
  induction n as [|n IH]; intros y x g; simpl; auto.
  destruct (fin && leb x _); [|reflexivity].
  destruct (_ || _); [apply IH|].
  pose proof (@createDataArrayForFace_attributes L fuel0 fc b g x y mr0 mr1
                bbox) as HA.
  destruct (Grid.createDataArrayForFace _ _ _ _ _ _ _ _ _ _)
    as [[g1 [ax ay]] s]; simpl in HA.
  destruct s; simpl; auto. rewrite IH. exact HA.
Qed.

Lemma minor_rows_attributes (b : Grid.Board) (bbox : Grid.BBox)
    (fc mfc : string) (mdx mdy d0 dx dy ib fin : bool)
    (M0 M1 MRX MRY ms0 ms1 mr0 mr1 sx : num) (n : nat) :
  forall (y : num) (g : Grid.GridEl),
    Grid.without_linecap
      (Grid.visProp
         (fst (Grid.minor_rows L fuel0 b bbox fc mfc mdx mdy d0 dx dy ib fin
                 M0 M1 MRX MRY ms0 ms1 mr0 mr1 sx n y g)))
    = Grid.without_linecap (Grid.visProp g).
Proof.
  induction n as [|n IH]; intros y g; simpl; auto.
  destruct (fin && geb y _); [|reflexivity].
  pose proof (@minor_row_attributes b bbox fc mfc mdx mdy d0 dx dy ib fin
                M0 M1 MRX MRY ms0 mr0 mr1 fuel0 y sx g) as HA.
  destruct (Grid.minor_row _ _ _ _ _ _ _ _ _ _ _ _ _ _ _ _ _ _ _ _ _ _ _ g)
    as [g1 s].
  simpl in HA.
  destruct s; simpl; auto. rewrite IH. exact HA.
Qed.

Lemma start_same_drawing_minor (g g' : Grid.GridEl) (shared : bool)
    (s : Grid.Steps) :
  Grid.without_linecap (Grid.visProp g)
  = Grid.without_linecap (Grid.visProp g') ->
  Grid.same_drawing
    (Grid.set_data (if shared then Grid.set_minorelements g s else g) [] [])
    (Grid.set_data (if shared then Grid.set_minorelements g' s else g')
       [] []).
Proof.
  intros H. split; [|split; reflexivity].
  destruct shared; simpl; [|exact H].
  unfold Grid.without_linecap in *. simpl.
  injection H as H0 H1 H2 H3 H4 H5 H6 H7 H8 H9 H10 _ H12 H13.
  rewrite H0, H1, H2, H3, H4, H5, H6, H7, H8, H9, H10, H12, H13.
  reflexivity.
Qed.

(** What [minorGrid.updateDataArray] computes depends on the state only
    through what [same_minor_inputs] compares. *)
Lemma minorGrid_updateDataArray_respects (st st' : Grid.State) :
  Grid.same_minor_inputs st st' ->
  let r := Grid.minorGrid_updateDataArray L fuel0 st in
  let r' := Grid.minorGrid_updateDataArray L fuel0 st' in
  Grid.dataX (Grid.minorGrid (fst r)) = Grid.dataX (Grid.minorGrid (fst r'))
  /\ Grid.dataY (Grid.minorGrid (fst r))
     = Grid.dataY (Grid.minorGrid (fst r'))
  /\ snd r = snd r'.
Proof.
  intros [Hb [H0 [H1 [Hg [Hs [Hx [Hy Hv]]]]]]].
  unfold Grid.minorGrid_updateDataArray.
  rewrite Hb, H0, H1, Hg, Hs, Hx, Hy.
  repeat match goal with
  | |- context [?f (Grid.visProp (Grid.minorGrid st))] =>
      rewrite (f_equal f Hv
               : f (Grid.visProp (Grid.minorGrid st))
                 = f (Grid.visProp (Grid.minorGrid st')))
  end.
  destruct (Grid.two_entries _) as [me0 shared].
  destruct (Grid.majorStep st') as [ms|]; [|simpl; auto].
  match goal with
  | |- context [Grid.minor_rows ?a ?b ?c ?d ?e ?f ?g ?h ?i ?j ?k ?l ?m ?n ?o
                  ?p ?q ?r ?s ?t ?u ?v ?w ?x
                  (Grid.set_data
                     (if _ then Grid.set_minorelements _ ?z else _) _ _)] =>
      destruct (@minor_rows_respects c d e f g h i j k l m n o p q r s t u
                  v w x _ _
                  (@start_same_drawing_minor (Grid.minorGrid st)
                     (Grid.minorGrid st') shared z Hv))
        as [[_ [HX HY]] HS]
  end.
  destruct (Grid.minor_rows _ _ _ _ _ _ _ _ _ _ _ _ _ _ _ _ _ _ _ _ _ _ _ _
              (Grid.set_data
                 (if shared then Grid.set_minorelements (Grid.minorGrid st) _
                  else Grid.minorGrid st) _ _)) as [g1 t1];
  destruct (Grid.minor_rows _ _ _ _ _ _ _ _ _ _ _ _ _ _ _ _ _ _ _ _ _ _ _ _
              (Grid.set_data
                 (if shared then Grid.set_minorelements (Grid.minorGrid st') _
                  else Grid.minorGrid st') _ _)) as [g2 t2].
  simpl in *. auto.
Qed.

Lemma resolve_count_num (v : num) (axis : option Grid.Axis) :
  Grid.resolve_count (Grid.VNum v) axis = v.
Proof. reflexivity. Qed.

(** Once the counts have been written into a shared array, the function
    reads from it what it had computed. *)
Lemma minorGrid_updateDataArray_settled (st : Grid.State)
    (a b : Grid.Value) (rest : list Grid.Value) :
  Grid.minorelements (Grid.visProp (Grid.minorGrid st))
  = Grid.Array (a :: b :: rest) ->
  let n0 := Grid.resolve_count a (Grid.parentAxes0 st) in
  let n1 := Grid.resolve_count b (Grid.parentAxes1 st) in
  let st' :=
    Grid.with_minorelements st
      (Grid.Array (Grid.VNum n0 :: Grid.VNum n1 :: rest)) in
  let r := Grid.minorGrid_updateDataArray L fuel0 st' in
  let r' := Grid.minorGrid_updateDataArray L fuel0 st in
  Grid.dataX (Grid.minorGrid (fst r)) = Grid.dataX (Grid.minorGrid (fst r'))
  /\ Grid.dataY (Grid.minorGrid (fst r))
     = Grid.dataY (Grid.minorGrid (fst r'))
  /\ snd r = snd r'.
Proof.
  intros H n0 n1 st' r r'. subst r r' st'.
  unfold Grid.minorGrid_updateDataArray, Grid.with_minorelements.
  cbn [Grid.minorGrid Grid.majorGrid Grid.board Grid.parentAxes0
       Grid.parentAxes1 Grid.majorStep Grid.majorRadiusX Grid.majorRadiusY
       Grid.set_minorelements Grid.visProp Grid.minorelements Grid.sizex
       Grid.sizey Grid.face Grid.drawzerox Grid.drawzeroy
       Grid.includeboundaries].
  rewrite H.
  cbn [Grid.two_entries List.length Nat.ltb Nat.leb Grid.array_get nth
       Grid.array_set].
  rewrite !resolve_count_num. fold n0 n1.
  destruct (Grid.majorStep st) as [ms|]; [|cbn; auto].
  match goal with
  | |- context [Grid.minor_rows ?a ?b ?c ?d ?e ?f ?g ?h ?i ?j ?k ?l ?m ?n ?o
                  ?p ?q ?r ?s ?t ?u ?v ?w ?x ?G1] =>
      match goal with
      | |- context [Grid.minor_rows a b c d e f g h i j k l m n o
                      p q r s t u v w x ?G2] =>
          tryif constr_eq G1 G2 then fail
          else
            (destruct (@minor_rows_respects c d e f g h i j k l m n o p q r
                         s t u v w x G1 G2) as [[_ [HX HY]] HS];
             [repeat split|];
             destruct (Grid.minor_rows a b c d e f g h i j k l m n o
                         p q r s t u v w x G1) as [g1 t1];
             destruct (Grid.minor_rows a b c d e f g h i j k l m n o
                         p q r s t u v w x G2) as [g2 t2])
      end
  end.
  simpl in *. auto.
Qed.


(** What a second call of [minorGrid.updateDataArray] reads when the
    attribute [minorElements] is not an array of two or more entries. *)
Lemma minorGrid_updateDataArray_keeps_inputs (st : Grid.State) :
  snd (Grid.two_entries
         (Grid.minorelements (Grid.visProp (Grid.minorGrid st)))) = false ->
  Grid.same_minor_inputs
    (fst (Grid.minorGrid_updateDataArray L fuel0 st)) st.
Proof.
  intros Hs. unfold Grid.minorGrid_updateDataArray.
  destruct (Grid.two_entries _) as [me0 shared]. simpl in Hs. subst shared.
  destruct (Grid.majorStep st) as [ms|] eqn:Hm;
    [|unfold Grid.same_minor_inputs; simpl; rewrite Hm; repeat split; auto].
  match goal with
  | |- context [Grid.minor_rows ?a ?b ?c ?d ?e ?f ?g ?h ?i ?j ?k ?l ?m ?n ?o
                  ?p ?q ?r ?s ?t ?u ?v ?w ?x ?y] =>
      pose proof (@minor_rows_attributes c d e f g h i j k l m n o p q r s
                    t u v w x y) as HA;
      destruct (Grid.minor_rows a b c d e f g h i j k l m n o p q r s
                  t u v w x y) as [g1 t1]
  end.
  unfold Grid.same_minor_inputs. simpl in *. rewrite Hm.
  repeat split; auto.
Qed.

(** And what it reads when the attribute is such an array. *)
Lemma minorGrid_updateDataArray_keeps_shared (st : Grid.State)
    (a b : Grid.Value) (rest ms : list Grid.Value) :
  Grid.minorelements (Grid.visProp (Grid.minorGrid st))
  = Grid.Array (a :: b :: rest) ->
  Grid.majorStep st = Some ms ->
  Grid.same_minor_inputs
    (fst (Grid.minorGrid_updateDataArray L fuel0 st))
    (Grid.with_minorelements st
       (Grid.Array
          (Grid.VNum (Grid.resolve_count a (Grid.parentAxes0 st))
           :: Grid.VNum (Grid.resolve_count b (Grid.parentAxes1 st))
           :: rest))).
Proof.
  intros E Hm. unfold Grid.minorGrid_updateDataArray.
  rewrite E, Hm.
  cbn [Grid.two_entries List.length Nat.ltb Nat.leb Grid.array_get nth
       Grid.array_set].
  match goal with
  | |- context [Grid.minor_rows ?a ?b ?c ?d ?e ?f ?g ?h ?i ?j ?k ?l ?m ?n ?o
                  ?p ?q ?r ?s ?t ?u ?v ?w ?x ?y] =>
      pose proof (@minor_rows_attributes c d e f g h i j k l m n o p q r s
                    t u v w x y) as HA;
      destruct (Grid.minor_rows a b c d e f g h i j k l m n o p q r s
                  t u v w x y) as [g1 t1]
  end.
  unfold Grid.same_minor_inputs. simpl in *. rewrite Hm.
  repeat split; auto.
Qed.

(** While [majorStep] is undefined the function throws, having emptied the
    data arrays. *)
Lemma minorGrid_updateDataArray_throws (st : Grid.State) :
  Grid.majorStep st = None ->
  let r := Grid.minorGrid_updateDataArray L fuel0 st in
  snd r = Threw
  /\ Grid.dataX (Grid.minorGrid (fst r)) = []
  /\ Grid.dataY (Grid.minorGrid (fst r)) = []
  /\ Grid.majorStep (fst r) = None.
Proof.
  intros Hm. unfold Grid.minorGrid_updateDataArray. rewrite Hm.
  destruct (Grid.two_entries _) as [me0 shared].
  repeat split.
Qed.


End GridRepeatShared.

(** On [square_grid_scalar] the two calls agree: 121 grid points each. *)
Example majorGrid_updateDataArray_twice_scalar (f : num -> num) :
  let r1 :=
    Grid.majorGrid_updateDataArray (Grid.example_lib f) 100
      square_grid_scalar in
  let r2 := Grid.majorGrid_updateDataArray (Grid.example_lib f) 100 (fst r1) in
  snd r1 = Returned
  /\ List.length (Grid.dataX (Grid.majorGrid (fst r1))) = 363%nat
  /\ Grid.dataX (Grid.majorGrid (fst r2)) = Grid.dataX (Grid.majorGrid (fst r1))
  /\ Grid.dataY (Grid.majorGrid (fst r2)) = Grid.dataY (Grid.majorGrid (fst r1))
  /\ snd r2 = snd r1.
Proof.
  intros r1 r2.
  split; [vm_compute; reflexivity | split; [vm_compute; reflexivity |]].
  split; [vm_compute; reflexivity | split; vm_compute; reflexivity].
Qed.


(** C8 fails in the code.  On [square_grid], whose attribute [majorStep]
    is the array [[1, 1]], the first call of [majorGrid.updateDataArray]
    writes the steps it has made square into that array, which becomes
    [[1, 0.9999999999999999]]; the second call, on the same bounding box,
    then makes the steps square the other way round and draws 132 grid
    points where the first call drew 121. *)
Theorem majorGrid_second_call_differs (f : num -> num) :
  let r1 :=
    Grid.majorGrid_updateDataArray (Grid.example_lib f) 100 square_grid in
  let r2 := Grid.majorGrid_updateDataArray (Grid.example_lib f) 100 (fst r1) in
  snd r1 = Returned /\ snd r2 = Returned
  /\ Grid.board (fst r1) = Grid.board square_grid
  /\ Grid.majorstep (Grid.visProp (Grid.majorGrid (fst r1)))
     = Grid.Array
         [ Grid.VNum (of_Z 1);
           Grid.VNum (S754_finite false 9007199254740991 (-53)) ]
  /\ Grid.majorStep (fst r2)
     = Some [ Grid.VNum (S754_finite false 9007199254740991 (-53));
              Grid.VNum (S754_finite false 9007199254740991 (-53)) ]
  /\ List.length (Grid.dataX (Grid.majorGrid (fst r1))) = 363%nat
  /\ List.length (Grid.dataX (Grid.majorGrid (fst r2))) = 396%nat.
Proof.
  cbv zeta. split; [vm_compute; reflexivity|].
  split; [vm_compute; reflexivity|].
  split; [vm_compute; reflexivity|].
  split; [vm_compute; reflexivity|].
  split; [vm_compute; reflexivity|].
  split; [vm_compute; reflexivity|].
  vm_compute; reflexivity.
Qed.

(** The two calls differ as well when [Mat.roundToStep] rounds to the
    nearest multiple: the first call draws its first grid point at -5, the
    second at -4.999999999999999. *)
Example majorGrid_nearest_rounding_differs (f : num -> num) :
  let lib := Grid.mkLib eps6 roundToStep_nearest f f f in
  let r1 := Grid.majorGrid_updateDataArray lib 100 square_grid in
  let r2 := Grid.majorGrid_updateDataArray lib 100 (fst r1) in
  snd r1 = Returned /\ snd r2 = Returned
  /\ hd NaN (Grid.dataX (Grid.majorGrid (fst r1))) = of_Z (-5)
  /\ hd NaN (Grid.dataX (Grid.majorGrid (fst r2)))
     = S754_finite true 5629499534213119 (-50).
Proof.
  cbv zeta. split; [vm_compute; reflexivity|].
  split; [vm_compute; reflexivity|].
  split; vm_compute; reflexivity.
Qed.

(** ** The cap on the number of grid elements *)

(** When the test on the number of grid elements fails, the loops of the
    major grid draw nothing and return. *)
Lemma major_rows_not_finite (L : Grid.Lib) (fuel0 : nat) (b : Grid.Board)
    (bbox : Grid.BBox) (fc : string) (d0 dx dy ib : bool)
    (s0 s1 rx ry sx : num) (n : nat) (y : num) (g : Grid.GridEl) :
  Grid.major_rows L fuel0 b bbox fc d0 dx dy ib false s0 s1 rx ry sx
    (S n) y g
  = (g, Returned).
Proof. reflexivity. Qed.

(** With the right border 5001 steps from the origin the test fails and
    nothing is drawn. *)
Example majorGrid_capped (f : num -> num) :
  let r :=
    Grid.majorGrid_updateDataArray (Grid.example_lib f) 1 wide_grid_capped in
  snd r = Returned
  /\ Grid.dataX (Grid.majorGrid (fst r)) = []
  /\ Grid.dataY (Grid.majorGrid (fst r)) = [].
Proof.
  cbv zeta. split; [vm_compute; reflexivity|].
  split; vm_compute; reflexivity.
Qed.

(** C7 fails in the code.  On [wide_grid] the bounding box spans 5002
    major steps from left to right, that is 5003 columns of grid points,
    and [majorGrid.updateDataArray] goes through all of them and draws the
    grid point at the origin: the test compares the right and the bottom
    border with 5000 steps, not the width and the height. *)
Theorem majorGrid_draws_past_cap (f : num -> num) :
  let bbox := Grid.getBoundingBox (Grid.board wide_grid) in
  let r :=
    Grid.majorGrid_updateDataArray (Grid.example_lib f) (Z.to_nat 6000)
      wide_grid in
  div (sub (Grid.bb2 bbox) (Grid.bb0 bbox)) (of_Z 1) = of_Z 5002
  /\ snd r = Returned
  /\ Grid.dataX (Grid.majorGrid (fst r)) = [of_Z 0; of_Z 0; NaN]
  /\ Grid.dataY (Grid.majorGrid (fst r)) = [of_Z 0; of_Z 0; NaN].
Proof.
  cbv zeta. split; [vm_compute; reflexivity|].
  split; [vm_compute; reflexivity|].
  split; [vm_compute; reflexivity|].
  vm_compute; reflexivity.
Qed.

(* ================================================================== *)
(** * Facts about [replaceSub] and [replaceSup] *)
(* ================================================================== *)

Section MarkupFacts.

Import JSString TextMarkup.
Local Open Scope string_scope.

Section StringFacts.

Lemma take_drop (n : nat) (s : string) : take n s ++ drop n s = s.
Proof.
  revert s; induction n as [|n IH]; intros [|c t]; simpl; auto.
  rewrite IH. reflexivity.
Qed.

Lemma take_app_length (p r : string) : take (String.length p) (p ++ r) = p.
Proof.
  induction p as [|c p IH]; simpl; [destruct r; reflexivity|].
  rewrite IH. reflexivity.
Qed.

Lemma drop_app_length (p r : string) : drop (String.length p) (p ++ r) = r.
Proof. induction p as [|c p IH]; simpl; auto. Qed.

Lemma string_length_app (s t : string) :
  String.length (s ++ t) = (String.length s + String.length t)%nat.
Proof. induction s as [|c s IH]; simpl; auto. Qed.

Lemma string_app_assoc (s t u : string) : (s ++ t) ++ u = s ++ t ++ u.
Proof. induction s as [|c s IH]; simpl; auto. rewrite IH. reflexivity. Qed.

Lemma count_app (c : ascii) (s t : string) :
  count c (s ++ t) = (count c s + count c t)%nat.
Proof. induction s as [|d s IH]; simpl; auto. rewrite IH. lia. Qed.

Lemma count_take_drop (c : ascii) (n : nat) (s : string) :
  (count c (take n s) + count c (drop n s))%nat = count c s.
Proof. rewrite <- count_app, take_drop. reflexivity. Qed.

Lemma prefix_split (p s : string) :
  starts_with p s = true -> s = p ++ drop (String.length p) s.
Proof.
  revert s; induction p as [|a p IH]; intros s H; simpl in *.
  - destruct s; reflexivity.
  - destruct s as [|b s]; [discriminate|].
    apply andb_prop in H. destruct H as [E H].
    apply Ascii.eqb_eq in E. subst b.
    simpl. f_equal. apply IH. exact H.
Qed.

Lemma prefix_app (p r : string) : starts_with p (p ++ r) = true.
Proof.
  induction p as [|a p IH]; simpl; [reflexivity|].
  rewrite Ascii.eqb_refl. exact IH.
Qed.

(** Where [find] finds the pattern, the pattern is. *)
Lemma find_some (pat s : string) :
  forall n : nat,
    find pat s = Some n -> starts_with pat (drop n s) = true.
Proof.
  induction s as [|c t IH]; intros n; simpl find.
  - destruct (starts_with pat "") eqn:E; intros H; [|discriminate].
    injection H as <-. exact E.
  - destruct (starts_with pat (String c t)) eqn:E; intros H.
    + injection H as <-. exact E.
    + destruct (find pat t) as [k|]; [|discriminate].
      injection H as <-. simpl. apply IH. reflexivity.
Qed.

Lemma find_cons (pat : string) (c : ascii) (t : string) :
  find pat (String c t)
  = if starts_with pat (String c t) then Some O
    else option_map S (find pat t).
Proof. reflexivity. Qed.

Lemma starts_with_cons (a b : ascii) (p t : string) :
  starts_with (String a p) (String b t) = Ascii.eqb a b && starts_with p t.
Proof. reflexivity. Qed.

(** A string without the character [m] holds no pattern that starts
    with it. *)
Lemma find_none (m : ascii) (x s : string) :
  count m s = O -> find (String m x) s = None.
Proof.
  induction s as [|c t IH]; simpl; auto.
  rewrite (Ascii.eqb_sym m c).
  destruct (Ascii.eqb c m); [discriminate|].
  intros H. simpl. rewrite IH by exact H. reflexivity.
Qed.

Lemma find_none_count (m : ascii) (s : string) :
  find (String m EmptyString) s = None -> count m s = O.
Proof.
  induction s as [|c t IH]; simpl; auto.
  rewrite (Ascii.eqb_sym m c).
  destruct (Ascii.eqb c m); simpl; [discriminate|].
  destruct (find _ t); [discriminate|]. intros _. apply IH. reflexivity.
Qed.

Lemma find_app_skip (m : ascii) (x p r : string) :
  count m p = O -> starts_with (String m x) r = true ->
  find (String m x) (p ++ r) = Some (String.length p).
Proof.
  intros Hc Hp. induction p as [|c p IH].
  - simpl append. destruct r as [|d r]; [discriminate Hp|].
    unfold find; fold find. rewrite Hp. reflexivity.
  - simpl in Hc. simpl append. unfold find; fold find.
    cbn [starts_with]. rewrite (Ascii.eqb_sym m c).
    destruct (Ascii.eqb c m); [discriminate Hc|].
    cbn [andb]. rewrite IH by exact Hc. reflexivity.
Qed.

Lemma count_drop_le (c : ascii) (n : nat) (s : string) :
  (count c (drop n s) <= count c s)%nat.
Proof. rewrite <- (count_take_drop c n s). lia. Qed.

(** Replacing a pattern by a text without [c] adds no [c]. *)
Lemma count_replace_le (c : ascii) (pat rep s : string) :
  count c rep = O -> (count c (replace pat rep s) <= count c s)%nat.
Proof.
  intros Hr. induction s as [|d t IH]; unfold replace; fold replace.
  - destruct (starts_with pat ""); [|simpl; lia].
    rewrite count_app, Hr. apply count_drop_le.
  - destruct (starts_with pat (String d t)).
    + rewrite count_app, Hr. apply count_drop_le.
    + simpl. lia.
Qed.

(** Replacing a pattern without [c] by a text without [c] keeps the
    number of [c]. *)
Lemma count_replace_eq (c : ascii) (pat rep s : string) :
  count c pat = O -> count c rep = O ->
  count c (replace pat rep s) = count c s.
Proof.
  intros Hp Hr. induction s as [|d t IH]; unfold replace; fold replace.
  - destruct (starts_with pat "") eqn:E; [|reflexivity].
    rewrite (prefix_split _ _ E) at 2. rewrite !count_app, Hp, Hr.
    reflexivity.
  - destruct (starts_with pat (String d t)) eqn:E.
    + rewrite (prefix_split _ _ E) at 2. rewrite !count_app, Hp, Hr.
      reflexivity.
    + simpl. rewrite IH. reflexivity.
Qed.

Lemma replace_prefix (pat rep r : string) :
  replace pat rep (pat ++ r) = rep ++ r.
Proof.
  destruct (pat ++ r) as [|d t] eqn:E; unfold replace; fold replace;
    rewrite <- E, prefix_app, drop_app_length; reflexivity.
Qed.

Lemma replace_app_skip (m : ascii) (x rep p r : string) :
  count m p = O ->
  replace (String m x) rep (p ++ String m x ++ r) = p ++ rep ++ r.
Proof.
  intros Hc. induction p as [|c p IH].
  - change ("" ++ String m x ++ r) with (String m x ++ r).
    change ("" ++ rep ++ r) with (rep ++ r).
    apply (replace_prefix (String m x)).
  - simpl in Hc.
    change (String c p ++ String m x ++ r)
      with (String c (p ++ String m x ++ r)).
    unfold replace; fold replace.
    cbn [starts_with]. rewrite (Ascii.eqb_sym m c).
    destruct (Ascii.eqb c m); [discriminate Hc|].
    cbn [andb]. rewrite IH by exact Hc. reflexivity.
Qed.

Lemma replace_from (m : ascii) (x rep u r : string) :
  count m u = O ->
  forall j : nat,
    (j <= String.length u)%nat ->
    take j (u ++ String m x ++ r)
      ++ replace (String m x) rep (drop j (u ++ String m x ++ r))
    = u ++ rep ++ r.
Proof.
  induction u as [|c u IH]; intros Hc j Hj.
  - simpl in Hj. assert (j = O) by lia. subst j.
    exact (replace_app_skip m x rep "" r eq_refl).
  - destruct j as [|j].
    + exact (replace_app_skip m x rep (String c u) r Hc).
    + simpl in Hc, Hj.
      change (String c u ++ String m x ++ r)
        with (String c (u ++ String m x ++ r)).
      cbn [take drop].
      change (String c u ++ rep ++ r) with (String c (u ++ rep ++ r)).
      change (String c (take j (u ++ String m x ++ r))
              ++ replace (String m x) rep (drop j (u ++ String m x ++ r)))
        with (String c (take j (u ++ String m x ++ r)
              ++ replace (String m x) rep (drop j (u ++ String m x ++ r)))).
      f_equal. apply IH; [|lia].
      destruct (Ascii.eqb c m); [discriminate Hc | exact Hc].
Qed.

Lemma count_replace_with_next_eq (c m : ascii) (open close s : string) :
  c <> m -> count c open = O -> count c close = O ->
  count c (replace_with_next m open close s) = count c s.
Proof.
  intros N Ho Hc. induction s as [|d t IH]; simpl; auto.
  destruct (Ascii.eqb_spec d m) as [->|Nd].
  - destruct (Ascii.eqb_spec m c) as [E|_]; [congruence|].
    destruct t as [|e t'].
    + rewrite count_app, Ho, Hc. reflexivity.
    + destruct (lineTerminator e).
      * rewrite !count_app, Ho, Hc. reflexivity.
      * rewrite count_app, Ho. simpl. rewrite count_app, Hc. reflexivity.
  - simpl. rewrite IH. reflexivity.
Qed.

End StringFacts.

Section ScriptFacts.

Variable m : ascii.
Variables open close : string.
Hypothesis open_clean : count m open = O.
Hypothesis close_clean : count m close = O.
Hypothesis m_not_brace : m <> "}"%char.

Lemma braces_loop_S (n : nat) (te : string) :
  braces_loop m open close (S n) te
  = let i := indexOf te (marker_brace m) in
    if (0 <=? i)%Z then
      let te1 :=
        substr_to te i ++ replace (marker_brace m) open (substr te i) in
      let j := indexOf (substr te1 i) "}" in
      braces_loop m open close n
        (if (0 <=? j)%Z
         then substr_to te1 j ++ replace "}" close (substr te1 j)
         else te1)
    else Some te.
Proof. reflexivity. Qed.

Lemma marker_loop_S (n : nat) (te : string) :
  marker_loop m open close (S n) te
  = let i := indexOf te (marker m) in
    if (0 <=? i)%Z then
      marker_loop m open close n
        (substr_to te i ++ replace_with_next m open close (substr te i))
    else Some te.
Proof. reflexivity. Qed.

Lemma count_one (c d : ascii) :
  c <> d -> count c (String d EmptyString) = O.
Proof.
  intros N. cbn [count].
  replace (Ascii.eqb d c) with false
    by (symmetry; apply Ascii.eqb_neq; congruence).
  reflexivity.
Qed.

(** One iteration of the first loop. *)
Lemma braces_step (te : string) (i : nat) :
  find (marker_brace m) te = Some i ->
  let te1 :=
    substr_to te (Z.of_nat i)
      ++ replace (marker_brace m) open (substr te (Z.of_nat i)) in
  let j := indexOf (substr te1 (Z.of_nat i)) "}" in
  let te2 :=
    if (0 <=? j)%Z
    then substr_to te1 j ++ replace "}" close (substr te1 j)
    else te1 in
  (count m te2 < count m te)%nat
  /\ forall c : ascii, kept m open close c -> count c te2 = count c te.
Proof.
  intros H. cbv zeta. unfold substr_to, substr. rewrite Nat2Z.id.
  pose proof (prefix_split _ _ (find_some _ _ H)) as E.
  remember (drop (String.length (marker_brace m)) (drop i te)) as rest.
  rewrite E, replace_prefix.
  assert (T : te = take i te ++ marker_brace m ++ rest)
    by (rewrite <- E; symmetry; apply take_drop).
  remember (take i te) as pre. clear Heqpre Heqrest E H.
  remember (pre ++ open ++ rest) as te1.
  assert (C1 : (count m te1 < count m te)%nat).
  { rewrite T, Heqte1, !count_app, open_clean.
    unfold marker_brace. cbn [count]. rewrite Ascii.eqb_refl. lia. }
  assert (K1 : forall c, kept m open close c -> count c te1 = count c te).
  { intros c [Nm [No [Nc [Ko Kc]]]].
    rewrite T, Heqte1, !count_app, Ko. unfold marker_brace. cbn [count].
    replace (Ascii.eqb m c) with false
      by (symmetry; apply Ascii.eqb_neq; congruence).
    replace (Ascii.eqb "{"%char c) with false
      by (symmetry; apply Ascii.eqb_neq; congruence).
    reflexivity. }
  clear Heqte1 T.
  destruct (0 <=? _)%Z; [|split; assumption].
  remember (Z.to_nat _) as j. clear Heqj. split.
  - apply Nat.le_lt_trans with (count m te1); [|exact C1].
    rewrite count_app, <- (count_take_drop m j te1).
    pose proof (@count_replace_le m "}" close (drop j te1) close_clean).
    lia.
  - intros c K. rewrite <- (K1 c K). destruct K as [_ [_ [Nc [_ Kc]]]].
    rewrite count_app, <- (count_take_drop c j te1). f_equal.
    apply count_replace_eq; [|exact Kc].
    apply count_one. exact Nc.
Qed.

Lemma braces_loop_total (n : nat) :
  forall te : string,
    (count m te <= n)%nat ->
    exists r : string,
      braces_loop m open close n te = Some r
      /\ (count m r <= count m te)%nat
      /\ forall c : ascii, kept m open close c -> count c r = count c te.
Proof.
  induction n as [|n IH]; intros te Hn.
  - exists te. unfold braces_loop, indexOf, marker_brace.
    rewrite find_none; [auto|lia].
  - destruct (find (marker_brace m) te) as [i|] eqn:F.
    2:{ exists te. unfold braces_loop, indexOf. rewrite F. auto. }
    + assert (I : indexOf te (marker_brace m) = Z.of_nat i)
        by (unfold indexOf; rewrite F; reflexivity).
      rewrite braces_loop_S. cbv zeta. rewrite !I.
      replace (0 <=? Z.of_nat i)%Z with true
        by (symmetry; apply Z.leb_le; lia).
      pose proof (braces_step _ F) as S. cbv zeta in S.
      destruct S as [C K].
      match type of C with (count m ?t < _)%nat =>
        destruct (IH t) as [r [R [RC RK]]]; [lia|];
        exists r; split; [exact R | split]
      end.
      * lia.
      * intros c Kc. rewrite (RK c Kc). apply (K c Kc).
Qed.

(** One iteration of the second loop. *)
Lemma marker_step (te : string) (i : nat) :
  find (marker m) te = Some i ->
  let te' :=
    substr_to te (Z.of_nat i)
      ++ replace_with_next m open close (substr te (Z.of_nat i)) in
  (count m te' < count m te)%nat
  /\ forall c : ascii, kept m open close c -> count c te' = count c te.
Proof.
  intros H. cbv zeta. unfold substr_to, substr. rewrite Nat2Z.id.
  pose proof (prefix_split _ _ (find_some _ _ H)) as E.
  unfold marker in E. cbn [String.length append] in E.
  remember (drop 1 (drop i te)) as rest.
  assert (T : te = take i te ++ String m rest)
    by (rewrite <- E; symmetry; apply take_drop).
  rewrite E. remember (take i te) as pre. clear Heqpre Heqrest E H.
  split.
  - rewrite T, !count_app. apply Nat.add_lt_mono_l.
    unfold replace_with_next. rewrite Ascii.eqb_refl.
    destruct rest as [|d t'].
    + rewrite count_app, open_clean, close_clean. cbn [count].
      rewrite Ascii.eqb_refl. lia.
    + destruct (lineTerminator d).
      * rewrite !count_app, open_clean, close_clean. cbn [count].
        rewrite Ascii.eqb_refl. lia.
      * rewrite count_app, open_clean. cbn [count].
        rewrite count_app, close_clean, Ascii.eqb_refl. lia.
  - intros c [Nm [_ [_ [Ko Kc]]]].
    rewrite T, !count_app. f_equal.
    apply count_replace_with_next_eq; assumption.
Qed.

Lemma marker_loop_total (n : nat) :
  forall te : string,
    (count m te <= n)%nat ->
    exists r : string,
      marker_loop m open close n te = Some r
      /\ count m r = O
      /\ forall c : ascii, kept m open close c -> count c r = count c te.
Proof.
  induction n as [|n IH]; intros te Hn.
  - exists te. unfold marker_loop, indexOf, marker.
    rewrite find_none; [split; [reflexivity | split; [lia | auto]] | lia].
  - destruct (find (marker m) te) as [i|] eqn:F.
    2:{ exists te. unfold marker_loop, indexOf. rewrite F.
        split; [reflexivity | split; [|auto]].
        apply find_none_count. exact F. }
    + assert (I : indexOf te (marker m) = Z.of_nat i)
        by (unfold indexOf; rewrite F; reflexivity).
      rewrite marker_loop_S. cbv zeta. rewrite !I.
      replace (0 <=? Z.of_nat i)%Z with true
        by (symmetry; apply Z.leb_le; lia).
      pose proof (marker_step _ F) as S. cbv zeta in S.
      destruct S as [C K].
      match type of C with (count m ?t < _)%nat =>
        destruct (IH t) as [r [R [RC RK]]]; [lia|];
        exists r; split; [exact R | split; [exact RC|]]
      end.
      intros c Kc. rewrite (RK c Kc). apply (K c Kc).
Qed.

Lemma replaceScript_total (n : nat) (te : string) :
  (count m te <= n)%nat ->
  exists r : string,
    replaceScript m open close n te = Some r
    /\ count m r = O
    /\ forall c : ascii, kept m open close c -> count c r = count c te.
Proof.
  intros Hn. unfold replaceScript.
  destruct (braces_loop_total te Hn) as [r1 [R1 [C1 K1]]].
  rewrite R1.
  destruct (@marker_loop_total n r1) as [r [R [C K]]]; [lia|].
  exists r. split; [exact R | split; [exact C|]].
  intros c Kc. rewrite (K c Kc). apply (K1 c Kc).
Qed.

Lemma replaceScript_unmarked (n : nat) (te : string) :
  count m te = O -> replaceScript m open close n te = Some te.
Proof.
  intros H. unfold replaceScript.
  assert (B : braces_loop m open close n te = Some te).
  { destruct n; unfold braces_loop, indexOf, marker_brace;
      rewrite find_none; auto. }
  rewrite B.
  destruct n; unfold marker_loop, indexOf, marker; rewrite find_none; auto.
Qed.

(** A single group in braces in a text without another marker: the
    closing tag takes the place of the first closing brace found from the
    position [j] of the whole text, where [j] is the distance of the
    closing brace of the group from the marker after the opening tag has
    been put in. *)
Lemma replaceScript_group_from (n : nat) (p s q U V : string) :
  count m p = O -> count m s = O -> count m q = O ->
  count "}"%char s = O -> count "}"%char open = O ->
  p ++ open ++ s ++ "}" ++ q = U ++ "}" ++ V ->
  count "}"%char U = O ->
  (String.length (open ++ s) <= String.length U)%nat ->
  replaceScript m open close (S n) (p ++ marker_brace m ++ s ++ "}" ++ q)
  = Some (U ++ close ++ V).
Proof.
  intros Hp Hs Hq Bs Bo E BU LU.
  assert (Z : count m (U ++ close ++ V) = O).
  { assert (Z0 : count m (U ++ "}" ++ V) = O)
      by (rewrite <- E, !count_app, Hp, Hs, Hq, open_clean;
          cbn [count]; destruct (Ascii.eqb "}"%char m) eqn:B;
          [apply Ascii.eqb_eq in B; congruence | reflexivity]).
    rewrite !count_app in Z0. rewrite !count_app, close_clean. lia. }
  unfold replaceScript.
  assert (B : braces_loop m open close (S n)
                (p ++ marker_brace m ++ s ++ "}" ++ q)
              = Some (U ++ close ++ V)).
  { assert (I : indexOf (p ++ marker_brace m ++ s ++ "}" ++ q)
                  (marker_brace m)
                = Z.of_nat (String.length p)).
    { unfold indexOf, marker_brace.
      rewrite (@find_app_skip m "{" p _ Hp); [reflexivity|].
      apply (prefix_app (String m "{")). }
    assert (J : indexOf (open ++ s ++ "}" ++ q) "}"
                = Z.of_nat (String.length (open ++ s))).
    { unfold indexOf. rewrite <- string_app_assoc.
      rewrite (@find_app_skip "}"%char "" (open ++ s)); [reflexivity| |].
      - rewrite count_app, Bo, Bs. reflexivity.
      - reflexivity. }
    rewrite braces_loop_S. cbv zeta. rewrite !I.
    replace (0 <=? Z.of_nat (String.length p))%Z with true
      by (symmetry; apply Z.leb_le; lia).
    unfold substr_to, substr. rewrite !Nat2Z.id.
    rewrite take_app_length, !drop_app_length, replace_prefix.
    rewrite ?drop_app_length, !J.
    replace (0 <=? Z.of_nat (String.length (open ++ s)))%Z with true
      by (symmetry; apply Z.leb_le; lia).
    rewrite !Nat2Z.id, E.
    rewrite (@replace_from "}"%char "" close U V BU _ LU).
    destruct n; unfold braces_loop, indexOf, marker_brace;
      rewrite find_none; auto. }
  rewrite B.
  unfold marker_loop, indexOf, marker. rewrite find_none; auto.
Qed.

(** A single character after the marker. *)
Lemma replaceScript_single (n : nat) (p q : string) (d : ascii) :
  count m p = O -> count m q = O ->
  d <> m -> d <> "{"%char -> lineTerminator d = false ->
  replaceScript m open close (S n) (p ++ String m (String d q))
  = Some (p ++ open ++ String d (close ++ q)).
Proof.
  intros Hp Hq Nm Nb Nl.
  assert (Hd : count m (String d q) = O).
  { cbn [count]. replace (Ascii.eqb d m) with false
      by (symmetry; apply Ascii.eqb_neq; exact Nm).
    exact Hq. }
  assert (Z : count m (p ++ open ++ String d (close ++ q)) = O).
  { rewrite !count_app. cbn [count]. rewrite count_app.
    replace (Ascii.eqb d m) with false
      by (symmetry; apply Ascii.eqb_neq; exact Nm).
    rewrite Hp, Hq, open_clean, close_clean. reflexivity. }
  assert (F : find (marker_brace m) (p ++ String m (String d q)) = None).
  { clear Z. unfold marker_brace. induction p as [|c p IH].
    - change ("" ++ String m (String d q)) with (String m (String d q)).
      rewrite find_cons, !starts_with_cons.
      replace (Ascii.eqb "{"%char d) with false
        by (symmetry; apply Ascii.eqb_neq; congruence).
      rewrite andb_false_r.
      rewrite (find_none m "{" (String d q) Hd). reflexivity.
    - cbn [count] in Hp.
      change (String c p ++ String m (String d q))
        with (String c (p ++ String m (String d q))).
      rewrite find_cons, starts_with_cons, (Ascii.eqb_sym m c).
      destruct (Ascii.eqb c m); [discriminate Hp|].
      cbn [andb]. rewrite IH by exact Hp. reflexivity. }
  unfold replaceScript.
  assert (B : braces_loop m open close (S n) (p ++ String m (String d q))
              = Some (p ++ String m (String d q))).
  { rewrite braces_loop_S. cbv zeta. unfold indexOf. rewrite F.
    reflexivity. }
  rewrite B, marker_loop_S. cbv zeta.
  assert (I : indexOf (p ++ String m (String d q)) (marker m)
              = Z.of_nat (String.length p)).
  { unfold indexOf, marker.
    rewrite (@find_app_skip m "" p _ Hp); [reflexivity|].
    cbn [starts_with]. rewrite Ascii.eqb_refl. reflexivity. }
  rewrite !I.
  replace (0 <=? Z.of_nat (String.length p))%Z with true
    by (symmetry; apply Z.leb_le; lia).
  unfold substr_to, substr. rewrite !Nat2Z.id.
  rewrite take_app_length, drop_app_length.
  cbn [replace_with_next]. rewrite Ascii.eqb_refl, Nl.
  destruct n; unfold marker_loop, indexOf, marker; rewrite find_none; auto.
Qed.

End ScriptFacts.

(** ** [replaceSub] and [replaceSup] *)

Lemma sub_kept (c : ascii) :
  In c (list_ascii_of_string "_{}<>/sub") \/ kept "_" "<sub>" "</sub>" c.
Proof.
  destruct (in_dec ascii_dec c (list_ascii_of_string "_{}<>/sub")) as [H|H];
    [left; exact H | right].
  unfold kept. cbn [list_ascii_of_string In] in H.
  repeat split.
  1-3: intros E; apply H; rewrite E; tauto.
  all: cbn [count];
    repeat match goal with
    | |- context [Ascii.eqb ?a ?b] =>
        replace (Ascii.eqb a b) with false
          by (symmetry; apply Ascii.eqb_neq; intros E; apply H;
              rewrite <- E; tauto)
    end; reflexivity.
Qed.

Lemma sup_kept (c : ascii) :
  In c (list_ascii_of_string "^{}<>/sup") \/ kept "^" "<sup>" "</sup>" c.
Proof.
  destruct (in_dec ascii_dec c (list_ascii_of_string "^{}<>/sup")) as [H|H];
    [left; exact H | right].
  unfold kept. cbn [list_ascii_of_string In] in H.
  repeat split.
  1-3: intros E; apply H; rewrite E; tauto.
  all: cbn [count];
    repeat match goal with
    | |- context [Ascii.eqb ?a ?b] =>
        replace (Ascii.eqb a b) with false
          by (symmetry; apply Ascii.eqb_neq; intros E; apply H;
              rewrite <- E; tauto)
    end; reflexivity.
Qed.

(** X1.  [replaceSub] and [replaceSup] always return, after at most as many
    iterations of each loop as the text has markers; the result holds no
    marker, a text without a marker is returned as it is, and a character
    that is neither the marker, a brace nor a character of the two tags
    occurs as often in the result as in the text. *)
Theorem replaceSub_replaceSup_return (te : string) (k : nat) :
  (exists r : string,
      replaceSub (count "_" te + k) te = Some r
      /\ count "_" r = O
      /\ (count "_" te = O -> r = te)
      /\ forall c : ascii,
           ~ In c (list_ascii_of_string "_{}<>/sub") ->
           count c r = count c te)
  /\ (exists r : string,
         replaceSup (count "^" te + k) te = Some r
         /\ count "^" r = O
         /\ (count "^" te = O -> r = te)
         /\ forall c : ascii,
              ~ In c (list_ascii_of_string "^{}<>/sup") ->
              count c r = count c te).
Proof.
  split.
  - destruct (@replaceScript_total "_" "<sub>" "</sub>" eq_refl eq_refl
                (count "_" te + k) te) as [r [R [C K]]]; [lia|].
    exists r. split; [exact R | split; [exact C | split]].
    + intros Z. unfold replaceSub in R.
      rewrite (@replaceScript_unmarked "_" "<sub>" "</sub>" _ te Z) in R.
      congruence.
    + intros c N. apply K. destruct (sub_kept c); tauto.
  - destruct (@replaceScript_total "^" "<sup>" "</sup>" eq_refl eq_refl
                (count "^" te + k) te) as [r [R [C K]]]; [lia|].
    exists r. split; [exact R | split; [exact C | split]].
    + intros Z. unfold replaceSup in R.
      rewrite (@replaceScript_unmarked "^" "<sup>" "</sup>" _ te Z) in R.
      congruence.
    + intros c N. apply K. destruct (sup_kept c); tauto.
Qed.

(** X2.  The composition [replaceSub(replaceSup(te))] that [updateText] and
    [generateTerm] apply returns a text with neither marker. *)
Theorem replaceSub_after_replaceSup (te : string) (k : nat) :
  exists r1 r2 : string,
    replaceSup (count "^" te + k) te = Some r1
    /\ replaceSub (count "_" te + k) r1 = Some r2
    /\ count "^" r2 = O /\ count "_" r2 = O.
Proof.
  destruct (@replaceScript_total "^" "<sup>" "</sup>" eq_refl eq_refl
              (count "^" te + k) te) as [r1 [R1 [C1 K1]]]; [lia|].
  assert (U : count "_" r1 = count "_" te).
  { apply K1. destruct (sup_kept "_") as [H|H]; [|exact H].
    cbn in H. repeat destruct H as [H|H]; try discriminate H; tauto. }
  destruct (@replaceScript_total "_" "<sub>" "</sub>" eq_refl eq_refl
              (count "_" te + k) r1) as [r2 [R2 [C2 K2]]]; [lia|].
  exists r1, r2. split; [exact R1 | split; [exact R2 | split; [|exact C2]]].
  rewrite <- C1. apply K2. destruct (sub_kept "^") as [H|H]; [|exact H].
  cbn in H. repeat destruct H as [H|H]; try discriminate H; tauto.
Qed.

(** X3.  One group in braces.  In a text [p _{ s } q] where [p], [s] and [q]
    hold no marker and [p] and [s] hold no closing brace, [replaceSub]
    puts [s] between the two tags; and so does [replaceSup] with [^]. *)
Theorem replaceSub_replaceSup_group (p s q : string) (n : nat) :
  count "}" p = O -> count "}" s = O ->
  (count "_" p = O -> count "_" s = O -> count "_" q = O ->
   replaceSub (S n) (p ++ "_{" ++ s ++ "}" ++ q)
   = Some (p ++ "<sub>" ++ s ++ "</sub>" ++ q))
  /\ (count "^" p = O -> count "^" s = O -> count "^" q = O ->
      replaceSup (S n) (p ++ "^{" ++ s ++ "}" ++ q)
      = Some (p ++ "<sup>" ++ s ++ "</sup>" ++ q)).
Proof.
  intros Bp Bs. split; intros Hp Hs Hq.
  - replace (p ++ "<sub>" ++ s ++ "</sub>" ++ q)
      with ((p ++ "<sub>" ++ s) ++ "</sub>" ++ q)
      by (rewrite !string_app_assoc; reflexivity).
    apply (@replaceScript_group_from "_" "<sub>" "</sub>" eq_refl eq_refl
             ltac:(discriminate) n p s q); auto.
    + rewrite !string_app_assoc. reflexivity.
    + rewrite !count_app, Bp, Bs. reflexivity.
    + rewrite !string_length_app. lia.
  - replace (p ++ "<sup>" ++ s ++ "</sup>" ++ q)
      with ((p ++ "<sup>" ++ s) ++ "</sup>" ++ q)
      by (rewrite !string_app_assoc; reflexivity).
    apply (@replaceScript_group_from "^" "<sup>" "</sup>" eq_refl eq_refl
             ltac:(discriminate) n p s q); auto.
    + rewrite !string_app_assoc. reflexivity.
    + rewrite !count_app, Bp, Bs. reflexivity.
    + rewrite !string_length_app. lia.
Qed.

Lemma replaceSub_replaceSup_group_witness :
  count "}" "x" = O /\ count "}" "12" = O
  /\ replaceSub 1 "x_{12} + y" = Some "x<sub>12</sub> + y"
  /\ replaceSup 1 "x^{12} + y" = Some "x<sup>12</sup> + y".
Proof.
  split; [reflexivity | split; [reflexivity |]].
  destruct (@replaceSub_replaceSup_group "x" "12" " + y" 0 eq_refl eq_refl)
    as [H1 H2].
  split; [exact (H1 eq_refl eq_refl eq_refl)
         | exact (H2 eq_refl eq_refl eq_refl)].
Defined.

(** X4.  A closing brace before the group.  In a text [u } w _{ s } q]
    without another marker, where [u] and [s] hold no closing brace and
    [u] is at least as long as [s] and the opening tag together,
    [replaceSub] puts the closing tag in the place of the brace after [u]
    and leaves the brace of the group; and so does [replaceSup]. *)
Theorem replaceSub_replaceSup_early (u w s q : string) (n : nat) :
  count "}" u = O -> count "}" s = O ->
  (5 + String.length s <= String.length u)%nat ->
  (count "_" (u ++ "}" ++ w) = O -> count "_" s = O -> count "_" q = O ->
   replaceSub (S n) ((u ++ "}" ++ w) ++ "_{" ++ s ++ "}" ++ q)
   = Some (u ++ "</sub>" ++ w ++ "<sub>" ++ s ++ "}" ++ q))
  /\ (count "^" (u ++ "}" ++ w) = O -> count "^" s = O -> count "^" q = O ->
      replaceSup (S n) ((u ++ "}" ++ w) ++ "^{" ++ s ++ "}" ++ q)
      = Some (u ++ "</sup>" ++ w ++ "<sup>" ++ s ++ "}" ++ q)).
Proof.
  intros Bu Bs Hl. split; intros Hp Hs Hq.
  - apply (@replaceScript_group_from "_" "<sub>" "</sub>" eq_refl eq_refl
             ltac:(discriminate) n (u ++ "}" ++ w) s q); auto.
    rewrite !string_app_assoc. reflexivity.
  - apply (@replaceScript_group_from "^" "<sup>" "</sup>" eq_refl eq_refl
             ltac:(discriminate) n (u ++ "}" ++ w) s q); auto.
    rewrite !string_app_assoc. reflexivity.
Qed.

Lemma replaceSub_replaceSup_early_witness :
  count "}" "f(x) = " = O
  /\ replaceSub 1 "f(x) = } a_{1}" = Some "f(x) = </sub> a<sub>1}"
  /\ replaceSup 1 "f(x) = } a^{1}" = Some "f(x) = </sup> a<sup>1}".
Proof.
  split; [reflexivity |].
  destruct (@replaceSub_replaceSup_early "f(x) = " " a" "1" "" 0
              eq_refl eq_refl ltac:(simpl; lia)) as [H1 H2].
  split; [exact (H1 eq_refl eq_refl eq_refl)
         | exact (H2 eq_refl eq_refl eq_refl)].
Defined.

(** X5.  One character after the marker.  In a text [p _ d q] without
    another marker, where the character [d] is neither an opening brace
    nor the end of a line, [replaceSub] puts [d] between the two tags; and
    so does [replaceSup] with [^]. *)
Theorem replaceSub_replaceSup_single (p q : string) (d : ascii) (n : nat) :
  d <> "{"%char -> lineTerminator d = false ->
  (count "_" p = O -> count "_" q = O -> d <> "_"%char ->
   replaceSub (S n) (p ++ String "_" (String d q))
   = Some (p ++ "<sub>" ++ String d ("</sub>" ++ q)))
  /\ (count "^" p = O -> count "^" q = O -> d <> "^"%char ->
      replaceSup (S n) (p ++ String "^" (String d q))
      = Some (p ++ "<sup>" ++ String d ("</sup>" ++ q))).
Proof.
  intros Nb Nl. split; intros Hp Hq Nm.
  - apply (@replaceScript_single "_" "<sub>" "</sub>" eq_refl eq_refl);
      assumption.
  - apply (@replaceScript_single "^" "<sup>" "</sup>" eq_refl eq_refl);
      assumption.
Qed.

Lemma replaceSub_replaceSup_single_witness :
  lineTerminator "1" = false
  /\ replaceSub 1 "x_1 + y" = Some "x<sub>1</sub> + y"
  /\ replaceSup 1 "x^1 + y" = Some "x<sup>1</sup> + y".
Proof.
  split; [reflexivity |].
  destruct (@replaceSub_replaceSup_single "x" " + y" "1" 0
              ltac:(discriminate) eq_refl) as [H1 H2].
  split; [exact (H1 eq_refl eq_refl ltac:(discriminate))
         | exact (H2 eq_refl eq_refl ltac:(discriminate))].
Defined.

Lemma indexOf_none (s pat : string) :
  indexOf s pat = (-1)%Z <-> find pat s = None.
Proof.
  unfold indexOf. destruct (find pat s) as [n|]; split; intros H;
    try reflexivity; try discriminate; lia.
Qed.

Lemma find_none_cons (pat : string) (c : ascii) (t : string) :
  find pat (String c t) = None ->
  starts_with pat (String c t) = false /\ find pat t = None.
Proof.
  rewrite find_cons. destruct (starts_with pat (String c t)).
  - discriminate.
  - destruct (find pat t); [discriminate|]. auto.
Qed.

Lemma replace_all_from_cons (pat rep : string) (c : ascii) (t : string) :
  replace_all_from O pat rep (String c t)
  = if starts_with pat (String c t)
    then rep ++ replace_all_from (String.length pat - 1) pat rep t
    else String c (replace_all_from O pat rep t).
Proof. reflexivity. Qed.

(** A text without the first character of the replacement that starts
    the result of a replacement starts the text as well. *)
Lemma replace_all_prefix (r : ascii) (R' Q : string) :
  forall s X : string,
    count r X = O ->
    starts_with X (replace_all_from O Q (String r R') s) = true ->
    starts_with X s = true.
Proof.
  induction s as [|c t IH]; intros X C H.
  - exact H.
  - rewrite replace_all_from_cons in H.
    destruct X as [|x X']; [reflexivity|].
    cbn [count] in C.
    destruct (Ascii.eqb_spec x r) as [E|E]; [discriminate C|].
    destruct (starts_with Q (String c t)).
    + cbn [append] in H. rewrite starts_with_cons in H.
      apply andb_prop in H. destruct H as [H _].
      apply Ascii.eqb_eq in H. contradiction.
    + rewrite starts_with_cons in H |- *.
      apply andb_prop in H. destruct H as [H1 H2].
      rewrite H1. cbn [andb]. apply IH; [exact C | exact H2].
Qed.

(** No pattern starts inside a text that lacks its first character. *)
Lemma find_none_app (p : ascii) (P' R2 t : string) :
  count p R2 = O -> find (String p P') t = None ->
  find (String p P') (R2 ++ t) = None.
Proof.
  intros C H. induction R2 as [|c R2 IH]; [exact H|].
  cbn [count] in C. cbn [append]. rewrite find_cons, starts_with_cons.
  destruct (Ascii.eqb_spec c p) as [E|E]; [discriminate C|].
  replace (Ascii.eqb p c) with false
    by (symmetry; apply Ascii.eqb_neq; congruence).
  cbn [andb]. rewrite IH; [reflexivity | exact C].
Qed.

(** Replacing every [Q] by [R] leaves no [Q], and brings in no pattern
    [P] that was not there, when [P] and [R] cannot overlap: [P] does not
    start [R], and the first character of each occurs nowhere else in the
    other. *)
Lemma replace_all_from_clean (p r : ascii) (P' R' Q : string) :
  (forall t : string,
      starts_with (String p P') (String r R' ++ t) = false) ->
  count r P' = O -> count p R' = O ->
  forall (s : string) (k : nat),
    find (String p P') s = None \/ String p P' = Q ->
    find (String p P') (replace_all_from k Q (String r R') s) = None.
Proof.
  intros A B C. induction s as [|c t IH]; intros k H.
  - reflexivity.
  - assert (Ht : find (String p P') t = None \/ String p P' = Q).
    { destruct H as [H|H]; [left|right; exact H].
      apply find_none_cons in H. apply H. }
    destruct k as [|k]; [|exact (IH k Ht)].
    rewrite replace_all_from_cons.
    destruct (starts_with Q (String c t)) eqn:M.
    + cbn [append]. rewrite find_cons.
      change (String r (R' ++ ?x)) with (String r R' ++ x).
      rewrite A.
      rewrite (@find_none_app p P' R' _ C (IH _ Ht)). reflexivity.
    + rewrite find_cons.
      destruct (starts_with (String p P')
                  (String c (replace_all_from 0 Q (String r R') t)))
        eqn:S1.
      * exfalso. rewrite starts_with_cons in S1.
        apply andb_prop in S1. destruct S1 as [S1 S2].
        apply replace_all_prefix in S2; [|exact B].
        assert (S3 : starts_with (String p P') (String c t) = true)
          by (rewrite starts_with_cons, S1, S2; reflexivity).
        destruct H as [H|H].
        -- apply find_none_cons in H. destruct H as [H _].
           rewrite H in S3. discriminate.
        -- rewrite H in S3. rewrite M in S3. discriminate.
      * rewrite (IH 0%nat Ht). reflexivity.
Qed.

Lemma replace_all_clean (p r : ascii) (P' R' Q s : string) :
  (forall t : string,
      starts_with (String p P') (String r R' ++ t) = false) ->
  count r P' = O -> count p R' = O ->
  find (String p P') s = None \/ String p P' = Q ->
  find (String p P') (replace_all Q (String r R') s) = None.
Proof. intros A B C H. apply replace_all_from_clean; assumption. Qed.

(** A text without the pattern is left as it is. *)
Lemma replace_all_absent (Q R s : string) :
  find Q s = None -> replace_all Q R s = s.
Proof.
  unfold replace_all. induction s as [|c t IH]; intros H; [reflexivity|].
  apply find_none_cons in H. destruct H as [H1 H2].
  rewrite replace_all_from_cons, H1, (IH H2). reflexivity.
Qed.

Ltac clean_step :=
  first
    [ solve [apply replace_all_clean;
             [intros; reflexivity | reflexivity | reflexivity
             | right; reflexivity]]
    | apply replace_all_clean;
      [intros; reflexivity | reflexivity | reflexivity | left] ].

Lemma convertGeonext2CSS_clean (s tag : string) :
  In tag geonext_tags -> find tag (convertGeonext2CSS s) = None.
Proof.
  unfold geonext_tags, convertGeonext2CSS. cbv zeta. cbn [In].
  intros [E|[E|[E|[E|[E|[E|[E|[E|[]]]]]]]]]; subst tag; repeat clean_step.
Qed.

Lemma convertGeonext2CSS_absent (s : string) :
  (forall tag : string, In tag geonext_tags -> find tag s = None) ->
  convertGeonext2CSS s = s.
Proof.
  intros H. unfold convertGeonext2CSS. cbv zeta.
  repeat match goal with
         | |- context [replace_all ?Q ?R s] =>
             rewrite (@replace_all_absent Q R s)
               by (apply H; unfold geonext_tags; cbn [In]; tauto)
         end.
  reflexivity.
Qed.

(** X26.  [convertGeonext2CSS] leaves none of the eight tags that it looks
    for: no statement brings back a tag that an earlier one has replaced.
    The texts that it returns as they are are those without any of the
    tags, and a second call changes nothing. *)
Theorem convertGeonext2CSS_tags (s : string) :
  (forall tag : string,
      In tag geonext_tags ->
      indexOf (convertGeonext2CSS s) tag = (-1)%Z)
  /\ ((forall tag : string,
          In tag geonext_tags ->
          indexOf s tag = (-1)%Z)
      <-> convertGeonext2CSS s = s)
  /\ convertGeonext2CSS (convertGeonext2CSS s)
     = convertGeonext2CSS s.
Proof.
  split; [|split].
  - intros tag H. apply indexOf_none, convertGeonext2CSS_clean, H.
  - split.
    + intros H. apply convertGeonext2CSS_absent.
      intros tag T. apply indexOf_none, H, T.
    + intros E tag T. rewrite <- E.
      apply indexOf_none, convertGeonext2CSS_clean, T.
  - apply convertGeonext2CSS_absent.
    intros tag T. apply convertGeonext2CSS_clean, T.
Qed.

End MarkupFacts.

(* ================================================================== *)
(** * Facts about the ticks of a line *)
(* ================================================================== *)

Section TicksFacts.

Import LineTicks.

Lemma delete_at_length (ts : list (option Ticks)) :
  forall i : nat, List.length (delete_at ts i) = List.length ts.
Proof.
  induction ts as [|e r IH]; intros [|i]; simpl; auto.
Qed.

Lemma nth_delete_at (ts : list (option Ticks)) :
  forall i j : nat,
    nth j (delete_at ts i) None = if Nat.eqb i j then None else nth j ts None.
Proof.
  induction ts as [|e r IH]; intros i j.
  - destruct i, j; simpl; try reflexivity; destruct (Nat.eqb _ _); reflexivity.
  - destruct i as [|i], j as [|j]; simpl; try reflexivity. apply IH.
Qed.

(** The loop of [removeTicks] has, at counter [t], made a hole of every
    entry below [t] that is the tick, and left the other entries. *)
Lemma removeTicks_loop_entries (tick : Ticks) (t : nat) :
  forall (ts : list (option Ticks)) (calls : list Call) (j : nat),
    nth j (fst (removeTicks_loop tick ts t calls)) None
    = if (j <? t)%nat
      then match nth j ts None with
           | Some k => if same_object k tick then None else Some k
           | None => None
           end
      else nth j ts None.
Proof.
  induction t as [|t IH]; intros ts calls j; [reflexivity|].
  cbn [removeTicks_loop].
  destruct (nth t ts None) as [k|] eqn:N;
    [destruct (same_object k tick) eqn:So|];
    rewrite IH, ?nth_delete_at;
    destruct (Nat.eqb_spec t j) as [<-|D];
    rewrite ?Nat.ltb_irrefl, ?N, ?So;
    repeat match goal with
    | |- context [(?a <? ?b)%nat] => destruct (Nat.ltb_spec a b)
    end;
    try reflexivity; try lia.
Qed.

Lemma removeTicks_loop_length (tick : Ticks) (t : nat) :
  forall (ts : list (option Ticks)) (calls : list Call),
    List.length (fst (removeTicks_loop tick ts t calls)) = List.length ts.
Proof.
  induction t as [|t IH]; intros ts calls; [reflexivity|].
  cbn [removeTicks_loop].
  destruct (nth t ts None) as [k|]; [|apply IH].
  destruct (same_object k tick); [|apply IH].
  rewrite IH. apply delete_at_length.
Qed.

Lemma nth_without (tick : Ticks) (ts : list (option Ticks)) (j : nat) :
  nth j (without tick ts) None
  = match nth j ts None with
    | Some k => if same_object k tick then None else Some k
    | None => None
    end.
Proof.
  revert j. induction ts as [|e r IH]; intros [|j]; simpl; auto.
Qed.

Lemma removeTicks_loop_without (tick : Ticks) (ts : list (option Ticks)) :
  fst (removeTicks_loop tick ts (List.length ts) []) = without tick ts.
Proof.
  apply (nth_ext _ _ None None).
  - rewrite removeTicks_loop_length. unfold without. rewrite length_map.
    reflexivity.
  - intros j Hj. rewrite removeTicks_loop_length in Hj.
    rewrite removeTicks_loop_entries, nth_without.
    replace (j <? List.length ts)%nat with true
      by (symmetry; apply Nat.ltb_lt; exact Hj).
    reflexivity.
Qed.

Lemma firstn_S_nth (A : Type) (d : A) (ts : list A) :
  forall t : nat,
    (t < List.length ts)%nat ->
    firstn (S t) ts = firstn t ts ++ [nth t ts d].
Proof.
  induction ts as [|e r IH]; intros t Ht; simpl in Ht; [lia|].
  destruct t as [|t]; [reflexivity|].
  cbn [firstn nth app]. f_equal. apply IH. lia.
Qed.

Lemma firstn_delete_at (ts : list (option Ticks)) :
  forall t i : nat, (t <= i)%nat -> firstn t (delete_at ts i) = firstn t ts.
Proof.
  induction ts as [|e r IH]; intros t i H.
  - destruct i; reflexivity.
  - destruct t as [|t]; [reflexivity|].
    destruct i as [|i]; [lia|]. simpl. f_equal. apply IH. lia.
Qed.

(** The loop of [removeAllTicks] returns when it meets no hole, having
    removed the nodes from the last to the first; it throws at the first
    hole it meets. *)
Lemma removeAllTicks_loop_spec (ts : list (option Ticks)) (t : nat) :
  forall calls : list Call,
    (t <= List.length ts)%nat ->
    let r := removeAllTicks_loop ts t calls in
    (dense (firstn t ts) = true ->
     r = (calls ++ rev (node_removals (firstn t ts)), Returned))
    /\ (dense (firstn t ts) = false -> snd r = Threw).
Proof.
  induction t as [|t IH]; intros calls Ht r; subst r.
  - simpl. rewrite app_nil_r. split; [reflexivity | discriminate].
  - cbn [removeAllTicks_loop].
    rewrite (@firstn_S_nth _ None ts t) by lia.
    unfold dense, node_removals.
    rewrite forallb_app, flat_map_app, rev_app_distr.
    destruct (nth t ts None) as [k|]; simpl.
    + rewrite andb_true_r.
      destruct (IH (calls ++ [remove (rendNode k)])) as [H1 H2]; [lia|].
      split; intros D.
      * rewrite (H1 D), <- app_assoc. reflexivity.
      * exact (H2 D).
    + rewrite andb_false_r. split; [discriminate | reflexivity].
Qed.

Lemma removeTicks_loop_calls (tick : Ticks) (t : nat) :
  forall (ts : list (option Ticks)) (calls : list Call),
    (t <= List.length ts)%nat ->
    snd (removeTicks_loop tick ts t calls)
    = calls ++ tick_removals tick (rev (firstn t ts)).
Proof.
  induction t as [|t IH]; intros ts calls Ht.
  - simpl. rewrite app_nil_r. reflexivity.
  - cbn [removeTicks_loop].
    rewrite (@firstn_S_nth _ None ts t) by lia.
    rewrite rev_unit. unfold tick_removals. cbn [flat_map].
    fold (tick_removals tick (rev (firstn t ts))).
    destruct (nth t ts None) as [k|];
      [destruct (same_object k tick)|].
    + rewrite IH by (rewrite delete_at_length; lia).
      rewrite firstn_delete_at by lia.
      rewrite <- !app_assoc. reflexivity.
    + apply IH. lia.
    + apply IH. lia.
Qed.

Lemma dense_without (tick k : Ticks) (ts : list (option Ticks)) :
  In (Some k) ts -> same_object k tick = true ->
  dense (without tick ts) = false.
Proof.
  intros H So. induction ts as [|e r IH]; [destruct H|].
  destruct H as [->|H]; simpl.
  - rewrite So. reflexivity.
  - rewrite (IH H). apply andb_false_r.
Qed.

Lemma removeTicks_leaves_holes_length (l : LineTicks.TLine)
    (tick : LineTicks.Ticks) :
  List.length (LineTicks.ticks (fst (LineTicks.removeTicks l tick)))
  = List.length (LineTicks.ticks l).
Proof.
  unfold LineTicks.removeTicks.
  pose proof (removeTicks_loop_length tick (List.length (LineTicks.ticks l))
                (LineTicks.ticks l) []) as H.
  destruct (LineTicks.removeTicks_loop _ _ _ _) as [ts calls].
  exact H.
Qed.

Lemma decimal_inj (a b : nat) : decimal a = decimal b -> a = b.
Proof.
  unfold decimal. intros H.
  assert (E : Some (Nat.to_uint a) = Some (Nat.to_uint b))
    by (rewrite <- !NilEmpty.usu, H; reflexivity).
  injection E as E.
  rewrite <- (Unsigned.of_to a), <- (Unsigned.of_to b), E. reflexivity.
Qed.

Lemma append_cancel (p x y : string) :
  (p ++ x)%string = (p ++ y)%string -> x = y.
Proof.
  induction p as [|c p IH]; simpl; intros H; [exact H|].
  injection H as H. exact (IH H).
Qed.

End TicksFacts.

(** X6.  [removeTicks] keeps the length of the array [ticks]: it leaves a
    hole at every entry that is the tick and the other entries as they
    are, and it removes from the renderer the node of the tick and the
    nodes of those of its labels that are shown, going from the last entry
    to the first. *)
Theorem removeTicks_leaves_holes (l : LineTicks.TLine)
    (tick : LineTicks.Ticks) :
  let r := LineTicks.removeTicks l tick in
  LineTicks.ticks (fst r) = LineTicks.without tick (LineTicks.ticks l)
  /\ List.length (LineTicks.ticks (fst r))
     = List.length (LineTicks.ticks l)
  /\ snd r = LineTicks.tick_removals tick (rev (LineTicks.ticks l))
  /\ forall k : LineTicks.Ticks,
       In (Some k) (LineTicks.ticks (fst r)) ->
       LineTicks.same_object k tick = false
       /\ In (Some k) (LineTicks.ticks l).
Proof.
  intros r. subst r. unfold LineTicks.removeTicks.
  pose proof (removeTicks_loop_without tick (LineTicks.ticks l)) as W.
  pose proof (@removeTicks_loop_calls tick
                (List.length (LineTicks.ticks l)) (LineTicks.ticks l) []
                (Nat.le_refl _)) as C.
  rewrite firstn_all in C.
  destruct (LineTicks.removeTicks_loop _ _ _ _) as [ts calls].
  simpl in *. subst ts calls.
  split; [reflexivity | split; [|split; [reflexivity|]]].
  - unfold LineTicks.without. apply length_map.
  - intros k H. unfold LineTicks.without in H. apply in_map_iff in H.
    destruct H as [[k'|] [E H]]; [|discriminate E].
    destruct (LineTicks.same_object k' tick) eqn:So; [discriminate E|].
    injection E as <-. split; [exact So | exact H].
Qed.

(** X7.  [removeAllTicks] returns exactly when the array [ticks] has no
    hole; it has then removed the node of every tick once, from the last
    to the first, and the array is empty.  When the array has a hole the
    call throws and leaves the array as it is. *)
Theorem removeAllTicks_holes (l : LineTicks.TLine) :
  (LineTicks.dense (LineTicks.ticks l) = true ->
   LineTicks.removeAllTicks l
   = (LineTicks.set_ticks l [],
      rev (LineTicks.node_removals (LineTicks.ticks l)), Returned))
  /\ (LineTicks.dense (LineTicks.ticks l) = false ->
      snd (LineTicks.removeAllTicks l) = Threw
      /\ fst (fst (LineTicks.removeAllTicks l)) = l).
Proof.
  unfold LineTicks.removeAllTicks.
  destruct (@removeAllTicks_loop_spec (LineTicks.ticks l)
              (List.length (LineTicks.ticks l)) [] (Nat.le_refl _))
    as [H1 H2].
  rewrite firstn_all in H1, H2. split; intros D.
  - rewrite (H1 D). reflexivity.
  - specialize (H2 D).
    destruct (LineTicks.removeAllTicks_loop _ _ _) as [calls s].
    simpl in H2. subst s. split; reflexivity.
Qed.

(** X8.  After [removeTicks] has removed ticks that were in the array,
    [removeAllTicks] throws. *)
Theorem removeAllTicks_after_removeTicks (l : LineTicks.TLine)
    (tick k : LineTicks.Ticks) :
  In (Some k) (LineTicks.ticks l) ->
  LineTicks.same_object k tick = true ->
  snd (LineTicks.removeAllTicks (fst (LineTicks.removeTicks l tick)))
  = Threw.
Proof.
  intros H So. unfold LineTicks.removeAllTicks.
  destruct (@removeAllTicks_loop_spec
              (LineTicks.ticks (fst (LineTicks.removeTicks l tick)))
              (List.length
                 (LineTicks.ticks (fst (LineTicks.removeTicks l tick))))
              [] (Nat.le_refl _)) as [_ H2].
  rewrite firstn_all in H2.
  assert (D : LineTicks.dense
                (LineTicks.ticks (fst (LineTicks.removeTicks l tick)))
              = false).
  { unfold LineTicks.removeTicks.
    pose proof (removeTicks_loop_without tick (LineTicks.ticks l)) as W.
    destruct (LineTicks.removeTicks_loop _ _ _ _) as [ts calls].
    simpl in *. subst ts. exact (dense_without tick k _ H So). }
  specialize (H2 D).
  destruct (LineTicks.removeAllTicks_loop _ _ _) as [calls s].
  simpl in H2. subst s. reflexivity.
Qed.

Lemma removeAllTicks_after_removeTicks_witness :
  In (Some (LineTicks.mkTicks 1 (Some "L1_ticks_1"%string) 10 2
              [Some (LineTicks.mkLabel true 11); None]))
     (LineTicks.ticks ticked_line)
  /\ snd (LineTicks.removeAllTicks
            (fst (LineTicks.removeTicks ticked_line two_ticks)))
     = Threw.
Proof.
  assert (H : In (Some (LineTicks.mkTicks 1 (Some "L1_ticks_1"%string) 10 2
                          [Some (LineTicks.mkLabel true 11); None]))
                (LineTicks.ticks ticked_line))
    by (left; reflexivity).
  split; [exact H |].
  exact (@removeAllTicks_after_removeTicks ticked_line two_ticks _ H
           eq_refl).
Defined.

(** X9.  [update] passes over the holes of the array [ticks]: on a line
    that is due for an update it calls [calculateTicksCoordinates] on the
    ticks that [removeTicks] has left, and on no other. *)
Theorem update_after_removeTicks
    (normalize : StdForm num -> StdForm num) (l : LineTicks.TLine)
    (tick : LineTicks.Ticks) (r : nat) :
  let l' := fst (LineTicks.removeTicks l tick) in
  In (LineTicks.calculateTicksCoordinates r)
     (snd (LineTicks.update normalize l'))
  <-> Line.needsUpdate (LineTicks.line l) = true
      /\ r <> LineTicks.ref tick
      /\ exists k : LineTicks.Ticks,
           In (Some k) (LineTicks.ticks l) /\ LineTicks.ref k = r.
Proof.
  intros l'. subst l'. unfold LineTicks.removeTicks.
  pose proof (removeTicks_loop_without tick (LineTicks.ticks l)) as W.
  destruct (LineTicks.removeTicks_loop _ _ _ _) as [ts calls].
  simpl in W. subst ts. unfold LineTicks.update. simpl.
  assert (T : In (LineTicks.calculateTicksCoordinates r)
                (LineTicks.update_ticks
                   (LineTicks.without tick (LineTicks.ticks l)))
              <-> r <> LineTicks.ref tick
                  /\ exists k : LineTicks.Ticks,
                       In (Some k) (LineTicks.ticks l)
                       /\ LineTicks.ref k = r).
  { unfold LineTicks.update_ticks, LineTicks.without.
    rewrite in_flat_map. split.
    - intros [e [He Hc]]. apply in_map_iff in He.
      destruct He as [[k|] [E Hk]]; [|subst e; destruct Hc].
      destruct (LineTicks.same_object k tick) eqn:So;
        [subst e; destruct Hc|].
      subst e. destruct Hc as [Hc|[]]. injection Hc as <-.
      unfold LineTicks.same_object in So. apply Nat.eqb_neq in So.
      split; [exact So | exists k; auto].
    - intros [N [k [Hk <-]]]. exists (Some k). split; [|left; reflexivity].
      apply in_map_iff. exists (Some k). split; [|exact Hk].
      unfold LineTicks.same_object.
      replace (LineTicks.ref k =? LineTicks.ref tick)%nat with false
        by (symmetry; apply Nat.eqb_neq; exact N).
      reflexivity. }
  destruct (Line.needsUpdate (LineTicks.line l));
    destruct (LineTicks.traced l); simpl; rewrite ?in_app_iff; simpl.
  - rewrite T. split.
    + intros [H|[H|[]]]; [tauto | discriminate H].
    + intros [_ H]. left. exact H.
  - rewrite T. tauto.
  - split; [intros [H|[]]; discriminate H | intros [H _]; discriminate H].
  - split; [intros [] | intros [H _]; discriminate H].
Qed.

Section AddTicksFacts.

Import LineTicks.

(** The id that [addTicks] makes up is not empty. *)
Lemma fresh_id_not_empty (a b : string) :
  (a ++ "_ticks_" ++ b)%string <> EmptyString.
Proof. destruct a; discriminate. Qed.

(** What [addTicks] does with an object without an id, and with one that
    has an id. *)
Lemma addTicks_no_id (l : TLine) (t : Ticks) :
  no_id t = true ->
  let s :=
    (line_id l ++ "_ticks_" ++ decimal (List.length (ticks l) + 1))%string in
  addTicks l t
  = (mkTLine (line l) (line_id l)
       (map (id_written t s) (ticks l) ++ [Some (set_id t s)])
       (id_written t s (defaultTicks l)) (traced l) (numTraces l)
       (traces l),
     [drawTicks (ref t); ticks_updateRenderer (ref t)], s).
Proof.
  unfold no_id, addTicks. destruct (id t) as [s0|]; intros N;
    [rewrite N|]; reflexivity.
Qed.

Lemma addTicks_with_id (l : TLine) (t : Ticks) (s : string) :
  id t = Some s -> s <> EmptyString ->
  addTicks l t
  = (set_ticks l (ticks l ++ [Some t]),
     [drawTicks (ref t); ticks_updateRenderer (ref t)], s).
Proof.
  intros E N. unfold addTicks. rewrite E.
  apply String.eqb_neq in N. rewrite N. reflexivity.
Qed.

End AddTicksFacts.

(** X10.  The ids of [addTicks].  A ticks object with an id that is not
    empty keeps it.  To an object without an id the function assigns the
    id of the line followed by [_ticks_] and the length of the array plus
    one, and it writes that id into the object itself: the entry pushed
    and every other entry that is the same object show it, and adding the
    same object once more returns the same id again.  Two different
    objects without an id that are added one after the other get
    different ids, also when the first one is removed again before the
    second is added. *)
Theorem addTicks_ids (l : LineTicks.TLine) (t1 t2 : LineTicks.Ticks) :
  let r1 := LineTicks.addTicks l t1 in
  let l1 := fst (fst r1) in
  (forall s : string,
      LineTicks.id t1 = Some s -> s <> EmptyString ->
      snd r1 = s /\ last (LineTicks.ticks l1) None = Some t1)
  /\ (exists t1' : LineTicks.Ticks,
         last (LineTicks.ticks l1) None = Some t1'
         /\ LineTicks.same_object t1' t1 = true
         /\ LineTicks.id t1' = Some (snd r1)
         /\ snd r1 <> EmptyString
         /\ snd (LineTicks.addTicks l1 t1') = snd r1)
  /\ (LineTicks.no_id t1 = true ->
      forall k : LineTicks.Ticks,
        In (Some k) (LineTicks.ticks l1) ->
        LineTicks.same_object k t1 = true ->
        LineTicks.id k = Some (snd r1))
  /\ (LineTicks.no_id t1 = true -> LineTicks.no_id t2 = true ->
      LineTicks.same_object t1 t2 = false ->
      snd (LineTicks.addTicks l1 t2) <> snd r1
      /\ snd (LineTicks.addTicks (fst (LineTicks.removeTicks l1 t1)) t2)
         <> snd r1).
Proof.
  cbv zeta. split; [|split; [|split]].
  - intros s E N. rewrite (addTicks_with_id l t1 E N).
    cbn [fst snd LineTicks.set_ticks LineTicks.ticks].
    rewrite last_last. split; reflexivity.
  - destruct (LineTicks.no_id t1) eqn:N.
    + rewrite (addTicks_no_id l t1 N). cbv zeta.
      cbn [fst snd LineTicks.ticks]. rewrite last_last.
      eexists. split; [reflexivity|].
      split; [unfold LineTicks.same_object, LineTicks.set_id;
              cbn [LineTicks.ref]; apply Nat.eqb_refl|].
      split; [reflexivity|].
      split; [apply fresh_id_not_empty|].
      erewrite addTicks_with_id;
        [reflexivity | reflexivity | apply fresh_id_not_empty].
    + unfold LineTicks.no_id in N.
      destruct (LineTicks.id t1) as [s|] eqn:E; [|discriminate N].
      apply String.eqb_neq in N.
      rewrite (addTicks_with_id l t1 E N).
      cbn [fst snd LineTicks.set_ticks LineTicks.ticks].
      rewrite last_last. exists t1.
      split; [reflexivity|].
      split; [apply Nat.eqb_refl|].
      split; [exact E|]. split; [exact N|].
      rewrite (addTicks_with_id _ t1 E N). reflexivity.
  - intros N k I S. rewrite (addTicks_no_id l t1 N) in *. cbv zeta in *.
    cbn [fst snd LineTicks.ticks] in *.
    apply in_app_or in I. destruct I as [I|[I|[]]].
    + apply in_map_iff in I. destruct I as [[k0|] [E _]];
        [|discriminate E].
      unfold LineTicks.id_written in E.
      destruct (LineTicks.same_object k0 t1) eqn:S0; injection E as <-;
        [reflexivity | rewrite S0 in S; discriminate S].
    + injection I as <-. reflexivity.
  - intros N1 N2 _.
    pose proof (removeTicks_leaves_holes_length
                  (fst (fst (LineTicks.addTicks l t1))) t1) as RL.
    assert (RI : LineTicks.line_id
                   (fst (LineTicks.removeTicks
                           (fst (fst (LineTicks.addTicks l t1))) t1))
                 = LineTicks.line_id l).
    { unfold LineTicks.removeTicks.
      destruct (LineTicks.removeTicks_loop _ _ _ _).
      rewrite (addTicks_no_id l t1 N1). reflexivity. }
    rewrite !(addTicks_no_id _ t2 N2). cbv zeta. cbn [snd].
    rewrite RI, RL.
    rewrite (addTicks_no_id l t1 N1). cbv zeta.
    cbn [fst snd LineTicks.ticks LineTicks.line_id].
    rewrite length_app, length_map. cbn [List.length].
    assert (D : forall a b : nat,
               a <> b ->
               (LineTicks.line_id l ++ "_ticks_" ++ decimal a)%string
               <> (LineTicks.line_id l ++ "_ticks_" ++ decimal b)%string).
    { intros a b N E. apply N, decimal_inj.
      apply (append_cancel "_ticks_"), (append_cancel (LineTicks.line_id l)).
      exact E. }
    split; apply D; lia.
Qed.

Lemma addTicks_ids_witness :
  LineTicks.no_id two_ticks = true
  /\ LineTicks.no_id more_ticks = true
  /\ LineTicks.same_object two_ticks more_ticks = false
  /\ snd (LineTicks.addTicks bare_line two_ticks) = "L1_ticks_1"%string
  /\ snd (LineTicks.addTicks ticked_line more_ticks)
     <> snd (LineTicks.addTicks bare_line two_ticks).
Proof.
  split; [reflexivity | split; [reflexivity | split; [reflexivity |]]].
  split; [reflexivity |].
  exact (proj1 (proj2 (proj2 (proj2
                         (addTicks_ids bare_line two_ticks more_ticks)))
                  eq_refl eq_refl eq_refl)).
Defined.

(** X11.  A line that is traced draws one clone at every [update] and gives
    it the id of the line followed by [T] and the number of clones drawn
    before: two updates in a row draw clones with different ids, and both
    are entered in [traces]. *)
Theorem update_traces (normalize : StdForm num -> StdForm num)
    (l : LineTicks.TLine) :
  LineTicks.traced l = true ->
  let r1 := LineTicks.update normalize l in
  let r2 := LineTicks.update normalize (fst r1) in
  exists i1 i2 : string,
    i1 <> i2
    /\ In (LineTicks.drawLine i1) (snd r1)
    /\ In (LineTicks.drawLine i2) (snd r2)
    /\ LineTicks.traces (fst r2) = i2 :: i1 :: LineTicks.traces l
    /\ LineTicks.numTraces (fst r2) = (LineTicks.numTraces l + 2)%nat.
Proof.
  intros T. cbv zeta.
  exists (LineTicks.line_id l ++ "T" ++ decimal (LineTicks.numTraces l))%string,
    (LineTicks.line_id l ++ "T"
       ++ decimal (LineTicks.numTraces l + 1))%string.
  split.
  - intros E. apply append_cancel, (append_cancel "T"), decimal_inj in E.
    lia.
  - assert (U : forall l0 : LineTicks.TLine,
               LineTicks.traced l0 = true ->
               let r := LineTicks.update normalize l0 in
               LineTicks.traced (fst r) = true
               /\ LineTicks.line_id (fst r) = LineTicks.line_id l0
               /\ LineTicks.numTraces (fst r)
                  = (LineTicks.numTraces l0 + 1)%nat
               /\ LineTicks.traces (fst r)
                  = (LineTicks.line_id l0 ++ "T"
                       ++ decimal (LineTicks.numTraces l0))%string
                    :: LineTicks.traces l0
               /\ In (LineTicks.drawLine
                        (LineTicks.line_id l0 ++ "T"
                           ++ decimal (LineTicks.numTraces l0))%string)
                     (snd r)).
    { intros l0 T0. unfold LineTicks.update. rewrite T0.
      destruct (Line.needsUpdate (LineTicks.line l0)); simpl;
        rewrite ?in_app_iff; simpl; auto 10. }
    destruct (U l T) as [T1 [I1 [N1 [R1 C1]]]].
    destruct (U _ T1) as [_ [_ [N2 [R2 C2]]]].
    rewrite I1, N1 in R2, C2. rewrite R1 in R2.
    split; [exact C1 | split; [exact C2 | split; [exact R2 |]]].
    rewrite N2, N1. lia.
Qed.

Lemma update_traces_witness :
  let l := LineTicks.mkTLine straight_line "L1" [] None true 0 [] in
  let r2 :=
    LineTicks.update (fun s => s) (fst (LineTicks.update (fun s => s) l)) in
  LineTicks.traced l = true
  /\ exists i1 i2 : string,
       i1 <> i2
       /\ LineTicks.traces (fst r2) = i2 :: i1 :: LineTicks.traces l.
Proof.
  intros l r2. split; [reflexivity |].
  destruct (@update_traces (fun s => s) l eq_refl)
    as [i1 [i2 [N [_ [_ [E _]]]]]].
  exists i1, i2. split; [exact N | exact E].
Defined.

(* ================================================================== *)
(** * More facts about lines *)
(* ================================================================== *)

Section MoreNumFacts.

Lemma mul_nan_r (a : num) : mul a NaN = NaN.
Proof. destruct a; reflexivity. Qed.

Lemma mul_nan_l (a : num) : mul NaN a = NaN.
Proof. reflexivity. Qed.

Lemma sub_nan_r (a : num) : sub a NaN = NaN.
Proof. destruct a; reflexivity. Qed.

Lemma sub_nan_l (a : num) : sub NaN a = NaN.
Proof. reflexivity. Qed.

Lemma ltb_nan_l (a : num) : ltb NaN a = false.
Proof. reflexivity. Qed.

Lemma band_loop_nan_x (slope rise y : num) (rr : Z) (n : nat) :
  forall (i : Z) (has : bool),
    Line.band_loop slope rise NaN y rr n i has = has.
Proof.
  induction n as [|n IH]; intros i has; cbn [Line.band_loop];
    [reflexivity|].
  rewrite IH, add_nan_l, mul_nan_r, add_nan_l, sub_nan_r.
  apply orb_false_r.
Qed.

Lemma band_loop_nan_y (slope rise x : num) (rr : Z) (n : nat) :
  forall (i : Z) (has : bool),
    Line.band_loop slope rise x NaN rr n i has = has.
Proof.
  induction n as [|n IH]; intros i has; cbn [Line.band_loop];
    [reflexivity|].
  rewrite IH, sub_nan_l. apply orb_false_r.
Qed.

End MoreNumFacts.

(** X12.  [hasPoint] and [hasPointOld] accept no point whose abscissa is
    [NaN].  A point whose ordinate is [NaN] is accepted by neither when
    [getSlope] returns a number, and [hasPoint] does not accept it either
    on a line that is drawn beyond both points. *)
Theorem hasPoint_NaN (eps : num) (l : Line.Line) :
  (forall y : num,
      Line.hasPoint eps l NaN y = false
      /\ LineMore.hasPointOld eps l NaN y = false)
  /\ (forall x : num,
         Line.getSlope eps l <> Line.INF ->
         Line.hasPoint eps l x NaN = false
         /\ LineMore.hasPointOld eps l x NaN = false)
  /\ (forall x : num,
         Line.straightFirst (Line.visProp l)
         && Line.straightLast (Line.visProp l) = true ->
         Line.hasPoint eps l x NaN = false).
Proof.
  split; [|split].
  - intros y. unfold Line.hasPoint, LineMore.hasPointOld.
    destruct (Line.straightFirst _ && Line.straightLast _).
    + split.
      * unfold innerProduct. simpl.
        rewrite mul_nan_r, add_nan_r, add_nan_l. reflexivity.
      * destruct (Line.getSlope eps l) as [sl|]; simpl.
        -- apply band_loop_nan_x.
        -- reflexivity.
    + destruct (Line.getSlope eps l) as [sl|]; simpl.
      * rewrite band_loop_nan_x. split; reflexivity.
      * split; reflexivity.
  - intros x Hs. unfold Line.hasPoint, LineMore.hasPointOld.
    destruct (Line.getSlope eps l) as [sl|]; [|congruence].
    destruct (Line.straightFirst _ && Line.straightLast _).
    + split.
      * unfold innerProduct. simpl.
        rewrite mul_nan_r, add_nan_r. reflexivity.
      * apply band_loop_nan_y.
    + simpl. rewrite band_loop_nan_y. split; reflexivity.
  - intros x Hs. unfold Line.hasPoint. rewrite Hs.
    unfold innerProduct. simpl. rewrite mul_nan_r, add_nan_r. reflexivity.
Qed.

(** X13.  [hasPointOld] and [hasPoint] agree on every line that is not
    drawn beyond both points.  With a tolerance radius that is not
    positive and a slope that is a number, [hasPointOld] accepts no point,
    and neither does [hasPoint] on a line that is not drawn beyond both
    points. *)
Theorem hasPointOld_hasPoint (eps : num) (l : Line.Line) (x y : num) :
  (Line.straightFirst (Line.visProp l)
   && Line.straightLast (Line.visProp l) = false ->
   LineMore.hasPointOld eps l x y = Line.hasPoint eps l x y)
  /\ ((Line.r l <= 0)%Z -> Line.getSlope eps l <> Line.INF ->
      LineMore.hasPointOld eps l x y = false
      /\ (Line.straightFirst (Line.visProp l)
          && Line.straightLast (Line.visProp l) = false ->
          Line.hasPoint eps l x y = false)).
Proof.
  split.
  - intros H. unfold LineMore.hasPointOld, Line.hasPoint. rewrite H.
    reflexivity.
  - intros Hr Hs. unfold LineMore.hasPointOld, Line.hasPoint.
    destruct (Line.getSlope eps l) as [sl|]; [|congruence].
    replace (Z.to_nat (Line.r l - - Line.r l)) with O by lia.
    destruct (Line.straightFirst _ && Line.straightLast _); simpl.
    + split; [reflexivity | discriminate].
    + split; reflexivity.
Qed.

(** X14.  A second call of [updateRenderer] right after a first one calls
    nothing on the renderer and leaves the element as the first call left
    it, for lines and for texts. *)
Theorem updateRenderer_twice :
  (forall l : Line.Line,
      Line.updateRenderer (fst (Line.updateRenderer l))
      = (fst (Line.updateRenderer l), []))
  /\ (forall t : Text.Text,
         Text.updateRenderer (fst (Text.updateRenderer t))
         = (fst (Text.updateRenderer t), [])).
Proof.
  split.
  - intros l. unfold Line.updateRenderer at 2 3.
    destruct (Line.needsUpdate l && Line.visible (Line.visProp l)) eqn:D.
    + reflexivity.
    + simpl. unfold Line.updateRenderer. rewrite D. reflexivity.
  - intros t. unfold Text.updateRenderer at 2 3.
    destruct (Text.needsUpdate t) eqn:D; simpl.
    + reflexivity.
    + unfold Text.updateRenderer. rewrite D. reflexivity.
Qed.

Section ParametricFacts.

Local Open Scope R_scope.

(** X15.  Over the real numbers, with a positive [eps]: wherever [Z(phi)] is
    1, the point [(X(phi), Y(phi))] lies on the line
    [a * x + b * y + c = 0] with [[c, a, b] = stdform]. *)
Theorem XYZ_incidence (eps : R) (s : Vec3 R) (phi : R) :
  0 < eps ->
  LineMore.Z R_field eps s phi = 1 ->
  v1 s * LineMore.X R_field eps s phi
  + v2 s * LineMore.Y R_field eps s phi + v0 s = 0.
Proof.
  intros He. unfold LineMore.Z, LineMore.X, LineMore.Y. simpl.
  set (p := phi * PI).
  set (A := v1 s * cos p + v2 s * sin p).
  set (sq := sqrt (A * A + v0 s * v0 s)).
  destruct (Rge_dec (Rabs (A / sq)) eps) as [G|G]; [|intros H; lra].
  intros _.
  destruct (Rlt_dec (Rabs (A / sq)) eps) as [L|_]; [lra|].
  assert (N : A / sq <> 0).
  { intros E. rewrite E, Rabs_R0 in G. lra. }
  assert (NA : A <> 0).
  { intros E. apply N. rewrite E. unfold Rdiv. ring. }
  assert (NS : sq <> 0).
  { intros E. apply N. rewrite E. unfold Rdiv. rewrite Rinv_0. ring. }
  replace (v1 s * (- v0 s / sq * cos p / (A / sq))
           + v2 s * (- v0 s / sq * sin p / (A / sq)) + v0 s)
    with (- v0 s / sq / (A / sq) * A + v0 s)
    by (unfold A; field; split; assumption).
  field. split; assumption.
Qed.

Lemma XYZ_incidence_witness :
  let s := mkVec3 1 1 0 in
  0 < 1 / 2
  /\ v1 s * LineMore.X R_field (1 / 2) s 0
     + v2 s * LineMore.Y R_field (1 / 2) s 0 + v0 s = 0.
Proof.
  intros s.
  assert (He : 0 < 1 / 2) by lra.
  split; [exact He |].
  apply (@XYZ_incidence (1 / 2) s 0 He).
  unfold LineMore.Z. simpl.
  rewrite Rmult_0_l, cos_0, sin_0.
  replace ((1 * 1 + 0 * 0) * (1 * 1 + 0 * 0) + 1 * 1) with 2 by ring.
  destruct (Rge_dec _ _) as [G|G]; [reflexivity|].
  exfalso. apply G.
  replace (1 * 1 + 0 * 0) with 1 by ring.
  assert (S2 : 0 < sqrt 2) by (apply sqrt_lt_R0; lra).
  assert (S4 : sqrt 2 <= 2).
  { rewrite <- (sqrt_square 2) at 2 by lra. apply sqrt_le_1; lra. }
  rewrite Rabs_right.
  - apply Rle_ge. unfold Rdiv. rewrite !Rmult_1_l.
    apply Rinv_le_contravar; assumption.
  - apply Rle_ge. unfold Rdiv. apply Rmult_le_pos; [lra|].
    left. apply Rinv_0_lt_compat. exact S2.
Defined.

(** X16.  Over the real numbers, the coordinate triples that
    [JXG.createLine] gives the two invisible points of a free line with
    the coefficients [[c0, c1, c2]] both satisfy
    [c0 * p0 + c1 * p1 + c2 * p2 = 0], and the cross product of the two
    triples is [- (c1 * c1 + c2 * c2) * [c0, c1, c2]]: the two points are
    different whenever [c1] or [c2] is not zero. *)
Theorem createLine_points_incidence (c : Vec3 R) :
  let p := LineMore.createLine_point1 R_field c in
  let q := LineMore.createLine_point2 R_field c in
  v0 c * v0 p + v1 c * v1 p + v2 c * v2 p = 0
  /\ v0 c * v0 q + v1 c * v1 q + v2 c * v2 q = 0
  /\ (v1 p * v2 q - v2 p * v1 q = - v0 c * (v1 c * v1 c + v2 c * v2 c)
      /\ v2 p * v0 q - v0 p * v2 q = - v1 c * (v1 c * v1 c + v2 c * v2 c)
      /\ v0 p * v1 q - v1 p * v0 q = - v2 c * (v1 c * v1 c + v2 c * v2 c)).
Proof.
  cbv zeta. unfold LineMore.createLine_point1, LineMore.createLine_point2.
  simpl. repeat split; ring.
Qed.

End ParametricFacts.

Section AxisFacts.

Lemma binary_round_aux_not_negative (m e : Z) (l : location) :
  ltb (binary_round_aux prec emax false m e l) (of_Z 0) = false.
Proof.
  unfold binary_round_aux.
  destruct (shr_fexp prec emax m e l) as [mrs' e'].
  destruct (shr_fexp prec emax _ e' loc_Exact) as [mrs'' e''].
  destruct (shr_m mrs'') as [|q|q]; try reflexivity.
  match goal with |- context [if ?c then _ else _] => destruct c end;
    reflexivity.
Qed.

(** A quarter of a length that is not negative is not negative. *)
Lemma quarter_not_negative (len : num) :
  ltb len (of_Z 0) = false -> ltb (mul len (ratio 1 4)) (of_Z 0) = false.
Proof.
  destruct len as [s|s| |s m e]; intros H; try reflexivity.
  - destruct s; [discriminate H | reflexivity].
  - destruct s; [discriminate H|].
    apply binary_round_aux_not_negative.
Qed.

Lemma halvings_to_zero :
  LineMore.halvings 1073 (ratio 1 4) = S754_zero false.
Proof. vm_compute. reflexivity. Qed.

Lemma halve_loop_ends (len : num) (n : nat) :
  ltb len (of_Z 0) = false ->
  forall (dist : num) (fuel : nat),
    LineMore.halvings n dist = S754_zero false ->
    (n <= fuel)%nat ->
    exists d : num,
      LineMore.halve_loop fuel len dist = Some d
      /\ gtb (mul (of_Z 4) d) len = false.
Proof.
  intros Hl. induction n as [|n IH]; intros dist fuel Hz Hf.
  - simpl in Hz. subst dist. exists (S754_zero false).
    assert (G : gtb (mul (of_Z 4) (S754_zero false)) len = false)
      by exact Hl.
    split; [|exact G].
    destruct fuel; unfold LineMore.halve_loop; rewrite G; reflexivity.
  - destruct fuel as [|fuel]; [lia|].
    cbn [LineMore.halve_loop].
    destruct (gtb (mul (of_Z 4) dist) len) eqn:G.
    + apply IH; [exact Hz | lia].
    + exists dist. split; [reflexivity | exact G].
Qed.

End AxisFacts.

(** X17.  The distance of the default ticks of an axis.  For every length
    that is not negative, [NaN] included, [JXG.createAxis] finds a tick
    distance: its loop [while (4 * dist > len) dist *= 0.5] ends after at
    most 1073 iterations, and when the loop is taken [4 * dist > len] is
    false for the distance returned and the quarter [len] of the
    length. *)
Theorem createAxis_dist_returns (len : num) (k : nat) :
  ltb len (of_Z 0) = false ->
  exists d : num,
    LineMore.createAxis_dist (1073 + k) len = Some d
    /\ (geb (mul len (ratio 1 4)) (of_Z 1) = false ->
        gtb (mul (of_Z 4) d) (mul len (ratio 1 4)) = false).
Proof.
  intros H. unfold LineMore.createAxis_dist.
  destruct (geb (mul len (ratio 1 4)) (of_Z 1)).
  - eexists. split; [reflexivity | discriminate].
  - destruct (@halve_loop_ends (mul len (ratio 1 4)) 1073
                (quarter_not_negative len H) (ratio 1 4) (1073 + k)
                halvings_to_zero) as [d [D G]]; [lia|].
    exists d. split; [exact D | intros _; exact G].
Qed.

Lemma createAxis_dist_returns_witness :
  ltb (of_Z 2) (of_Z 0) = false
  /\ exists d : num,
       LineMore.createAxis_dist (1073 + 0) (of_Z 2) = Some d
       /\ (geb (mul (of_Z 2) (ratio 1 4)) (of_Z 1) = false ->
           gtb (mul (of_Z 4) d) (mul (of_Z 2) (ratio 1 4)) = false).
Proof.
  assert (H : ltb (of_Z 2) (of_Z 0) = false) by reflexivity.
  split; [exact H |].
  exact (@createAxis_dist_returns (of_Z 2) 0 H).
Defined.

(** X27.  An axis whose length is a whole number from 4 to 9 gets the tick
    distance 0: a quarter of the length is at least 1, so that the
    distance is [Math.round(len * 0.2) * 5] with [len * 0.2] below one
    half. *)
Theorem createAxis_dist_zero (n : Z) (fuel : nat) :
  (4 <= n < 10)%Z ->
  LineMore.createAxis_dist fuel (of_Z n) = Some (of_Z 0).
Proof.
  intros H.
  assert (C : n = 4%Z \/ n = 5%Z \/ n = 6%Z \/ n = 7%Z \/ n = 8%Z
              \/ n = 9%Z) by lia.
  destruct C as [E|[E|[E|[E|[E|E]]]]]; subst n; vm_compute; reflexivity.
Qed.

Lemma createAxis_dist_zero_witness :
  LineMore.createAxis_dist 0 (of_Z 8) = Some (of_Z 0).
Proof. apply createAxis_dist_zero. lia. Defined.

(** X29.  Over the real numbers, the anchor that [getTextAnchor] computes
    is half the vector from the first point to the second: it is the
    point halfway between the two points exactly when the first point is
    the origin, and it stays the same when both points are moved by the
    same vector. *)
Theorem getTextAnchor_midpoint (x1 y1 x2 y2 : R) :
  (LineMore.getTextAnchor R_arith (1 / 2)%R (x1, y1) (x2, y2)
   = (((x1 + x2) / 2)%R, ((y1 + y2) / 2)%R)
   <-> x1 = 0%R /\ y1 = 0%R)
  /\ forall dx dy : R,
       LineMore.getTextAnchor R_arith (1 / 2)%R
         ((x1 + dx)%R, (y1 + dy)%R) ((x2 + dx)%R, (y2 + dy)%R)
       = LineMore.getTextAnchor R_arith (1 / 2)%R (x1, y1) (x2, y2).
Proof.
  unfold LineMore.getTextAnchor. cbn [fst snd a_mul a_sub R_arith].
  split.
  - split.
    + intros H. injection H as H1 H2. split; lra.
    + intros [-> ->]. f_equal; lra.
  - intros dx dy. f_equal; lra.
Qed.

(* ================================================================== *)
(** * Facts about text elements *)
(* ================================================================== *)

Section TextFacts.

Lemma geb_nan_l (a : num) : geb NaN a = false.
Proof. destruct a; reflexivity. Qed.

Lemma leb_nan_l (a : num) : leb NaN a = false.
Proof. reflexivity. Qed.

End TextFacts.

(** X18.  [hasPoint] of a text without transformations accepts no point with
    a coordinate that is [NaN]. *)
Theorem text_hasPoint_NaN
    (untransform : list nat -> num -> num -> num * num)
    (t : TextMore.TextEl) (x y : num) :
  TextMore.transformations t = [] ->
  TextMore.hasPoint untransform t x y = true ->
  isNaN x = false /\ isNaN y = false.
Proof.
  intros T. unfold TextMore.hasPoint. rewrite T.
  cbn [List.length Nat.ltb Nat.leb]. cbv zeta. intros H. split.
  - destruct (isNaN x) eqn:N; [|reflexivity].
    apply isNaN_true in N. subst x. exfalso. revert H.
    rewrite !geb_nan_l, !leb_nan_l, !ltb_nan_l.
    destruct (TextMore.dragarea t =? "all")%string;
      rewrite ?andb_false_r; cbn [andb orb]; rewrite ?andb_false_r;
      discriminate.
  - destruct (isNaN y) eqn:N; [|reflexivity].
    apply isNaN_true in N. subst y. exfalso. revert H.
    rewrite !geb_nan_l, !leb_nan_l.
    destruct (TextMore.dragarea t =? "all")%string;
      rewrite ?andb_false_r; cbn [andb orb]; rewrite ?andb_false_r;
      discriminate.
Qed.

Lemma text_hasPoint_NaN_witness :
  TextMore.transformations label_text = []
  /\ TextMore.hasPoint (fun _ x y => (x, y)) label_text (of_Z 120) (of_Z 95)
     = true
  /\ isNaN (of_Z 120) = false /\ isNaN (of_Z 95) = false.
Proof.
  split; [reflexivity|].
  split; [vm_compute; reflexivity|].
  apply (@text_hasPoint_NaN (fun _ x y => (x, y)) label_text);
    [reflexivity | vm_compute; reflexivity].
Defined.

(** X19.  [update] calls [updateSize] exactly when the element is due for an
    update, is not the infobox, and the text to show differs from the one
    recorded at the last check; it then records the new text, so that a
    second [update] with the same text does not call [updateSize]. *)
Theorem text_update_size (utf8_decode : string -> string) (text : string)
    (t : TextMore.TextEl) :
  let shown :=
    if (TextMore.display t =? "internal")%string
    then utf8_decode text else text in
  let r := TextMore.update utf8_decode text t in
  (In TextMore.updateSize (snd r)
   <-> TextMore.needsUpdate t = true /\ TextMore.is_infobox t = false
       /\ TextMore.plaintextOld t <> Some shown)
  /\ (TextMore.needsUpdate t = true -> TextMore.is_infobox t = false ->
      TextMore.plaintextOld (fst r) = Some shown)
  /\ ~ In TextMore.updateSize
         (snd (TextMore.update utf8_decode text (fst r))).
Proof.
  cbv zeta.
  assert (NI : forall l : list nat,
             ~ In TextMore.updateSize
                 (map TextMore.transformation_update l)).
  { intros l H. apply in_map_iff in H. destruct H as [i [E _]].
    discriminate E. }
  assert (U : forall t0 : TextMore.TextEl,
             let shown0 :=
               if (TextMore.display t0 =? "internal")%string
               then utf8_decode text else text in
             let r0 := TextMore.update utf8_decode text t0 in
             (In TextMore.updateSize (snd r0)
              <-> TextMore.needsUpdate t0 = true
                  /\ TextMore.is_infobox t0 = false
                  /\ TextMore.plaintextOld t0 <> Some shown0)
             /\ (TextMore.needsUpdate t0 = true ->
                 TextMore.is_infobox t0 = false ->
                 TextMore.plaintextOld (fst r0) = Some shown0)
             /\ TextMore.display (fst r0) = TextMore.display t0
             /\ TextMore.is_infobox (fst r0) = TextMore.is_infobox t0
             /\ TextMore.needsUpdate (fst r0) = TextMore.needsUpdate t0
             /\ (TextMore.needsUpdate t0 = false -> fst r0 = t0)).
  { intros t0. cbv zeta. unfold TextMore.update.
    destruct (TextMore.needsUpdate t0) eqn:N; cbn [negb].
    2:{ simpl. intuition (try discriminate). }
    unfold TextMore.checkForSizeUpdate, TextMore.set_text.
    cbn [TextMore.display TextMore.plaintext TextMore.plaintextOld
         TextMore.needsSizeUpdate TextMore.is_infobox
         TextMore.transformations TextMore.needsUpdate].
    destruct (TextMore.display t0 =? "internal")%string;
      cbn [TextMore.display TextMore.plaintext TextMore.plaintextOld
           TextMore.needsSizeUpdate TextMore.is_infobox
           TextMore.transformations TextMore.needsUpdate];
      destruct (TextMore.is_infobox t0) eqn:B;
      cbn [TextMore.display TextMore.plaintext TextMore.plaintextOld
           TextMore.needsSizeUpdate TextMore.is_infobox
           TextMore.transformations TextMore.needsUpdate fst snd].
    all: try (destruct (TextMore.plaintextOld t0) as [s|] eqn:O;
              [match goal with
               | |- context [(s =? ?u)%string] =>
                   destruct (String.eqb_spec s u) as [E|E]
               end|]);
      cbn [negb TextMore.display TextMore.plaintext TextMore.plaintextOld
           TextMore.needsSizeUpdate TextMore.is_infobox
           TextMore.transformations TextMore.needsUpdate fst snd];
      rewrite ?B, ?N;
      (split; [rewrite !in_app_iff; split;
               [intros [H|[H|H]];
                [destruct (TextMore.frozen t0); simpl in H;
                   intuition discriminate
                | simpl in H; intuition (try discriminate; try congruence)
                | exfalso; exact (NI _ H)]
               | intros [_ [H1 H2]]; try discriminate H1;
                 try (exfalso; apply H2; congruence);
                 right; left; left; reflexivity]
             | split; [intros; try discriminate; try congruence; reflexivity
                      | repeat split; intros; try discriminate;
                        try reflexivity]]). }
  destruct (U t) as [U1 [U2 [U3 [U4 [U5 U6]]]]].
  split; [exact U1 | split; [exact U2|]].
  destruct (U (fst (TextMore.update utf8_decode text t)))
    as [V1 _].
  intros H. apply V1 in H. destruct H as [N [B O]].
  rewrite U5 in N. rewrite U4 in B. rewrite U3 in O.
  apply O, U2; assumption.
Qed.

(* ================================================================== *)
(** * More facts about grids *)
(* ================================================================== *)

Section GridMore.

Variable L : Grid.Lib.
Variable fuel0 : nat.

Lemma lower_ascii_idem (c : ascii) :
  Grid.lower_ascii (Grid.lower_ascii c) = Grid.lower_ascii c.
Proof.
  destruct c as [[] [] [] [] [] [] [] []]; vm_compute; reflexivity.
Qed.

Lemma toLowerCase_idem (s : string) :
  Grid.toLowerCase (Grid.toLowerCase s) = Grid.toLowerCase s.
Proof.
  induction s as [|c t IH]; simpl; [reflexivity|].
  rewrite lower_ascii_idem, IH. reflexivity.
Qed.

Lemma closed_path_app (a b : list num) :
  closed_path a -> closed_path b -> closed_path (a ++ b).
Proof.
  intros Ha [->|Hb]; [rewrite app_nil_r; exact Ha|].
  right. destruct b as [|x b] using rev_ind; [discriminate Hb|].
  rewrite last_last in Hb. subst x.
  rewrite app_assoc. apply last_last.
Qed.

Lemma createDataArrayForFace_closed (fc : string) (b : Grid.Board)
    (grid : Grid.GridEl) (x y rx ry : num) (bbox : Grid.BBox) :
  let r := Grid.createDataArrayForFace L fuel0 fc b grid x y rx ry bbox in
  snd r = Returned ->
  closed_path (fst (snd (fst r))) /\ closed_path (snd (snd (fst r))).
Proof.
  unfold Grid.createDataArrayForFace.
  repeat match goal with
  | |- context [if ?c then _ else _] =>
      destruct c;
      [cbv beta iota; try (intros _; split; right; reflexivity)|]
  end; try (intros _; split; left; reflexivity).
  destruct (Grid.regpol_loop _ _ _ _ _ _ _ _ _ _) as [[ax ay] [| |]];
    simpl; intros H; try discriminate H.
  split; right; apply last_last.
Qed.

Lemma createDataArrayForFace_no_throw (fc : string) (b : Grid.Board)
    (grid : Grid.GridEl) (x y rx ry : num) (bbox : Grid.BBox) :
  snd (Grid.createDataArrayForFace L fuel0 fc b grid x y rx ry bbox)
  <> Threw.
Proof.
  unfold Grid.createDataArrayForFace.
  repeat match goal with
  | |- context [if ?c then _ else _] =>
      destruct c; [cbv beta iota; try discriminate|]
  end; try discriminate.
  assert (R : forall fuel t ax ay,
             snd (Grid.regpol_loop L x y rx ry
                    (Grid.polygonvertices
                       (Grid.visProp (Grid.set_linecap grid "round")))
                    fuel t ax ay) <> Threw).
  { induction fuel as [|fuel IH]; intros t ax ay; simpl; [discriminate|].
    destruct (leb t _); [apply IH | discriminate]. }
  specialize (R fuel0 (of_Z 0) [] []).
  destruct (Grid.regpol_loop _ _ _ _ _ _ _ _ _ _) as [[ax ay] [| |]];
    simpl in *; congruence.
Qed.

(** What the loops keep: both data arrays are closed paths. *)
Lemma major_row_closed (b : Grid.Board) (bbox : Grid.BBox) (fc : string)
    (d0 dx dy ib fin : bool) (s0 rx ry : num) (n : nat) :
  forall (y x : num) (g : Grid.GridEl),
    closed_path (Grid.dataX g) /\ closed_path (Grid.dataY g) ->
    let r := Grid.major_row L fuel0 b bbox fc d0 dx dy ib fin s0 rx ry
               n y x g in
    (closed_path (Grid.dataX (fst r)) /\ closed_path (Grid.dataY (fst r)))
    /\ snd r <> Threw.
Proof.
  induction n as [|n IH]; intros y x g H; simpl;
    [split; [exact H | discriminate]|].
  destruct (fin && leb x _); [|split; [exact H | discriminate]].
  destruct (Grid.major_skip _ _ _ _ _ _ _ _ _ _); [apply IH; exact H|].
  pose proof (@createDataArrayForFace_closed fc b g x y rx ry bbox) as HC.
  pose proof (@createDataArrayForFace_no_throw fc b g x y rx ry bbox) as HT.
  destruct (@createDataArrayForFace_data L fuel0 fc b g x y rx ry bbox)
    as [HX HY].
  destruct (Grid.createDataArrayForFace _ _ _ _ _ _ _ _ _ _)
    as [[g1 [ax ay]] s]; simpl in HC, HT, HX, HY.
  destruct s; simpl; try (rewrite HX, HY; split; [exact H | exact HT]).
  apply IH. simpl. rewrite HX, HY.
  destruct H as [H1 H2]. destruct (HC eq_refl) as [C1 C2].
  split; apply closed_path_app; assumption.
Qed.

Lemma major_rows_closed (b : Grid.Board) (bbox : Grid.BBox) (fc : string)
    (d0 dx dy ib fin : bool) (s0 s1 rx ry sx : num) (n : nat) :
  forall (y : num) (g : Grid.GridEl),
    closed_path (Grid.dataX g) /\ closed_path (Grid.dataY g) ->
    let r := Grid.major_rows L fuel0 b bbox fc d0 dx dy ib fin s0 s1 rx ry
               sx n y g in
    (closed_path (Grid.dataX (fst r)) /\ closed_path (Grid.dataY (fst r)))
    /\ snd r <> Threw.
Proof.
  induction n as [|n IH]; intros y g H; simpl;
    [split; [exact H | discriminate]|].
  destruct (fin && geb y _); [|split; [exact H | discriminate]].
  pose proof (@major_row_closed b bbox fc d0 dx dy ib fin s0 rx ry
                fuel0 y sx g H) as HR.
  destruct (Grid.major_row _ _ _ _ _ _ _ _ _ _ _ _ _ _ _ _ _) as [g1 s];
    simpl in HR.
  destruct s; simpl; auto. apply IH. exact (proj1 HR).
Qed.

Lemma minor_row_closed (b : Grid.Board) (bbox : Grid.BBox)
    (fc mfc : string) (mdx mdy d0 dx dy ib fin : bool)
    (M0 M1 MRX MRY ms0 mr0 mr1 : num) (n : nat) :
  forall (y x : num) (g : Grid.GridEl),
    closed_path (Grid.dataX g) /\ closed_path (Grid.dataY g) ->
    let r := Grid.minor_row L fuel0 b bbox fc mfc mdx mdy d0 dx dy ib fin
               M0 M1 MRX MRY ms0 mr0 mr1 n y x g in
    (closed_path (Grid.dataX (fst r)) /\ closed_path (Grid.dataY (fst r)))
    /\ snd r <> Threw.
Proof.
  induction n as [|n IH]; intros y x g H; simpl;
    [split; [exact H | discriminate]|].
  destruct (fin && leb x _); [|split; [exact H | discriminate]].
  destruct (_ || _); [apply IH; exact H|].
  pose proof (@createDataArrayForFace_closed fc b g x y mr0 mr1 bbox) as HC.
  pose proof (@createDataArrayForFace_no_throw fc b g x y mr0 mr1 bbox)
    as HT.
  destruct (@createDataArrayForFace_data L fuel0 fc b g x y mr0 mr1 bbox)
    as [HX HY].
  destruct (Grid.createDataArrayForFace _ _ _ _ _ _ _ _ _ _)
    as [[g1 [ax ay]] s]; simpl in HC, HT, HX, HY.
  destruct s; simpl; try (rewrite HX, HY; split; [exact H | exact HT]).
  apply IH. simpl. rewrite HX, HY.
  destruct H as [H1 H2]. destruct (HC eq_refl) as [C1 C2].
  split; apply closed_path_app; assumption.
Qed.

Lemma minor_rows_closed (b : Grid.Board) (bbox : Grid.BBox)
    (fc mfc : string) (mdx mdy d0 dx dy ib fin : bool)
    (M0 M1 MRX MRY ms0 ms1 mr0 mr1 sx : num) (n : nat) :
  forall (y : num) (g : Grid.GridEl),
    closed_path (Grid.dataX g) /\ closed_path (Grid.dataY g) ->
    let r := Grid.minor_rows L fuel0 b bbox fc mfc mdx mdy d0 dx dy ib fin
               M0 M1 MRX MRY ms0 ms1 mr0 mr1 sx n y g in
    (closed_path (Grid.dataX (fst r)) /\ closed_path (Grid.dataY (fst r)))
    /\ snd r <> Threw.
Proof.
  induction n as [|n IH]; intros y g H; simpl;
    [split; [exact H | discriminate]|].
  destruct (fin && geb y _); [|split; [exact H | discriminate]].
  pose proof (@minor_row_closed b bbox fc mfc mdx mdy d0 dx dy ib fin
                M0 M1 MRX MRY ms0 mr0 mr1 fuel0 y sx g H) as HR.
  destruct (Grid.minor_row _ _ _ _ _ _ _ _ _ _ _ _ _ _ _ _ _ _ _ _ _ _ _ _)
    as [g1 s]; simpl in HR.
  destruct s; simpl; auto. apply IH. exact (proj1 HR).
Qed.

Lemma createDataArrayForFace_lower (fc : string) (b : Grid.Board)
    (grid : Grid.GridEl) (x y rx ry : num) (bbox : Grid.BBox) :
  Grid.createDataArrayForFace L fuel0 (Grid.toLowerCase fc) b grid
    x y rx ry bbox
  = Grid.createDataArrayForFace L fuel0 fc b grid x y rx ry bbox.
Proof.
  unfold Grid.createDataArrayForFace. rewrite toLowerCase_idem.
  reflexivity.
Qed.

(** What [createDataArrayForFace] returns depends on the grid only
    through the attributes [polygonVertices] and [margin]. *)
Lemma createDataArrayForFace_shape (fc : string) (b : Grid.Board)
    (g g' : Grid.GridEl) (x y rx ry : num) (bbox : Grid.BBox) :
  same_shape g g' ->
  let r := Grid.createDataArrayForFace L fuel0 fc b g x y rx ry bbox in
  let r' := Grid.createDataArrayForFace L fuel0 fc b g' x y rx ry bbox in
  same_shape (fst (fst r)) (fst (fst r'))
  /\ snd (fst r) = snd (fst r') /\ snd r = snd r'.
Proof.
  intros [Hn [Hm [HX HY]]].
  unfold Grid.createDataArrayForFace.
  repeat match goal with
  | |- context [if ?c then _ else _] =>
      destruct c;
      [cbv beta iota; rewrite ?Hm;
       try (split; [repeat split; assumption | split; reflexivity])|]
  end; try (split; [repeat split; assumption | split; reflexivity]).
  change (Grid.polygonvertices
            (Grid.visProp (Grid.set_linecap g "round")))
    with (Grid.polygonvertices (Grid.visProp g)).
  change (Grid.polygonvertices
            (Grid.visProp (Grid.set_linecap g' "round")))
    with (Grid.polygonvertices (Grid.visProp g')).
  rewrite Hn.
  destruct (Grid.regpol_loop _ _ _ _ _ _ _ _ _ _) as [[ax ay] [| |]];
    (split; [repeat split; assumption | split; reflexivity]).
Qed.

Lemma major_row_lower (b : Grid.Board) (bbox : Grid.BBox) (fc : string)
    (d0 dx dy ib fin : bool) (s0 rx ry : num) (n : nat) :
  forall (y x : num) (g g' : Grid.GridEl),
    same_shape g g' ->
    let r := Grid.major_row L fuel0 b bbox (Grid.toLowerCase fc)
               d0 dx dy ib fin s0 rx ry n y x g in
    let r' := Grid.major_row L fuel0 b bbox fc d0 dx dy ib fin s0 rx ry
                n y x g' in
    same_shape (fst r) (fst r') /\ snd r = snd r'.
Proof.
  induction n as [|n IH]; intros y x g g' H; simpl; [split; auto|].
  destruct (fin && leb x _); [|split; auto].
  destruct (Grid.major_skip _ _ _ _ _ _ _ _ _ _); [apply IH; exact H|].
  rewrite createDataArrayForFace_lower.
  destruct (@createDataArrayForFace_shape fc b g g' x y rx ry bbox H)
    as [[Hn [Hm [HX HY]]] [HR HS]].
  destruct (Grid.createDataArrayForFace L fuel0 fc b g _ _ _ _ _)
    as [[g1 [ax ay]] s];
  destruct (Grid.createDataArrayForFace L fuel0 fc b g' _ _ _ _ _)
    as [[g1' [ax' ay']] s'].
  simpl in Hn, Hm, HX, HY, HR, HS. injection HR as -> ->. subst s'.
  destruct s; simpl; try (split; [repeat split; assumption | reflexivity]).
  apply IH. repeat split; simpl; congruence.
Qed.

Lemma major_rows_lower (b : Grid.Board) (bbox : Grid.BBox) (fc : string)
    (d0 dx dy ib fin : bool) (s0 s1 rx ry sx : num) (n : nat) :
  forall (y : num) (g g' : Grid.GridEl),
    same_shape g g' ->
    let r := Grid.major_rows L fuel0 b bbox (Grid.toLowerCase fc)
               d0 dx dy ib fin s0 s1 rx ry sx n y g in
    let r' := Grid.major_rows L fuel0 b bbox fc d0 dx dy ib fin s0 s1 rx ry
                sx n y g' in
    same_shape (fst r) (fst r') /\ snd r = snd r'.
Proof.
  induction n as [|n IH]; intros y g g' H; simpl; [split; auto|].
  destruct (fin && geb y _); [|split; auto].
  destruct (@major_row_lower b bbox fc d0 dx dy ib fin s0 rx ry fuel0
              y sx g g' H) as [HA HS].
  destruct (Grid.major_row _ _ _ _ _ _ _ _ _ _ _ _ _ _ _ _ g) as [g1 s];
  destruct (Grid.major_row _ _ _ _ _ _ _ _ _ _ _ _ _ _ _ _ g') as [g1' s'].
  simpl in HA, HS. subst s'.
  destruct s; simpl; auto.
Qed.

Lemma minor_row_lower (b : Grid.Board) (bbox : Grid.BBox)
    (fc mfc : string) (mdx mdy d0 dx dy ib fin : bool)
    (M0 M1 MRX MRY ms0 mr0 mr1 : num) (n : nat) :
  forall (y x : num) (g g' : Grid.GridEl),
    same_shape g g' ->
    let r := Grid.minor_row L fuel0 b bbox (Grid.toLowerCase fc) mfc
               mdx mdy d0 dx dy ib fin M0 M1 MRX MRY ms0 mr0 mr1 n y x g in
    let r' := Grid.minor_row L fuel0 b bbox fc mfc mdx mdy d0 dx dy ib fin
                M0 M1 MRX MRY ms0 mr0 mr1 n y x g' in
    same_shape (fst r) (fst r') /\ snd r = snd r'.
Proof.
  induction n as [|n IH]; intros y x g g' H; simpl; [split; auto|].
  destruct (fin && leb x _); [|split; auto].
  destruct (_ || _); [apply IH; exact H|].
  rewrite createDataArrayForFace_lower.
  destruct (@createDataArrayForFace_shape fc b g g' x y mr0 mr1 bbox H)
    as [[Hn [Hm [HX HY]]] [HR HS]].
  destruct (Grid.createDataArrayForFace L fuel0 fc b g _ _ _ _ _)
    as [[g1 [ax ay]] s];
  destruct (Grid.createDataArrayForFace L fuel0 fc b g' _ _ _ _ _)
    as [[g1' [ax' ay']] s'].
  simpl in Hn, Hm, HX, HY, HR, HS. injection HR as -> ->. subst s'.
  destruct s; simpl; try (split; [repeat split; assumption | reflexivity]).
  apply IH. repeat split; simpl; congruence.
Qed.

Lemma minor_rows_lower (b : Grid.Board) (bbox : Grid.BBox)
    (fc mfc : string) (mdx mdy d0 dx dy ib fin : bool)
    (M0 M1 MRX MRY ms0 ms1 mr0 mr1 sx : num) (n : nat) :
  forall (y : num) (g g' : Grid.GridEl),
    same_shape g g' ->
    let r := Grid.minor_rows L fuel0 b bbox (Grid.toLowerCase fc) mfc
               mdx mdy d0 dx dy ib fin M0 M1 MRX MRY ms0 ms1 mr0 mr1 sx
               n y g in
    let r' := Grid.minor_rows L fuel0 b bbox fc mfc mdx mdy d0 dx dy ib fin
                M0 M1 MRX MRY ms0 ms1 mr0 mr1 sx n y g' in
    same_shape (fst r) (fst r') /\ snd r = snd r'.
Proof.
  induction n as [|n IH]; intros y g g' H; simpl; [split; auto|].
  destruct (fin && geb y _); [|split; auto].
  destruct (@minor_row_lower b bbox fc mfc mdx mdy d0 dx dy ib fin
              M0 M1 MRX MRY ms0 mr0 mr1 fuel0 y sx g g' H) as [HA HS].
  destruct (Grid.minor_row _ _ _ _ _ _ _ _ _ _ _ _ _ _ _ _ _ _ _ _ _ _ _ g)
    as [g1 s];
  destruct (Grid.minor_row _ _ _ _ _ _ _ _ _ _ _ _ _ _ _ _ _ _ _ _ _ _ _ g')
    as [g1' s'].
  simpl in HA, HS. subst s'.
  destruct s; simpl; auto.
Qed.

End GridMore.

(** X20.  The names of the faces are read without regard to case:
    [createDataArrayForFace] does for a name what it does for the name in
    lower case, and each grid computes the same data arrays, and gets
    equally far, with its attribute [face] in lower case. *)
Theorem face_ignores_case (L : Grid.Lib) (fuel : nat) (st : Grid.State) :
  (forall fc b grid x y rx ry bbox,
      Grid.createDataArrayForFace L fuel (Grid.toLowerCase fc) b grid
        x y rx ry bbox
      = Grid.createDataArrayForFace L fuel fc b grid x y rx ry bbox)
  /\ (let fc := Grid.face (Grid.visProp (Grid.majorGrid st)) in
      let r := Grid.majorGrid_updateDataArray L fuel st in
      let r' :=
        Grid.majorGrid_updateDataArray L fuel
          (with_major_face st (Grid.toLowerCase fc)) in
      Grid.dataX (Grid.majorGrid (fst r'))
      = Grid.dataX (Grid.majorGrid (fst r))
      /\ Grid.dataY (Grid.majorGrid (fst r'))
         = Grid.dataY (Grid.majorGrid (fst r))
      /\ snd r' = snd r)
  /\ (let fc := Grid.face (Grid.visProp (Grid.minorGrid st)) in
      let r := Grid.minorGrid_updateDataArray L fuel st in
      let r' :=
        Grid.minorGrid_updateDataArray L fuel
          (with_minor_face st (Grid.toLowerCase fc)) in
      Grid.dataX (Grid.minorGrid (fst r'))
      = Grid.dataX (Grid.minorGrid (fst r))
      /\ Grid.dataY (Grid.minorGrid (fst r'))
         = Grid.dataY (Grid.minorGrid (fst r))
      /\ snd r' = snd r).
Proof.
  split; [intros; apply createDataArrayForFace_lower | split]; cbv zeta.
  - unfold Grid.majorGrid_updateDataArray, with_major_face, set_face.
    cbn [Grid.minorGrid Grid.majorGrid Grid.board Grid.parentAxes0
         Grid.parentAxes1 Grid.visProp Grid.majorstep
         Grid.gridx Grid.gridy Grid.sizex Grid.sizey Grid.face Grid.drawzero0
         Grid.drawzerox Grid.drawzeroy Grid.includeboundaries
         Grid.forcesquare].
    destruct (Grid.two_entries _) as [arr0 shared].
    destruct (Grid.force_square _ _ _ _) as [s0 s1].
    match goal with
    | |- context [Grid.major_rows ?a ?b ?c ?d (Grid.toLowerCase ?e) ?f ?g ?h
                    ?i ?j ?k ?l ?m ?n ?o ?p ?q ?G1] =>
        match goal with
        | |- context [Grid.major_rows a b c d e f g h i j k l m n o p q
                        ?G2] =>
            destruct (@major_rows_lower L b c d e f g h i j k l m n o
                        p q G1 G2) as [[_ [_ [HX HY]]] HS];
            [repeat split; destruct shared; reflexivity|];
            destruct (Grid.major_rows a b c d (Grid.toLowerCase e) f g h i
                        j k l m n o p q G1) as [g1 t1];
            destruct (Grid.major_rows a b c d e f g h i j k l m n o p q
                        G2) as [g2 t2]
        end
    end.
    simpl in *. auto.
  - unfold Grid.minorGrid_updateDataArray, with_minor_face, set_face.
    cbn [Grid.minorGrid Grid.majorGrid Grid.board Grid.parentAxes0
         Grid.parentAxes1 Grid.majorStep Grid.majorRadiusX Grid.majorRadiusY
         Grid.visProp Grid.minorelements Grid.sizex
         Grid.sizey Grid.face Grid.drawzerox Grid.drawzeroy
         Grid.includeboundaries].
    destruct (Grid.two_entries _) as [me0 shared].
    destruct (Grid.majorStep st) as [ms|]; [|cbn; auto].
    match goal with
    | |- context [Grid.minor_rows ?a ?b ?c ?d (Grid.toLowerCase ?e) ?f ?g ?h
                    ?i ?j ?k ?l ?m ?n ?o ?p ?q ?r ?s ?t ?u ?v ?w ?x ?G1] =>
        match goal with
        | |- context [Grid.minor_rows a b c d e f g h i j k l m n o
                        p q r s t u v w x ?G2] =>
            destruct (@minor_rows_lower L b c d e f g h i j k l m n o p q r
                        s t u v w x G1 G2) as [[_ [_ [HX HY]]] HS];
            [repeat split; destruct shared; reflexivity|];
            destruct (Grid.minor_rows a b c d (Grid.toLowerCase e) f g h i
                        j k l m n o p q r s t u v w x G1) as [g1 t1];
            destruct (Grid.minor_rows a b c d e f g h i j k l m n o
                        p q r s t u v w x G2) as [g2 t2]
        end
    end.
    simpl in *. auto.
Qed.

(** X21.  However far a call of [updateDataArray] of the major or of the
    minor grid has got, each of [dataX] and [dataY] is empty or ends with
    the [NaN] that closes the last element drawn: no element is left
    open, and none is joined to the next. *)
Theorem data_arrays_closed (L : Grid.Lib) (fuel : nat) (st : Grid.State) :
  let g := Grid.majorGrid (fst (Grid.majorGrid_updateDataArray L fuel st)) in
  let h := Grid.minorGrid (fst (Grid.minorGrid_updateDataArray L fuel st)) in
  (closed_path (Grid.dataX g) /\ closed_path (Grid.dataY g))
  /\ (closed_path (Grid.dataX h) /\ closed_path (Grid.dataY h)).
Proof.
  cbv zeta. split.
  - unfold Grid.majorGrid_updateDataArray.
    destruct (Grid.two_entries _) as [arr0 shared].
    destruct (Grid.force_square _ _ _ _) as [s0 s1].
    match goal with |- context [Grid.major_rows ?a ?b ?c ?d ?e ?f ?g ?h ?i
                                  ?j ?k ?l ?m ?n ?o ?p ?q ?r] =>
      pose proof (@major_rows_closed a b c d e f g h i j k l m n o p q r)
        as H; destruct (Grid.major_rows a b c d e f g h i j k l m n o p q r)
        as [this2 status]
    end.
    simpl in *. apply H. split; left; reflexivity.
  - unfold Grid.minorGrid_updateDataArray.
    destruct (Grid.two_entries _) as [me0 shared].
    destruct (Grid.majorStep st) as [ms|];
      [|simpl; split; left; reflexivity].
    match goal with |- context [Grid.minor_rows ?a ?b ?c ?d ?e ?f ?g ?h ?i
                                  ?j ?k ?l ?m ?n ?o ?p ?q ?r ?s ?t ?u ?v ?w
                                  ?x ?y] =>
      pose proof (@minor_rows_closed a b c d e f g h i j k l m n o p q r
                    s t u v w x y) as H;
      destruct (Grid.minor_rows a b c d e f g h i j k l m n o p q r
                  s t u v w x y) as [this2 status]
    end.
    simpl in *. apply H. split; left; reflexivity.
Qed.

(** X22.  While the variable [majorStep] is undefined, that is before the
    first call of [majorGrid.updateDataArray], [minorGrid.updateDataArray]
    throws, after it has emptied its data arrays.  It never assigns
    [majorStep], so that it throws again at every further call; a call of
    [majorGrid.updateDataArray] defines [majorStep], however far it
    gets. *)
Theorem updateDataArray_throws (L : Grid.Lib) (fuel : nat)
    (st : Grid.State) :
  let r := Grid.minorGrid_updateDataArray L fuel st in
  (Grid.majorStep st = None ->
   snd r = Threw
   /\ Grid.dataX (Grid.minorGrid (fst r)) = []
   /\ Grid.dataY (Grid.minorGrid (fst r)) = []
   /\ snd (Grid.minorGrid_updateDataArray L fuel (fst r)) = Threw)
  /\ Grid.majorStep (fst r) = Grid.majorStep st
  /\ Grid.majorStep (fst (Grid.majorGrid_updateDataArray L fuel st)) <> None.
Proof.
  assert (K : forall st0 : Grid.State,
             Grid.majorStep
               (fst (Grid.minorGrid_updateDataArray L fuel st0))
             = Grid.majorStep st0).
  { intros st0. unfold Grid.minorGrid_updateDataArray.
    destruct (Grid.two_entries _) as [me0 shared].
    destruct (Grid.majorStep st0) as [ms|]; [|reflexivity].
    destruct (Grid.minor_rows _ _ _ _ _ _ _ _ _ _ _ _ _ _ _ _ _ _ _ _ _ _
                _ _ _) as [this2 status].
    reflexivity. }
  assert (T : forall st0 : Grid.State,
             Grid.majorStep st0 = None ->
             let r0 := Grid.minorGrid_updateDataArray L fuel st0 in
             snd r0 = Threw
             /\ Grid.dataX (Grid.minorGrid (fst r0)) = []
             /\ Grid.dataY (Grid.minorGrid (fst r0)) = []).
  { intros st0 Hm. unfold Grid.minorGrid_updateDataArray. rewrite Hm.
    destruct (Grid.two_entries _) as [me0 shared].
    repeat split. }
  cbv zeta. split; [|split].
  - intros Hm. destruct (T st Hm) as [T1 [T2 T3]].
    split; [exact T1 | split; [exact T2 | split; [exact T3 |]]].
    apply T. rewrite K. exact Hm.
  - apply K.
  - unfold Grid.majorGrid_updateDataArray.
    destruct (Grid.two_entries _) as [arr0 shared].
    destruct (Grid.force_square _ _ _ _) as [s0 s1].
    destruct (Grid.major_rows _ _ _ _ _ _ _ _ _ _ _ _ _ _ _ _ _ _)
      as [this2 status].
    discriminate.
Qed.

Section GridDegenerate.

Lemma no_step_ltb (a s : num) :
  no_step s = true ->
  ltb (Math_abs a) (Math_abs (mul s Grid.maxLines)) = false.
Proof.
  destruct s as [sg| | |sg m e]; intros H; try discriminate H.
  - destruct sg, a; reflexivity.
  - destruct a; reflexivity.
Qed.

Lemma array_get_set_same (a : list Grid.Value) (v : Grid.Value) :
  forall i : nat, Grid.array_get (Grid.array_set a i v) i = v.
Proof.
  unfold Grid.array_get. revert a.
  assert (E : forall i, nth i (Grid.array_set [] i v) Grid.VUndefined = v)
    by (induction i; simpl; auto).
  intros a i. revert a. induction i as [|i IH]; intros [|h t]; simpl; auto.
Qed.

Lemma array_get_set_other (a : list Grid.Value) (v : Grid.Value) :
  forall i j : nat,
    i <> j ->
    Grid.array_get (Grid.array_set a i v) j = Grid.array_get a j.
Proof.
  unfold Grid.array_get.
  assert (E : forall i j, i <> j ->
               nth j (Grid.array_set [] i v) Grid.VUndefined
               = nth j [] Grid.VUndefined).
  { induction i as [|i IH]; intros [|j] N; simpl; auto; try congruence.
    - destruct j; reflexivity.
    - rewrite IH by congruence. destruct j; reflexivity. }
  intros i. revert a.
  induction i as [|i IH]; intros [|h t] [|j] N; simpl; auto;
    try congruence.
  - destruct j; reflexivity.
  - rewrite (E i j) by congruence. destruct j; reflexivity.
Qed.

End GridDegenerate.



(** ** Parent axes on which a read fails *)

Section AxisReadsFacts.

Variable L : Grid.Lib.

Lemma array_set_length (a : list Grid.Value) (v : Grid.Value) :
  forall i : nat,
    (List.length a <= List.length (Grid.array_set a i v))%nat.
Proof.
  intros i. revert a.
  induction i as [|i IH]; intros [|h t]; simpl; try lia.
  specialize (IH t). lia.
Qed.

Lemma two_entries_shared (s : Grid.Steps) :
  snd (Grid.two_entries s) = true ->
  s = Grid.Array (fst (Grid.two_entries s))
  /\ (2 <= List.length (fst (Grid.two_entries s)))%nat.
Proof.
  destruct s as [v|l]; simpl; [discriminate|].
  destruct (List.length l <? 2)%nat eqn:E; simpl; [discriminate|].
  intros _. apply Nat.ltb_ge in E. auto.
Qed.

Lemma two_entries_long (l : list Grid.Value) :
  (2 <= List.length l)%nat -> Grid.two_entries (Grid.Array l) = (l, true).
Proof.
  intros H. simpl. apply Nat.ltb_ge in H. rewrite H. reflexivity.
Qed.

Lemma majorStep_given_shared (st : Grid.State) :
  snd (Grid.majorStep_given st)
  = snd (Grid.two_entries (Grid.majorstep (Grid.visProp (Grid.majorGrid st)))).
Proof.
  unfold Grid.majorStep_given.
  destruct (Grid.two_entries _) as [arr0 shared]. reflexivity.
Qed.

Lemma majorStep_given_length (st : Grid.State) :
  snd (Grid.majorStep_given st) = true ->
  (2 <= List.length (fst (Grid.majorStep_given st)))%nat.
Proof.
  rewrite majorStep_given_shared. intros H.
  apply two_entries_shared in H. destruct H as [_ H]. revert H.
  unfold Grid.majorStep_given.
  destruct (Grid.two_entries _) as [arr0 shared]. cbn [fst snd].
  intros H.
  destruct (Grid.Type_exists (Grid.gridx _));
    destruct (Grid.Type_exists (Grid.gridy _));
    repeat (eapply Nat.le_trans; [|apply array_set_length]); exact H.
Qed.

Lemma major_on_agrees (a0 a1 : Grid.AxisReads) (fuel : nat)
    (st : Grid.State) :
  Grid.parentAxes0 st = None \/ Grid.has_ticks0 a0 = true ->
  Grid.parentAxes1 st = None \/ Grid.has_ticks0 a1 = true ->
  Grid.majorGrid_updateDataArray_on L a0 a1 fuel st
  = Grid.majorGrid_updateDataArray L fuel st.
Proof.
  intros H0 H1. unfold Grid.majorGrid_updateDataArray_on.
  destruct (Grid.majorStep_given st) as [arr2 shared].
  assert (E0 : Grid.axis_exists (Grid.parentAxes0 st)
               && negb (Grid.has_ticks0 a0) = false)
    by (destruct H0 as [H|H]; rewrite H;
        [reflexivity | apply andb_false_r]).
  assert (E1 : Grid.axis_exists (Grid.parentAxes1 st)
               && negb (Grid.has_ticks0 a1) = false)
    by (destruct H1 as [H|H]; rewrite H;
        [reflexivity | apply andb_false_r]).
  rewrite <- !andb_assoc, E0, E1, !andb_false_r. reflexivity.
Qed.

Lemma major_on_throws (a0 a1 : Grid.AxisReads) (fuel : nat)
    (st : Grid.State) :
  Grid.isAuto (Grid.array_get (fst (Grid.majorStep_given st)) 0) = true ->
  Grid.parentAxes0 st <> None ->
  Grid.has_ticks0 a0 = false ->
  Grid.majorGrid_updateDataArray_on L a0 a1 fuel st
  = (Grid.major_thrown st
       (Grid.array_set (fst (Grid.majorStep_given st)) 0
          (Grid.VNum (of_Z 1)))
       (snd (Grid.majorStep_given st)),
     Threw).
Proof.
  intros A P T. unfold Grid.majorGrid_updateDataArray_on.
  destruct (Grid.majorStep_given st) as [arr2 shared]. cbn [fst snd] in *.
  rewrite A, T. destruct (Grid.parentAxes0 st); [reflexivity|congruence].
Qed.

Lemma majorStep_given_thrown (st : Grid.State) (arr : list Grid.Value) :
  Grid.majorStep_given (Grid.major_thrown st arr false)
  = Grid.majorStep_given st.
Proof. reflexivity. Qed.

Lemma majorStep_given_thrown_shared (st : Grid.State)
    (arr : list Grid.Value) :
  (2 <= List.length arr)%nat ->
  Grid.Type_exists (Grid.gridx (Grid.visProp (Grid.majorGrid st))) = false ->
  Grid.array_get (fst (Grid.majorStep_given (Grid.major_thrown st arr true)))
    0
  = Grid.array_get arr 0.
Proof.
  intros Hl Hx. unfold Grid.majorStep_given, Grid.major_thrown.
  cbn [Grid.majorGrid Grid.visProp Grid.set_data Grid.set_majorstep
       Grid.majorstep Grid.gridx Grid.gridy].
  rewrite (two_entries_long _ Hl), Hx.
  destruct (Grid.Type_exists (Grid.gridy _)); cbn [fst];
    [apply array_get_set_other; discriminate | reflexivity].
Qed.

Lemma minor_on_agrees (a0 a1 : Grid.AxisReads) (fuel : nat)
    (st : Grid.State) :
  Grid.parentAxes0 st = None \/ Grid.has_ticks_attribute a0 = true ->
  Grid.parentAxes1 st = None \/ Grid.has_ticks_attribute a1 = true ->
  Grid.minorGrid_updateDataArray_on L a0 a1 fuel st
  = Grid.minorGrid_updateDataArray L fuel st.
Proof.
  intros H0 H1. unfold Grid.minorGrid_updateDataArray_on.
  destruct (Grid.two_entries _) as [me0 shared].
  assert (E0 : Grid.axis_exists (Grid.parentAxes0 st)
               && negb (Grid.has_ticks_attribute a0) = false)
    by (destruct H0 as [H|H]; rewrite H;
        [reflexivity | apply andb_false_r]).
  assert (E1 : Grid.axis_exists (Grid.parentAxes1 st)
               && negb (Grid.has_ticks_attribute a1) = false)
    by (destruct H1 as [H|H]; rewrite H;
        [reflexivity | apply andb_false_r]).
  rewrite <- !andb_assoc, E0, E1, !andb_false_r.
  destruct (Grid.majorStep st); reflexivity.
Qed.

Lemma minor_on_throws (a0 a1 : Grid.AxisReads) (fuel : nat)
    (st : Grid.State) :
  let me :=
    Grid.two_entries (Grid.minorelements (Grid.visProp (Grid.minorGrid st)))
  in
  Grid.Type_isNumber (Grid.array_get (fst me) 0) = false ->
  Grid.parentAxes0 st <> None ->
  Grid.has_ticks_attribute a0 = false ->
  Grid.minorGrid_updateDataArray_on L a0 a1 fuel st
  = (Grid.minor_thrown st
       (Grid.array_set (fst me) 0 (Grid.VNum (of_Z 0))) (snd me),
     Threw).
Proof.
  cbv zeta. intros A P T. unfold Grid.minorGrid_updateDataArray_on.
  destruct (Grid.two_entries _) as [me0 shared]. cbn [fst snd] in *.
  rewrite A, T. destruct (Grid.parentAxes0 st); [reflexivity|congruence].
Qed.

End AxisReadsFacts.

(** X30.  A parent axis without an entry [ticks[0]] makes
    [majorGrid.updateDataArray] throw when the step is ['auto'], and one
    without the attribute [ticks] makes [minorGrid.updateDataArray] throw
    when the number of minor elements is not a number; with axes on which
    both can be read, or without axes, the two functions run as
    [majorGrid_updateDataArray] and [minorGrid_updateDataArray] have
    them.  At the throw the data arrays are empty and the fallback, 1 or
    0, has been assigned.  When the attribute is not an array of two
    entries every further call throws again.  When it is, the fallback
    has been written into the attribute: the next call finds a number
    there and no longer reads the axis. *)
Theorem updateDataArray_axis_reads (L : Grid.Lib) (fuel : nat)
    (st : Grid.State) (a0 a1 : Grid.AxisReads) :
  let arr := fst (Grid.majorStep_given st) in
  let shared := snd (Grid.majorStep_given st) in
  let r := Grid.majorGrid_updateDataArray_on L a0 a1 fuel st in
  let me :=
    fst (Grid.two_entries
           (Grid.minorelements (Grid.visProp (Grid.minorGrid st)))) in
  let me_shared :=
    snd (Grid.two_entries
           (Grid.minorelements (Grid.visProp (Grid.minorGrid st)))) in
  let q := Grid.minorGrid_updateDataArray_on L a0 a1 fuel st in
  ((Grid.parentAxes0 st = None \/ Grid.has_ticks0 a0 = true) ->
   (Grid.parentAxes1 st = None \/ Grid.has_ticks0 a1 = true) ->
   r = Grid.majorGrid_updateDataArray L fuel st)
  /\ (Grid.isAuto (Grid.array_get arr 0) = true ->
      Grid.parentAxes0 st <> None ->
      Grid.has_ticks0 a0 = false ->
      snd r = Threw
      /\ Grid.dataX (Grid.majorGrid (fst r)) = []
      /\ Grid.dataY (Grid.majorGrid (fst r)) = []
      /\ Grid.majorStep (fst r)
         = Some (Grid.array_set arr 0 (Grid.VNum (of_Z 1)))
      /\ (shared = false ->
          snd (Grid.majorGrid_updateDataArray_on L a0 a1 fuel (fst r))
          = Threw)
      /\ (shared = true ->
          Grid.Type_exists (Grid.gridx (Grid.visProp (Grid.majorGrid st)))
          = false ->
          Grid.array_get (fst (Grid.majorStep_given (fst r))) 0
          = Grid.VNum (of_Z 1)
          /\ (Grid.parentAxes1 st = None \/ Grid.has_ticks0 a1 = true ->
              Grid.majorGrid_updateDataArray_on L a0 a1 fuel (fst r)
              = Grid.majorGrid_updateDataArray L fuel (fst r))))
  /\ ((Grid.parentAxes0 st = None \/ Grid.has_ticks_attribute a0 = true) ->
      (Grid.parentAxes1 st = None \/ Grid.has_ticks_attribute a1 = true) ->
      q = Grid.minorGrid_updateDataArray L fuel st)
  /\ (Grid.Type_isNumber (Grid.array_get me 0) = false ->
      Grid.parentAxes0 st <> None ->
      Grid.has_ticks_attribute a0 = false ->
      snd q = Threw
      /\ Grid.dataX (Grid.minorGrid (fst q)) = []
      /\ Grid.dataY (Grid.minorGrid (fst q)) = []
      /\ Grid.majorStep (fst q) = Grid.majorStep st
      /\ (me_shared = false ->
          snd (Grid.minorGrid_updateDataArray_on L a0 a1 fuel (fst q))
          = Threw)
      /\ (me_shared = true ->
          Grid.array_get
            (fst (Grid.two_entries
                    (Grid.minorelements
                       (Grid.visProp (Grid.minorGrid (fst q)))))) 0
          = Grid.VNum (of_Z 0)
          /\ (Grid.parentAxes1 st = None
              \/ Grid.has_ticks_attribute a1 = true ->
              Grid.minorGrid_updateDataArray_on L a0 a1 fuel (fst q)
              = Grid.minorGrid_updateDataArray L fuel (fst q)))).
Proof.
  cbv zeta. split; [|split; [|split]].
  - apply major_on_agrees.
  - intros A P T. rewrite (major_on_throws L a0 a1 fuel st A P T).
    cbn [fst snd].
    split; [reflexivity|]. split; [reflexivity|]. split; [reflexivity|].
    split; [reflexivity|]. split.
    + intros S. rewrite S.
      rewrite major_on_throws;
        [reflexivity | rewrite majorStep_given_thrown; exact A
        | exact P | exact T].
    + intros S X. rewrite S.
      assert (E : Grid.array_get
                    (fst (Grid.majorStep_given
                            (Grid.major_thrown st
                               (Grid.array_set
                                  (fst (Grid.majorStep_given st)) 0
                                  (Grid.VNum (of_Z 1))) true))) 0
                  = Grid.VNum (of_Z 1)).
      { rewrite majorStep_given_thrown_shared;
          [ | rewrite <- array_set_length;
              apply majorStep_given_length; exact S
            | exact X ].
        apply array_get_set_same. }
      split; [exact E|].
      intros H1. unfold Grid.majorGrid_updateDataArray_on.
      destruct (Grid.majorStep_given (Grid.major_thrown _ _ _))
        as [arr2 sh] eqn:G.
      cbn [fst] in E. rewrite E. cbn [Grid.isAuto andb].
      cbn [Grid.major_thrown Grid.parentAxes1].
      assert (E1 : Grid.axis_exists (Grid.parentAxes1 st)
                   && negb (Grid.has_ticks0 a1) = false)
        by (destruct H1 as [H|H]; rewrite H;
            [reflexivity | apply andb_false_r]).
      rewrite <- !andb_assoc, E1, !andb_false_r. reflexivity.
  - apply minor_on_agrees.
  - intros A P T. rewrite (minor_on_throws L a0 a1 fuel st A P T).
    cbn [fst snd].
    split; [reflexivity|]. split; [reflexivity|]. split; [reflexivity|].
    split; [reflexivity|]. split.
    + intros S. rewrite S.
      rewrite minor_on_throws; [reflexivity | exact A | exact P | exact T].
    + intros S. rewrite S.
      destruct (two_entries_shared _ S) as [_ Hl].
      assert (Hl' : (2 <= List.length
                       (Grid.array_set
                          (fst (Grid.two_entries
                                  (Grid.minorelements
                                     (Grid.visProp (Grid.minorGrid st)))))
                          0 (Grid.VNum (of_Z 0))))%nat)
        by (rewrite <- array_set_length; exact Hl).
      cbn [Grid.minor_thrown Grid.minorGrid Grid.visProp Grid.set_data
           Grid.set_minorelements Grid.minorelements].
      rewrite (two_entries_long _ Hl'). cbn [fst].
      split; [apply array_get_set_same|].
      intros H1. unfold Grid.minorGrid_updateDataArray_on.
      cbn [Grid.minor_thrown Grid.minorGrid Grid.visProp Grid.set_data
           Grid.set_minorelements Grid.minorelements Grid.parentAxes0
           Grid.parentAxes1 Grid.majorStep].
      rewrite (two_entries_long _ Hl'), array_get_set_same.
      cbn [Grid.Type_isNumber negb andb].
      assert (E1 : Grid.axis_exists (Grid.parentAxes1 st)
                   && negb (Grid.has_ticks_attribute a1) = false)
        by (destruct H1 as [H|H]; rewrite H;
            [reflexivity | apply andb_false_r]).
      rewrite <- !andb_assoc, E1, !andb_false_r.
      destruct (Grid.majorStep st); reflexivity.
Qed.

Lemma updateDataArray_axis_reads_witness :
  let L := Grid.example_lib (fun t : num => t) in
  let bare := Grid.mkAxisReads false false in
  let r := Grid.majorGrid_updateDataArray_on L bare bare 100 auto_grid in
  let q := Grid.minorGrid_updateDataArray_on L bare bare 100 auto_grid in
  (snd r = Threw
   /\ Grid.majorGrid_updateDataArray_on L bare bare 100 (fst r)
      = Grid.majorGrid_updateDataArray L 100 (fst r))
  /\ (snd q = Threw
      /\ Grid.minorGrid_updateDataArray_on L bare bare 100 (fst q)
         = Grid.minorGrid_updateDataArray L 100 (fst q)).
Proof.
  cbv zeta.
  destruct (@updateDataArray_axis_reads
              (Grid.example_lib (fun t : num => t)) 100 auto_grid
              (Grid.mkAxisReads false false) (Grid.mkAxisReads false false))
    as [_ [M [_ N]]].
  split.
  - destruct (M eq_refl ltac:(discriminate) eq_refl)
      as [M1 [_ [_ [_ [_ M2]]]]].
    split; [exact M1|].
    apply (M2 eq_refl eq_refl). left. reflexivity.
  - destruct (N eq_refl ltac:(discriminate) eq_refl)
      as [N1 [_ [_ [_ [_ N2]]]]].
    split; [exact N1|].
    apply (N2 eq_refl). left. reflexivity.
Defined.

Section GridParentsFacts.

Import GridParents.

Lemma createGrid_parents_cases (parents : list Parent)
    (d : option (Parent * Parent)) :
  match parents with
  | [] => createGrid_parents parents d
          = inr (option_map fst d, option_map snd d)
  | [p] =>
      createGrid_parents parents d
      = if is_axis p then inr (Some p, option_map snd d)
        else inl (parent_error p)
  | [p; q] =>
      createGrid_parents parents d
      = if is_axis p && is_axis q then inr (Some p, Some q)
        else inl (parent_error p)
  | p :: _ :: _ :: _ => createGrid_parents parents d = inl (parent_error p)
  end.
Proof.
  destruct parents as [|p [|q [|r rest]]]; unfold createGrid_parents;
    cbn [List.length Nat.ltb Nat.leb nth_error orb or_default].
  - destruct d as [[x y]|]; reflexivity.
  - destruct (is_axis p); reflexivity.
  - destruct (is_axis p), (is_axis q); reflexivity.
  - reflexivity.
Qed.

End GridParentsFacts.

